(** * The edit-tag codec of CAMeL-Lab/text-editing

    A shallow embedding of [edits/edit.py] (encoder, tag compression,
    sub-token projector, applier and validator) and of the edit-distance
    gate of [gec/utils/postprocess.py], followed by the properties that
    the specification states about them.

    Python strings are modelled by [string]; a character is a code point
    below 256.  A Python exception is a value of [error]; functions that
    can raise return a [res]. *)

From Stdlib Require Import Strings.String Strings.Ascii Lists.List.
From Stdlib Require Import Arith.PeanoNat Arith.Compare_dec ZArith Lia Bool.
Import ListNotations.
Open Scope list_scope.
Open Scope string_scope.

(** ** Exceptions *)

Inductive error : Type :=
| IndexError        (* subscript or pop out of range *)
| AssertionError    (* a failed [assert] *)
| Breakpoint.       (* [pdb.set_trace()]: the run is handed to the debugger *)

Inductive res (A : Type) : Type :=
| Ok (a : A)
| Raise (e : error).
Arguments Ok {A} a.
Arguments Raise {A} e.

Definition bind {A B} (r : res A) (k : A -> res B) : res B :=
  match r with
  | Ok a => k a
  | Raise e => Raise e
  end.

Notation "x <- r ;; k" := (bind r (fun x => k))
  (at level 61, r at next level, right associativity).
Notation "' p <- r ;; k" := (bind r (fun p => k))
  (at level 61, p pattern, r at next level, right associativity).

Definition of_option {A} (e : error) (o : option A) : res A :=
  match o with
  | Some a => Ok a
  | None => Raise e
  end.

Definition assert (b : bool) : res unit :=
  if b then Ok tt else Raise AssertionError.

Fixpoint sequence {A} (l : list (res A)) : res (list A) :=
  match l with
  | [] => Ok []
  | r :: l' => a <- r ;; t <- sequence l' ;; Ok (a :: t)
  end.

(** ** Python string and list primitives *)

Module Py.

Definition newline : ascii := "010"%char.

Definition chars (s : string) : list ascii := list_ascii_of_string s.

Definition str (c : ascii) : string := String c "".

(** [''.join(l)] *)
Definition join (l : list string) : string := String.concat "" l.

(** [sep.join(l)] *)
Definition join_with (sep : string) (l : list string) : string :=
  String.concat sep l.

(** [s * n] *)
Fixpoint repeat_str (s : string) (n : nat) : string :=
  match n with
  | O => ""
  | S k => s ++ repeat_str s k
  end.

(** [s.startswith(p)] *)
Fixpoint startswith (p s : string) : bool :=
  match p, s with
  | "", _ => true
  | String a p', String b s' => Ascii.eqb a b && startswith p' s'
  | String _ _, "" => false
  end.

(** [p in s] for two strings: [p] occurs in [s] as a contiguous block. *)
Fixpoint contains (p s : string) : bool :=
  startswith p s ||
  match s with
  | "" => false
  | String _ s' => contains p s'
  end.

(** [c in s] for a character [c]. *)
Fixpoint char_in (c : ascii) (s : string) : bool :=
  match s with
  | "" => false
  | String b s' => Ascii.eqb c b || char_in c s'
  end.

(** [s[:n]] for [n >= 0] *)
Fixpoint take (n : nat) (s : string) : string :=
  match n, s with
  | S k, String c s' => String c (take k s')
  | _, _ => ""
  end.

(** [s[n:]] for [n >= 0] *)
Fixpoint drop (n : nat) (s : string) : string :=
  match n, s with
  | S k, String _ s' => drop k s'
  | _, _ => s
  end.

(** [s[:-n]] for [n >= 0]; Python reads [s[:-0]] as [s[:0]]. *)
Definition drop_last (n : nat) (s : string) : string :=
  match n with
  | O => ""
  | S _ => take (String.length s - n) s
  end.

(** [s[i]] for [i >= 0] *)
Definition getitem (s : string) (i : nat) : res ascii :=
  of_option IndexError (String.get i s).

(** [s.replace('##', '')]: occurrences are removed left to right and do
    not overlap. *)
Fixpoint remove_marker (s : string) : string :=
  match s with
  | "" => ""
  | String c s' =>
      match s' with
      | String d s'' =>
          if Ascii.eqb c "#" && Ascii.eqb d "#" then remove_marker s''
          else String c (remove_marker s')
      | "" => String c ""
      end
  end.

(** [str.isspace] on code points below 256. *)
Definition isspace (c : ascii) : bool :=
  let n := nat_of_ascii c in
  (((9 <=? n) && (n <=? 13)) || ((28 <=? n) && (n <=? 32))
   || (n =? 133) || (n =? 160))%nat.

Fixpoint lstrip (s : string) : string :=
  match s with
  | "" => ""
  | String c s' => if isspace c then lstrip s' else s
  end.

Fixpoint rstrip (s : string) : string :=
  match s with
  | "" => ""
  | String c s' =>
      match rstrip s' with
      | "" => if isspace c then "" else String c ""
      | r => String c r
      end
  end.

(** [s.strip()] *)
Definition strip (s : string) : string := rstrip (lstrip s).

(** [s.split()]: the maximal blocks of non-blank characters.  [cur] is
    the block being read. *)
Fixpoint split_from (cur : string) (s : string) : list string :=
  match s with
  | "" => if cur =? "" then [] else [cur]
  | String c s' =>
      if isspace c
      then ((if cur =? "" then [] else [cur]) ++ split_from "" s')%list
      else split_from (cur ++ str c) s'
  end.

Definition split (s : string) : list string := split_from "" s.

Fixpoint list_eqb (l1 l2 : list string) : bool :=
  match l1, l2 with
  | [], [] => true
  | a :: l1', b :: l2' => (a =? b) && list_eqb l1' l2'
  | _, _ => false
  end.

(** [range(n)] *)
Definition range (n : nat) : list nat := seq 0 n.

(** [enumerate(l)] *)
Definition enumerate {A} (l : list A) : list (nat * A) :=
  combine (seq 0 (List.length l)) l.

End Py.

(** ** The regular expressions of the module

    Every pattern of [edit.py] is an alternation of the pieces below, each
    of which ends the pattern, so the first alternative that matches at a
    position is the match. *)

Module Re.

(** [.*?] followed by [\]]: the characters up to the first [']'], none of
    which may be a line break; returns them and the text from that [']']. *)
Fixpoint lazy_until_bracket (s : string) : option (string * string) :=
  match s with
  | "" => None
  | String c s' =>
      if Ascii.eqb c "]" then Some ("", s)
      else if Ascii.eqb c Py.newline then None
      else match lazy_until_bracket s' with
           | Some (p, r) => Some (String c p, r)
           | None => None
           end
  end.

(** [c+], greedy: the block of [c] at the head of [s] and what follows. *)
Fixpoint span (c : ascii) (s : string) : string * string :=
  match s with
  | String b s' =>
      if Ascii.eqb b c
      then let (r, t) := span c s' in (String b r, t)
      else ("", s)
  | "" => ("", "")
  end.

Definition matcher := string -> option string.

(** [x_\[.*?\]+] *)
Definition bracket_op (x : ascii) : matcher := fun s =>
  match s with
  | String c (String u (String b r)) =>
      if Ascii.eqb c x && Ascii.eqb u "_" && Ascii.eqb b "[" then
        match lazy_until_bracket r with
        | Some (p, r') =>
            Some (String x "_[" ++ p ++ fst (span "]" r'))
        | None => None
        end
      else None
  | _ => None
  end.

(** [c+] *)
Definition plus (c : ascii) : matcher := fun s =>
  match fst (span c s) with
  | "" => None
  | r => Some r
  end.

(** a literal *)
Definition lit (p : string) : matcher := fun s =>
  if Py.startswith p s then Some p else None.

(** [.]: any character but a line break *)
Definition dot : matcher := fun s =>
  match s with
  | String c _ => if Ascii.eqb c Py.newline then None else Some (Py.str c)
  | "" => None
  end.

(** [a|b] *)
Definition alt (a b : matcher) : matcher := fun s =>
  match a s with
  | Some t => Some t
  | None => b s
  end.

Infix "|||" := alt (at level 50, left associativity).

(** [re.findall(m, s)] for a pattern without groups whose matches are
    never empty: scan left to right, emit each match and resume after it,
    step over a character where nothing matches.  [skip] counts the
    characters of the last match still to be stepped over. *)
Fixpoint findall_from (m : matcher) (skip : nat) (s : string) : list string :=
  match s with
  | "" => []
  | String _ s' =>
      match skip with
      | S k => findall_from m k s'
      | O =>
          match m s with
          | Some t => t :: findall_from m (String.length t - 1) s'
          | None => findall_from m 0 s'
          end
      end
  end.

Definition findall (m : matcher) (s : string) : list string :=
  findall_from m 0 s.

(** [x_\[(.*?)\]] at the head of [s]: the captured group. *)
Definition payload_at (x : ascii) (s : string) : option string :=
  match s with
  | String c (String u (String b r)) =>
      if Ascii.eqb c x && Ascii.eqb u "_" && Ascii.eqb b "[" then
        match lazy_until_bracket r with
        | Some (p, _) => Some p
        | None => None
        end
      else None
  | _ => None
  end.

(** [re.sub(r'x_\[(.*?)\]', r'\1', s)] *)
Fixpoint sub_payload_from (x : ascii) (skip : nat) (s : string) : string :=
  match s with
  | "" => ""
  | String c s' =>
      match skip with
      | S k => sub_payload_from x k s'
      | O =>
          match payload_at x s with
          | Some p => p ++ sub_payload_from x (3 + String.length p) s'
          | None => String c (sub_payload_from x 0 s')
          end
      end
  end.

Definition sub_payload (x : ascii) (s : string) : string :=
  sub_payload_from x 0 s.

Definition head (s : string) : option ascii :=
  match s with
  | "" => None
  | String c _ => Some c
  end.

Definition is_char (c : ascii) (o : option ascii) : bool :=
  match o with
  | Some d => Ascii.eqb d c
  | None => false
  end.

(** [re.sub(r"(?<!\[)S(?!\])", '', s)]; [prev] is the character before
    the head of [s] in the original text. *)
Fixpoint sub_soft_keep_from (prev : option ascii) (s : string) : string :=
  match s with
  | "" => ""
  | String c s' =>
      if Ascii.eqb c "S" && negb (is_char "[" prev) && negb (is_char "]" (head s'))
      then sub_soft_keep_from (Some c) s'
      else String c (sub_soft_keep_from (Some c) s')
  end.

Definition sub_soft_keep (s : string) : string := sub_soft_keep_from None s.

(** [I_\[.*?\]+|A_\[.*?\]+|R_\[.*?\]+|K\*|D\*|.] *)
Definition char_edit_re : matcher :=
  bracket_op "I" ||| bracket_op "A" ||| bracket_op "R"
  ||| lit "K*" ||| lit "D*" ||| dot.

(** [A_\[.*?\]+] *)
Definition append_re : matcher := bracket_op "A".

(** [I_\[.*?\]+|R_\[.*?\]+|D+|K+|.] *)
Definition project_re : matcher :=
  bracket_op "I" ||| bracket_op "R" ||| plus "D" ||| plus "K" ||| dot.

(** [I_\[.*?\]+|R_\[.*?\]+|A_\[.*?\]+|D+|K+|.] *)
Definition compress_re : matcher :=
  bracket_op "I" ||| bracket_op "R" ||| bracket_op "A"
  ||| plus "D" ||| plus "K" ||| dot.

End Re.

Import Py.

(** ** Tag compression *)

Definition flush_insertions (insertions : string) : list string :=
  if insertions =? "" then [] else ["I_[" ++ insertions ++ "]"].

(** The loop of [compress_insertions]; [insertions] is the pending text
    and the result is what is appended to [_edits] from here on. *)
Fixpoint compress_insertions_from (insertions : string) (edits : list string)
  : list string :=
  match edits with
  | [] => flush_insertions insertions
  | edit :: rest =>
      if startswith "I_" edit
      then compress_insertions_from (insertions ++ Re.sub_payload "I" edit) rest
      else (flush_insertions insertions
              ++ edit :: compress_insertions_from "" rest)%list
  end.

Definition compress_insertions (edits : list string) : list string :=
  compress_insertions_from "" edits.

Definition compress_edit (edit : string) : string :=
  let grouped_edits := Re.findall Re.compress_re edit in
  let grouped_edits := compress_insertions grouped_edits in
  join grouped_edits.

(** ** The encoder *)

(** The [while] loop of [get_edits].  The cursors are kept as the unread
    texts [src_chars[i:]] and [tgt_chars[j:]]; the loop runs while both are
    non-empty. *)
Fixpoint replace_scan (src tgt edit : string) : string * string * string :=
  match src, tgt with
  | String c src', String t tgt' =>
      if negb (Ascii.eqb c " ")
      then replace_scan src' tgt' (edit ++ "R_[" ++ str t ++ "]")
      else replace_scan src' tgt (edit ++ "M")
  | _, _ => (edit, src, tgt)
  end.

(** In the third branch [tgt_chars] has one character, so [tgt_chars[0]]
    is read as [tgt_chars[:1]]. *)
Definition get_edits (src_chars tgt_chars : string) : res string :=
  if tgt_chars =? "" then
    Ok (repeat_str "D" (String.length src_chars))
  else if contains tgt_chars src_chars then
    Ok (join (map (fun c => if negb (char_in c tgt_chars) then "D" else "K")
                  (chars src_chars)))
  else if (String.length (strip src_chars) =? 1)%nat
          && (String.length tgt_chars =? 1)%nat then
    Ok (join (map (fun c => if Ascii.eqb c " " then "M"
                            else "R_[" ++ take 1 tgt_chars ++ "]")
                  (chars src_chars)))
  else
    let '(edit, src_rest, tgt_rest) := replace_scan src_chars tgt_chars "" in
    _ <- assert (tgt_rest =? "") ;;
    if negb (src_rest =? "")
    then Ok (edit ++ repeat_str "D" (String.length src_rest))
    else Ok edit.

Definition is_merge (aligned_src_chars aligned_tgt_chars : list string) : bool :=
  join (filter (fun c => negb (c =? " ")) aligned_src_chars)
  =? join aligned_tgt_chars.

Module Edit.

Record t : Type := mk { word : string; edit : string }.

Definition _replacments (src_chars tgt_chars : string) : res string :=
  if (String.length tgt_chars =? 1)%nat then
    Ok ("R_[" ++ tgt_chars ++ "]")
  else if (String.length src_chars =? String.length tgt_chars)%nat then
    edits <- sequence
      (map (fun i =>
              s <- getitem src_chars i ;;
              t <- getitem tgt_chars i ;;
              if Ascii.eqb s " "
              then Ok ("M" ++ "I_[" ++ str t ++ "]")
              else Ok ("R_[" ++ str t ++ "]"))
           (range (String.length src_chars))) ;;
    Ok (join edits)
  else
    replacements <- sequence
      (map (fun i => t <- getitem tgt_chars i ;; Ok ("R_[" ++ str t ++ "]"))
           (range (String.length src_chars))) ;;
    let insertions :=
      map (fun t_char => "I_[" ++ str t_char ++ "]")
          (chars (drop (String.length src_chars) tgt_chars)) in
    Ok (join replacements ++ join insertions).

(** The body of the loop of [_generate_detailed_edit]. *)
Definition detailed_group (src_chars tgt_chars : string) : res string :=
  if src_chars =? tgt_chars then
    Ok (if src_chars =? " " then "S"
        else repeat_str "K" (String.length src_chars))
  else if (src_chars =? " ") && (tgt_chars =? "") then
    Ok "M"
  else if (src_chars =? " ") && negb (tgt_chars =? "") then
    Ok ("MI_[" ++ tgt_chars ++ "]")
  else if negb (src_chars =? "") && (tgt_chars =? "") then
    Ok (join (map (fun c => if negb (Ascii.eqb c " ") then "D" else "M")
                  (chars src_chars)))
  else if (src_chars =? "") && negb (tgt_chars =? "") then
    Ok ("I_[" ++ tgt_chars ++ "]")
  else if (String.length tgt_chars <? String.length src_chars)%nat then
    get_edits src_chars tgt_chars
  else
    _replacments src_chars tgt_chars.

Definition _generate_detailed_edit (aligned_src_chars aligned_tgt_chars : list string)
  : res string :=
  edit <- sequence (map (fun '(s, t) => detailed_group s t)
                        (combine aligned_src_chars aligned_tgt_chars)) ;;
  Ok (join edit).

Definition create (aligned_src_chars aligned_tgt_chars : list string) : res t :=
  let aligned_src_word := join aligned_src_chars in
  if list_eqb aligned_src_chars aligned_tgt_chars then
    Ok (mk aligned_src_word "K")
  else if list_eqb aligned_src_chars [""]
          && negb (list_eqb aligned_tgt_chars [""]) then
    Ok (mk aligned_src_word ("I_[" ++ join aligned_tgt_chars ++ "]"))
  else if negb (list_eqb aligned_src_chars [""])
          && list_eqb aligned_tgt_chars [""] then
    Ok (mk aligned_src_word "D")
  else if is_merge aligned_src_chars aligned_tgt_chars then
    Ok (mk aligned_src_word
          (join (map (fun c => if negb (c =? " ") then "K" else "M")
                     aligned_src_chars)))
  else
    edit <- _generate_detailed_edit aligned_src_chars aligned_tgt_chars ;;
    Ok (mk aligned_src_word edit).

End Edit.

(** ** The applier and the validator *)

Module SubwordEdit.

Record t : Type := mk { subword : string; raw_subword : string; edit : string }.

Definition is_insert_or_append (x : string) : bool :=
  startswith "I" x || startswith "A" x.

Definition _apply_keep_star (subword : string) (char_edits : list string)
    (edit_idx : nat) : string :=
  let remaining_edits := skipn edit_idx char_edits in
  let inserts := filter is_insert_or_append remaining_edits in
  if (List.length inserts =? List.length remaining_edits)%nat then
    subword
  else
    drop_last (List.length remaining_edits - List.length inserts) subword.

Definition _apply_delete_star (subword : string) (char_edits : list string)
    (edit_idx : nat) : nat :=
  let remaining_edits := skipn edit_idx char_edits in
  let inserts_replaces := filter is_insert_or_append remaining_edits in
  if (List.length inserts_replaces =? List.length remaining_edits)%nat then
    String.length subword
  else
    String.length
      (drop_last (List.length remaining_edits - List.length inserts_replaces)
                 subword).

(** One turn of the loop of [_apply_char_edits] on the [i]-th token; the
    state is [(edited_subword, idx)]. *)
Definition char_edit_step (subword : string) (char_edits : list string)
    (st : string * nat) (i : nat) (char_edit : string) : res (string * nat) :=
  let '(edited_subword, idx) := st in
  if char_edit =? "K" then
    c <- getitem subword idx ;;
    Ok (edited_subword ++ str c, idx + 1)
  else if char_edit =? "D" then
    Ok (edited_subword, idx + 1)
  else if startswith "I" char_edit then
    Ok (edited_subword ++ Re.sub_payload "I" char_edit, idx)
  else if startswith "A" char_edit then
    Ok (edited_subword
          ++ (if negb (i =? 0)%nat then " " ++ Re.sub_payload "A" char_edit
              else Re.sub_payload "A" char_edit ++ " "),
        idx)
  else if char_edit =? "K*" then
    let chars_to_keep := _apply_keep_star (drop idx subword) char_edits (i + 1) in
    Ok (edited_subword ++ chars_to_keep, idx + String.length chars_to_keep)
  else if char_edit =? "D*" then
    Ok (edited_subword,
        idx + _apply_delete_star (drop idx subword) char_edits (i + 1))
  else if startswith "R" char_edit then
    Ok (edited_subword ++ Re.sub_payload "R" char_edit, idx + 1)
  else
    Ok st.

Fixpoint char_edits_loop (subword : string) (char_edits : list string)
    (todo : list (nat * string)) (st : string * nat) : res (string * nat) :=
  match todo with
  | [] => Ok st
  | (i, char_edit) :: todo' =>
      st' <- char_edit_step subword char_edits st i char_edit ;;
      char_edits_loop subword char_edits todo' st'
  end.

Definition _apply_char_edits (subword : string) (char_edits : list string)
  : res string :=
  '(edited_subword, _) <-
     char_edits_loop subword char_edits (enumerate char_edits) ("", 0) ;;
  Ok edited_subword.

Definition _apply_append (self : t) (subword : string) (keep : bool) : string :=
  let ops := Re.findall Re.append_re (edit self) in
  let inserts := map (Re.sub_payload "A") ops in
  if keep then subword ++ " " ++ join_with " " inserts else join inserts.

Definition apply (self : t) (subword : string) : res string :=
  if edit self =? "K" then Ok subword
  else if startswith "KA" (edit self) then Ok (_apply_append self subword true)
  else if startswith "DA" (edit self) then Ok (_apply_append self subword false)
  else
    let _subword := remove_marker subword in
    let char_edits := Re.findall Re.char_edit_re (edit self) in
    edited_subword <- _apply_char_edits _subword char_edits ;;
    Ok (if contains "##" subword then "##" ++ edited_subword
        else edited_subword).

Definition consumes_nothing (e : string) : bool :=
  startswith "A" e || startswith "M" e || startswith "I" e.

Definition is_one_of (e : string) (l : list string) : bool :=
  existsb (String.eqb e) l.

(** The loop of [is_applicable] over the enumerated tokens that are left
    after the filter; [n] is their number; a [break] ends the recursion. *)
Fixpoint applicable_loop (_subword : string) (n : nat)
    (todo : list (nat * string)) (idx : nat) : nat :=
  match todo with
  | [] => idx
  | (i, e) :: todo' =>
      if startswith "R" e || is_one_of e ["K"; "D"] then
        applicable_loop _subword n todo' (idx + 1)
      else if is_one_of e ["K*"; "D*"] then
        if (i =? n - 1)%nat then
          idx + String.length (drop idx _subword)
        else
          applicable_loop _subword n todo'
            (String.length (drop_last (n - (i + 1)) _subword))
      else
        applicable_loop _subword n todo' idx
  end.

(** The body of [is_applicable] once the piece is stripped of its marker
    and the tag is split into [char_edits]. *)
Definition applicable_tokens (edit _subword : string) (char_edits : list string)
  : bool :=
  let char_edits_wo_append_merge :=
    filter (fun e => negb (consumes_nothing e)) char_edits in
  if (edit =? "K") || startswith "KA" edit then true
  else if (String.length _subword <? List.length char_edits_wo_append_merge)%nat
  then false
  else
    let idx := applicable_loop _subword (List.length char_edits_wo_append_merge)
                 (enumerate char_edits_wo_append_merge) 0 in
    if (idx <? String.length _subword)%nat then false else true.

Definition is_applicable (self : t) (subword : string) : bool :=
  let _subword := remove_marker subword in
  let char_edits := Re.findall Re.char_edit_re (edit self) in
  applicable_tokens (edit self) _subword char_edits.

End SubwordEdit.

(** ** The projector *)

Module SubwordEdits.

Record t : Type := mk { subwords : list string; edits : list SubwordEdit.t }.

(** The variables of [_project_edit] that live across pieces. *)
Record cursor : Type := mkCursor {
  idx : nat;
  subword_edits : list string;
  inserts : list string;
  replaces : list string
}.

(** [l[-1] += x] *)
Fixpoint append_to_last (l : list string) (x : string) : res (list string) :=
  match l with
  | [] => Raise IndexError
  | [a] => Ok [a ++ x]
  | a :: l' => r <- append_to_last l' x ;; Ok (a :: r)
  end.

(** [l.pop(0)] *)
Definition pop0 (l : list string) : res (string * list string) :=
  match l with
  | [] => Raise IndexError
  | op :: l' => Ok (op, l')
  end.

(** One turn of the [while subword_len > 0] loop; the state is
    [(subword_len, subword_edit, cursor)]. *)
Definition piece_step (edit : string) (subword_len : nat) (subword_edit : string)
    (cu : cursor) : res (nat * string * cursor) :=
  if (String.length edit <=? idx cu)%nat then Raise Breakpoint
  else
    c <- getitem edit (idx cu) ;;
    if Ascii.eqb c "S" then
      se <- append_to_last (subword_edits cu) subword_edit ;;
      Ok (subword_len, "",
          mkCursor (idx cu + 1) se (inserts cu) (replaces cu))
    else if Ascii.eqb c "I" then
      '(op, rest) <- pop0 (inserts cu) ;;
      Ok (subword_len, subword_edit ++ op,
          mkCursor (idx cu + String.length op) (subword_edits cu) rest
                   (replaces cu))
    else if Ascii.eqb c "R" then
      '(op, rest) <- pop0 (replaces cu) ;;
      Ok (subword_len - 1, subword_edit ++ op,
          mkCursor (idx cu + String.length op) (subword_edits cu)
                   (inserts cu) rest)
    else if Ascii.eqb c "M" then
      se <- (if negb (String.length subword_edit =? 0)%nat
             then append_to_last (subword_edits cu) subword_edit
             else Ok (subword_edits cu)) ;;
      Ok (subword_len, str c,
          mkCursor (idx cu + 1) se (inserts cu) (replaces cu))
    else
      if negb (Ascii.eqb c "K" || Ascii.eqb c "D") then Raise Breakpoint
      else
        Ok (subword_len - 1, subword_edit ++ str c,
            mkCursor (idx cu + 1) (subword_edits cu) (inserts cu)
                     (replaces cu)).

(** A bound on the turns the [while] loop can still take: a turn that
    does not raise moves [idx] forward without passing a turn at
    [idx >= len(edit)], or takes an operation from [inserts] or
    [replaces] ([piece_step_progress] below). *)
Definition turns_left (edit : string) (cu : cursor) : nat :=
  (String.length edit - idx cu)
  + List.length (inserts cu) + List.length (replaces cu).

(** The [while subword_len > 0] loop for one piece, run for at most [fuel]
    turns; with more than [turns_left] turns of fuel the result does not
    depend on the fuel ([piece_loop_fuel] below). *)
Fixpoint piece_loop (fuel : nat) (edit : string) (subword_len : nat)
    (subword_edit : string) (cu : cursor) : res (string * cursor) :=
  if (subword_len =? 0)%nat then Ok (subword_edit, cu)
  else
    match fuel with
    | O => Raise Breakpoint
    | S fuel' =>
        '(subword_len', subword_edit', cu') <-
           piece_step edit subword_len subword_edit cu ;;
        piece_loop fuel' edit subword_len' subword_edit' cu'
    end.

(** The [for subword in subwords] loop. *)
Fixpoint pieces_loop (edit : string) (subwords : list string) (cu : cursor)
  : res cursor :=
  match subwords with
  | [] => Ok cu
  | subword :: rest =>
      let subword_len := String.length (remove_marker subword) in
      '(subword_edit, cu') <-
         piece_loop (S (turns_left edit cu)) edit subword_len "" cu ;;
      pieces_loop edit rest
        (mkCursor (idx cu') (subword_edits cu' ++ [subword_edit])%list
                  (inserts cu') (replaces cu'))
  end.

(** [_project_edit] up to its two assertions: the per-piece tags before
    they are compressed. *)
Definition project_tags (subwords : list string) (edit : string)
  : res (list string) :=
  let edit_ops := Re.findall Re.project_re edit in
  let inserts := filter (startswith "I_[") edit_ops in
  let replaces := filter (startswith "R_[") edit_ops in
  cu <- pieces_loop edit subwords (mkCursor 0 [] inserts replaces) ;;
  if (idx cu <? String.length edit)%nat
  then append_to_last (subword_edits cu) (drop (idx cu) edit)
  else Ok (subword_edits cu).

Fixpoint zip3 (a b c : list string) : list (string * string * string) :=
  match a, b, c with
  | x :: a', y :: b', z :: c' => (x, y, z) :: zip3 a' b' c'
  | _, _, _ => []
  end.

Definition _project_edit (subwords raw_subwords : list string) (edit : string)
  : res (list SubwordEdit.t) :=
  subword_edits <- project_tags subwords edit ;;
  _ <- assert (join subword_edits =? Re.sub_soft_keep edit) ;;
  _ <- assert ((List.length subword_edits =? List.length subwords)%nat
               && (List.length subwords =? List.length raw_subwords)%nat) ;;
  Ok (map (fun '(subword, raw_subword, edit) =>
             SubwordEdit.mk subword raw_subword (compress_edit edit))
          (zip3 subwords raw_subwords subword_edits)).

(** The tokenizer collaborator: [tokenize(word)] returns the raw and the
    normalized pieces, one list per word. *)
Definition tokenizer : Type := string -> list (list string) * list (list string).

(** The raw and the normalized pieces of the word. *)
Definition pieces (aligned_src_word : string) (tok : option tokenizer)
  : list string * list string :=
  match tok with
  | Some tokenize =>
      let '(raw_subwords, subwords) := tokenize aligned_src_word in
      (List.concat raw_subwords, List.concat subwords)
  | None =>
      let subwords := split aligned_src_word in
      (subwords, subwords)
  end.

Definition create (aligned_src_word edit : string) (tok : option tokenizer)
  : res t :=
  let '(raw_subwords, subwords) := pieces aligned_src_word tok in
  _ <- assert (List.length subwords =? List.length raw_subwords)%nat ;;
  if (List.length subwords =? 0)%nat && startswith "I" edit then
    Ok (mk subwords [SubwordEdit.mk "" "" (compress_edit edit)])
  else if edit =? "K" then
    Ok (mk subwords
          (map (fun '(subword, raw_subword) =>
                  SubwordEdit.mk subword raw_subword "K")
               (combine subwords raw_subwords)))
  else
    subword_edits <- _project_edit subwords raw_subwords edit ;;
    let subwords := filter (fun wp => negb (wp =? " ")) subwords in
    _ <- assert (List.length subwords =? List.length subword_edits)%nat ;;
    Ok (mk subwords subword_edits).

End SubwordEdits.

(** ** Notions used to state the properties *)

(** The number of characters of [s] other than the space. *)
Fixpoint nonspace_count (s : string) : nat :=
  match s with
  | "" => 0
  | String c s' => (if Ascii.eqb c " " then 0 else 1) + nonspace_count s'
  end.

(** The part of [get_edits] that comes after its first three branches are
    ruled out. *)
Definition in_fallback (src_chars tgt_chars : string) : bool :=
  negb (tgt_chars =? "")
  && negb (contains tgt_chars src_chars)
  && negb ((String.length (strip src_chars) =? 1)%nat
           && (String.length tgt_chars =? 1)%nat).

(** The tag grammar of the specification: a tag is the concatenation of
    the texts of a list of operations. *)
Module Tag.

Inductive op : Type :=
| Keep                      (* K *)
| Delete                    (* D *)
| SoftKeep                  (* S *)
| Merge                     (* M *)
| KeepRun                   (* K* *)
| DeleteRun                 (* D* *)
| Insert (text : string)    (* I_[text] *)
| Replace (text : string)   (* R_[text] *)
| Append (text : string).   (* A_[text] *)

Definition render_op (o : op) : string :=
  match o with
  | Keep => "K"
  | Delete => "D"
  | SoftKeep => "S"
  | Merge => "M"
  | KeepRun => "K*"
  | DeleteRun => "D*"
  | Insert text => "I_[" ++ text ++ "]"
  | Replace text => "R_[" ++ text ++ "]"
  | Append text => "A_[" ++ text ++ "]"
  end.

Definition render (ops : list op) : string := join (map render_op ops).

(** A literal text that the patterns read back as it was written. *)
Definition plain_text (text : string) : bool :=
  negb (char_in "]" text) && negb (char_in newline text).

Definition plain_op (o : op) : bool :=
  match o with
  | Insert text | Replace text | Append text => plain_text text
  | _ => true
  end.

Definition well_formed (ops : list op) : bool := forallb plain_op ops.

(** The stricter form needed when the tag is applied: no bracket of
    either kind in a text and no empty insertion. *)
Definition strict_op (o : op) : bool :=
  match o with
  | Insert text => plain_text text && negb (char_in "[" text) && negb (text =? "")
  | Replace text | Append text => plain_text text && negb (char_in "[" text)
  | _ => true
  end.

Definition strict (ops : list op) : bool := forallb strict_op ops.

Definition flush (insertions : string) : list op :=
  if insertions =? "" then [] else [Insert insertions].

(** Consecutive insertions merged into one, on operations. *)
Fixpoint squash_from (insertions : string) (ops : list op) : list op :=
  match ops with
  | [] => flush insertions
  | Insert text :: rest => squash_from (insertions ++ text) rest
  | o :: rest => (flush insertions ++ o :: squash_from "" rest)%list
  end.

Definition squash (ops : list op) : list op := squash_from "" ops.

Definition starts_with_char (c : ascii) (s : string) : bool :=
  Re.is_char c (Re.head s).

(** What follows the text of an operation in a tag never begins with a
    closing bracket or a star. *)
Definition clean_head (r : string) : Prop :=
  starts_with_char "]" r = false /\ starts_with_char "*" r = false.

(** *** How the applier reads operations *)

(** The operations that [K*] and [D*] count among the tokens after them:
    every one that is not an insertion or an append. *)
Definition fixed_width (o : op) : bool :=
  match o with
  | Insert _ | Append _ => false
  | _ => true
  end.

Definition fixed_count (ops : list op) : nat :=
  List.length (filter fixed_width ops).

(** The run of [K*] and [D*] over the unread characters, given the
    operations that follow. *)
Definition run_extent (unread : string) (rest : list op) : string :=
  if (fixed_count rest =? 0)%nat then unread
  else take (String.length unread - fixed_count rest) unread.

(** One operation applied to the state [(edited, idx)] of the applier;
    [first] tells that the operation is the first of the tag and [rest]
    are the operations after it. *)
Definition op_step (subword : string) (first : bool) (o : op) (rest : list op)
    (st : string * nat) : res (string * nat) :=
  let '(edited, idx) := st in
  match o with
  | Keep => c <- getitem subword idx ;; Ok (edited ++ str c, idx + 1)
  | Delete => Ok (edited, idx + 1)
  | SoftKeep | Merge => Ok st
  | KeepRun =>
      let run := run_extent (drop idx subword) rest in
      Ok (edited ++ run, idx + String.length run)
  | DeleteRun =>
      Ok (edited, idx + String.length (run_extent (drop idx subword) rest))
  | Insert text => Ok (edited ++ text, idx)
  | Replace text => Ok (edited ++ text, idx + 1)
  | Append text =>
      Ok (edited ++ (if first then text ++ " " else " " ++ text), idx)
  end.

Fixpoint run_ops (subword : string) (first : bool) (ops : list op)
    (st : string * nat) : res (string * nat) :=
  match ops with
  | [] => Ok st
  | o :: rest =>
      st' <- op_step subword first o rest st ;;
      run_ops subword false rest st'
  end.

Definition is_append (o : op) : bool :=
  match o with
  | Append _ => true
  | _ => false
  end.

(** [produces ops src tgt]: read against [src], the operations use up all
    of it and write [tgt]. *)
Inductive produces : list op -> string -> string -> Prop :=
| produces_nil : produces [] "" ""
| produces_keep c ops src tgt :
    produces ops src tgt ->
    produces (Keep :: ops) (String c src) (String c tgt)
| produces_delete c ops src tgt :
    produces ops src tgt ->
    produces (Delete :: ops) (String c src) tgt
| produces_insert text ops src tgt :
    produces ops src tgt ->
    produces (Insert text :: ops) src (text ++ tgt)
| produces_replace c text ops src tgt :
    produces ops src tgt ->
    produces (Replace text :: ops) (String c src) (text ++ tgt).

(** The source characters an operation stands for in a word tag. *)
Definition op_width (o : op) : nat :=
  match o with
  | Keep | Delete | SoftKeep | Merge | Replace _ => 1
  | KeepRun | DeleteRun | Insert _ | Append _ => 0
  end.

Definition width (ops : list op) : nat := list_sum (map op_width ops).

(** *** The encoder on operations

    The functions of the encoder with the tag kept as a list of
    operations; [Edit] returns the text of these lists
    ([generate_detailed_edit_render] below). *)

Fixpoint scan_ops (src tgt : string) : list op * string * string :=
  match src, tgt with
  | String c src', String t tgt' =>
      if negb (Ascii.eqb c " ")
      then let '(ops, sr, tr) := scan_ops src' tgt' in
           (Replace (str t) :: ops, sr, tr)
      else let '(ops, sr, tr) := scan_ops src' tgt in
           (Merge :: ops, sr, tr)
  | _, _ => ([], src, tgt)
  end.

Definition get_edits_ops (src_chars tgt_chars : string) : res (list op) :=
  if tgt_chars =? "" then
    Ok (repeat Delete (String.length src_chars))
  else if contains tgt_chars src_chars then
    Ok (map (fun c => if negb (char_in c tgt_chars) then Delete else Keep)
            (chars src_chars))
  else if (String.length (strip src_chars) =? 1)%nat
          && (String.length tgt_chars =? 1)%nat then
    Ok (map (fun c => if Ascii.eqb c " " then Merge
                      else Replace (take 1 tgt_chars))
            (chars src_chars))
  else
    let '(ops, src_rest, tgt_rest) := scan_ops src_chars tgt_chars in
    _ <- assert (tgt_rest =? "") ;;
    Ok (ops ++ repeat Delete (String.length src_rest))%list.

Definition replacments_ops (src_chars tgt_chars : string) : res (list op) :=
  if (String.length tgt_chars =? 1)%nat then
    Ok [Replace tgt_chars]
  else if (String.length src_chars =? String.length tgt_chars)%nat then
    Ok (flat_map (fun '(s, t) => if Ascii.eqb s " "
                                 then [Merge; Insert (str t)]
                                 else [Replace (str t)])
                 (combine (chars src_chars) (chars tgt_chars)))
  else if (String.length tgt_chars <? String.length src_chars)%nat then
    Raise IndexError
  else
    Ok (map (fun t => Replace (str t))
            (chars (take (String.length src_chars) tgt_chars))
        ++ map (fun t => Insert (str t))
               (chars (drop (String.length src_chars) tgt_chars)))%list.

Definition group_ops (src_chars tgt_chars : string) : res (list op) :=
  if src_chars =? tgt_chars then
    Ok (if src_chars =? " " then [SoftKeep]
        else repeat Keep (String.length src_chars))
  else if (src_chars =? " ") && (tgt_chars =? "") then
    Ok [Merge]
  else if (src_chars =? " ") && negb (tgt_chars =? "") then
    Ok [Merge; Insert tgt_chars]
  else if negb (src_chars =? "") && (tgt_chars =? "") then
    Ok (map (fun c => if negb (Ascii.eqb c " ") then Delete else Merge)
            (chars src_chars))
  else if (src_chars =? "") && negb (tgt_chars =? "") then
    Ok [Insert tgt_chars]
  else if (String.length tgt_chars <? String.length src_chars)%nat then
    get_edits_ops src_chars tgt_chars
  else
    replacments_ops src_chars tgt_chars.

Definition detailed_ops (aligned_src_chars aligned_tgt_chars : list string)
  : res (list op) :=
  groups <- sequence (map (fun '(s, t) => group_ops s t)
                          (combine aligned_src_chars aligned_tgt_chars)) ;;
  Ok (List.concat groups).

(** *** Notions for the further properties *)

Definition append_text (o : op) : string :=
  match o with
  | Append text => text
  | _ => ""
  end.

(** No empty insertion and no two insertions side by side. *)
Fixpoint canonical (ops : list op) : bool :=
  match ops with
  | [] => true
  | Insert text :: rest =>
      negb (text =? "")
      && match rest with
         | Insert _ :: _ => false
         | _ => true
         end
      && canonical rest
  | _ :: rest => canonical rest
  end.

(** The operations the encoder writes. *)
Definition encoder_op (o : op) : bool :=
  match o with
  | KeepRun | DeleteRun | Append _ => false
  | _ => true
  end.

End Tag.

(** [compress_edit] started with a pending insertion text. *)
Definition compress_from (insertions edit : string) : string :=
  join (compress_insertions_from insertions (Re.findall Re.compress_re edit)).

(** *** Consumption of source characters by a tag *)




(** [apply] for a tag and a piece that stand alone. *)
Definition apply_tag (tag piece : string) : res string :=
  SubwordEdit.apply (SubwordEdit.mk piece piece tag) piece.

(** *** The domain of the round trip *)

(** A source group without blank characters. *)
Definition clean_source (s : string) : bool :=
  forallb (fun c => negb (isspace c)) (chars s).

(** The target group is non-empty, differs from the source group and
    occurs inside it: the pair that [get_edits] classifies character by
    character. *)
Definition shrinks_inside (src tgt : string) : bool :=
  negb (tgt =? "") && negb (src =? tgt) && contains tgt src.

Definition roundtrip_domain (aligned_src_chars aligned_tgt_chars : list string)
  : bool :=
  forallb clean_source aligned_src_chars
  && forallb Tag.plain_text aligned_tgt_chars
  && negb (contains "##" (join aligned_src_chars))
  && negb (is_merge aligned_src_chars aligned_tgt_chars)
  && forallb (fun '(s, t) => negb (shrinks_inside s t))
             (combine aligned_src_chars aligned_tgt_chars).

(** The operations whose tokens [is_applicable] counts one by one. *)
Definition counted_op (o : Tag.op) : bool :=
  match o with
  | Tag.Keep | Tag.Delete | Tag.Replace _ => true
  | _ => false
  end.

(** Tags without run operators and soft keeps. *)
Definition fixed_op (o : Tag.op) : bool :=
  match o with
  | Tag.KeepRun | Tag.DeleteRun | Tag.SoftKeep => false
  | _ => true
  end.

(** *** Notions for the projector *)

(** The operations that read one character of the piece or write into
    the result: keep, delete, insertion and replacement. *)
Definition simple_op (o : Tag.op) : bool :=
  match o with
  | Tag.Keep | Tag.Delete | Tag.Insert _ | Tag.Replace _ => true
  | _ => false
  end.

Definition is_insert (o : Tag.op) : bool :=
  match o with
  | Tag.Insert _ => true
  | _ => false
  end.

Definition is_replace (o : Tag.op) : bool :=
  match o with
  | Tag.Replace _ => true
  | _ => false
  end.

(** The length the projector gives a piece: [len(subword.replace('##',''))]. *)
Definition piece_length (subword : string) : nat :=
  String.length (remove_marker subword).

(** The marker that [apply] puts back in front of the edited piece. *)
Definition marker (subword : string) : string :=
  if contains "##" subword then "##" else "".

(** A piece that holds the marker at its head or not at all. *)
Definition well_marked (subword : string) : bool :=
  subword =? marker subword ++ remove_marker subword.

(** The variables of the projector when the operations [done] of the tag
    are behind the cursor, [todo] are ahead of it and [tags] are the
    per-piece tags written so far. *)
Definition cursor_at (done todo : list Tag.op) (tags : list string)
  : SubwordEdits.cursor :=
  SubwordEdits.mkCursor (String.length (Tag.render done)) tags
    (map Tag.render_op (filter is_insert todo))
    (map Tag.render_op (filter is_replace todo)).

(** The operations up to the [n]-th one that reads a character, and the
    operations after them. *)
Fixpoint take_piece (n : nat) (ops : list Tag.op)
  : list Tag.op * list Tag.op :=
  match ops with
  | [] => ([], [])
  | o :: rest =>
      if (n =? 0)%nat then ([], ops)
      else let (part, left) := take_piece (n - Tag.op_width o) rest in
           (o :: part, left)
  end.

(** One such block of operations per length, and the operations left. *)
Fixpoint split_pieces (lengths : list nat) (ops : list Tag.op)
  : list (list Tag.op) * list Tag.op :=
  match lengths with
  | [] => ([], ops)
  | n :: lengths' =>
      let (part, left) := take_piece n ops in
      let (parts, rest) := split_pieces lengths' left in
      (part :: parts, rest)
  end.

(** [l] with [x] added at the end of its last element. *)
Fixpoint extend_last {A} (l : list (list A)) (x : list A) : list (list A) :=
  match l with
  | [] => []
  | [a] => [(a ++ x)%list]
  | a :: l' => a :: extend_last l' x
  end.


(** *** Tokens that read a character *)

(** The tokens for which both the applier and the validator move the
    cursor by one: K, D and the replacements. *)
Definition reads_one (tok : string) : bool :=
  startswith "R" tok || SubwordEdit.is_one_of tok ["K"; "D"].

(** The number of such tokens. *)
Definition reads (char_edits : list string) : nat :=
  List.length (filter reads_one char_edits).

(** The run operators. *)
Definition is_run (e : string) : bool :=
  SubwordEdit.is_one_of e ["K*"; "D*"].

(** The tokens after the last run operator, if there is one. *)
Fixpoint after_last_run (char_edits : list string) : option (list string) :=
  match char_edits with
  | [] => None
  | e :: rest =>
      match after_last_run rest with
      | Some post => Some post
      | None => if is_run e then Some rest else None
      end
  end.


(** *** Pieces separated by a space of the source *)

(** The operations the encoder writes for a space of the source: the
    merge and the soft keep. *)
Definition is_separator (o : Tag.op) : bool :=
  match o with
  | Tag.Merge | Tag.SoftKeep => true
  | _ => false
  end.

(** What a separator leaves at the head of the tag of the piece that
    follows it: the merge itself, nothing of the soft keep. *)
Definition opener (sep : Tag.op) : list Tag.op :=
  match sep with
  | Tag.Merge => [Tag.Merge]
  | _ => []
  end.

(** An operation whose text holds no character S. *)
Definition soft_free (o : Tag.op) : bool :=
  match o with
  | Tag.Insert text | Tag.Replace text | Tag.Append text =>
      negb (char_in "S" text)
  | _ => true
  end.

(** The operations of a word whose pieces are separated: the operations
    of the first piece, then for each later piece a separator and the
    operations of the piece. *)
Definition separated (body : list Tag.op)
    (blocks : list (Tag.op * list Tag.op)) : list Tag.op :=
  (body ++ flat_map (fun '(sep, b) => sep :: b) blocks)%list.

(** The operations that each piece is to get. *)
Definition separated_tags (body : list Tag.op)
    (blocks : list (Tag.op * list Tag.op)) : list (list Tag.op) :=
  body :: map (fun '(sep, b) => (opener sep ++ b)%list) blocks.

(** The block of a piece fits it: simple operations that read as many
    characters as the piece has, at least one. *)
Definition body_fits (w : string) (b : list Tag.op) : bool :=
  forallb simple_op b && (Tag.width b =? piece_length w)%nat
  && (0 <? piece_length w)%nat.

Definition block_fits (w : string) (blk : Tag.op * list Tag.op) : bool :=
  is_separator (fst blk) && body_fits w (snd blk).


(** *** Merges at application time *)

(** The run operators among the operations. *)
Definition is_run_op (o : Tag.op) : bool :=
  match o with
  | Tag.KeepRun | Tag.DeleteRun => true
  | _ => false
  end.

(** The tags that [apply] does not read token by token: K and the tags
    that begin with KA or DA. *)
Definition whole_piece_tag (tag : string) : bool :=
  (tag =? "K") || startswith "KA" tag || startswith "DA" tag.

(** A merge that is the first operation of the tag, with an append right
    after it. *)
Definition merge_leads_append (pre post : list Tag.op) : bool :=
  match pre, post with
  | [], Tag.Append _ :: _ => true
  | _, _ => false
  end.

(** ** The edit-distance gate of [postprocess.py]

    Sentences are kept as lists of code points here, since the digit table
    and the punctuation set lie outside the first 256. *)

Module Postprocess.

Definition ustr : Type := list N.

Definition mem (c : N) (l : list N) : bool := existsb (N.eqb c) l.

(** [string.punctuation] *)
Definition string_punctuation : ustr :=
  [33; 34; 35; 36; 37; 38; 39; 40; 41; 42; 43; 44; 45; 46; 47;
   58; 59; 60; 61; 62; 63; 64; 91; 92; 93; 94; 95; 96;
   123; 124; 125; 126]%N.

(** ['&amp;'] *)
Definition amp_entity : ustr := [38; 97; 109; 112; 59]%N.

(** [DIGIT_MAPPER.get(c, c)]: the Arabic-Indic digits go to ['0'..'9']. *)
Definition DIGIT_MAPPER_get (c : N) : N :=
  if ((1632 <=? c) && (c <=? 1641))%N then (c - 1632 + 48)%N else c.

(** [str.isspace] *)
Definition isspace (c : N) : bool :=
  (((9 <=? c) && (c <=? 13)) || ((28 <=? c) && (c <=? 32))
   || mem c [133; 160; 5760; 8232; 8233; 8239; 8287; 12288]
   || ((8192 <=? c) && (c <=? 8202)))%N.

Fixpoint lstrip (s : ustr) : ustr :=
  match s with
  | [] => []
  | c :: s' => if isspace c then lstrip s' else s
  end.

Definition strip (s : ustr) : ustr := rev (lstrip (rev (lstrip s))).

(** [space_re.sub(' ', line)]: every block of spaces becomes one space;
    [in_block] tells that the previous character was a space. *)
Fixpoint squeeze_spaces (in_block : bool) (s : ustr) : ustr :=
  match s with
  | [] => []
  | c :: s' =>
      if (c =? 32)%N
      then (if in_block then squeeze_spaces true s'
            else 32%N :: squeeze_spaces true s')
      else c :: squeeze_spaces false s'
  end.

(** A Levenshtein distance, the function [editdistance.distance] is
    documented to compute; used to run the gate on concrete sentences. *)
Fixpoint levenshtein (a : ustr) : ustr -> nat :=
  match a with
  | [] => fun b => List.length b
  | x :: a' =>
      fix inner (b : ustr) : nat :=
        match b with
        | [] => S (List.length a')
        | y :: b' =>
            if (x =? y)%N then levenshtein a' b'
            else S (Nat.min (levenshtein a' b')
                            (Nat.min (levenshtein a' b) (inner b')))
        end
  end.

(** The class [\d] restricted to ['0'..'9']. *)
Definition ascii_digit (c : N) : bool := ((48 <=? c) && (c <=? 57))%N.

Section Gate.

(** The parts that come from outside the repository. *)
Variable UNICODE_PUNCT_SYMBOL_CHARSET : ustr.  (* camel_tools.utils.charsets *)
Variable is_digit : N -> bool.                 (* the class [\d] *)
Variable distance : ustr -> ustr -> nat.       (* editdistance.distance *)

Definition puncs : ustr :=
  (string_punctuation ++ UNICODE_PUNCT_SYMBOL_CHARSET ++ amp_entity)%list.

Definition norm_digits (string : ustr) : ustr :=
  let s := if existsb is_digit string then map DIGIT_MAPPER_get string
           else [] in
  match s with
  | [] => string
  | _ => s
  end.

(** [pnx_re.sub(r' \1 ', line)] with
    [pnx_re = ([puncs])(?!\d)] *)
Fixpoint pnx_sub (line : ustr) : ustr :=
  match line with
  | [] => []
  | c :: rest =>
      let followed_by_digit :=
        match rest with
        | d :: _ => is_digit d
        | [] => false
        end in
      if mem c puncs && negb followed_by_digit
      then (32 :: c :: 32 :: pnx_sub rest)%N
      else c :: pnx_sub rest
  end.

Definition pnx_tokenize (data : list ustr) : list ustr :=
  map (fun line =>
         let line := strip line in
         let line := pnx_sub line in
         let line := squeeze_spaces false line in
         let line := norm_digits line in
         strip line)
      data.

(** The loop of [postprocess] over [range(len(src_sents))]; both lists
    have the same length when it starts. *)
Fixpoint gate (gamma : Z) (src_sents preds_sents : list ustr) : list ustr :=
  match src_sents, preds_sents with
  | src_sent :: src', pred_sent :: preds' =>
      let dist := distance src_sent pred_sent in
      (if (gamma <=? Z.of_nat dist)%Z then src_sent else pred_sent)
        :: gate gamma src' preds'
  | _, _ => []
  end.

Definition postprocess (src_sents preds_sents : list ustr) (gamma : Z)
  : res (list ustr) :=
  let preds_sents := pnx_tokenize preds_sents in
  _ <- assert (List.length src_sents =? List.length preds_sents)%nat ;;
  Ok (gate gamma src_sents preds_sents).

Definition space_clean (data : list ustr) : list ustr :=
  map (fun line =>
         let line := strip line in
         let line := squeeze_spaces false line in
         strip line)
      data.

(** [pnx_re.sub(r'', line)] with [pnx_re = ([puncs])] removes every
    character of [puncs]. *)
Definition remove_pnx (data : list ustr) : list ustr :=
  map (fun line =>
         let line := strip line in
         let line := filter (fun c => negb (mem c puncs)) line in
         let line := squeeze_spaces false line in
         strip line)
      data.

End Gate.

End Postprocess.

(** *** Notions for the sentences of [postprocess.py] *)

Module Sentence.

(** The code point of the space. *)
Definition space : N := 32%N.

Definition starts_with_space (line : Postprocess.ustr) : bool :=
  match line with
  | c :: _ => (c =? space)%N
  | [] => false
  end.

(** No two spaces side by side. *)
Fixpoint single_spaced (line : Postprocess.ustr) : bool :=
  match line with
  | c :: rest =>
      negb ((c =? space)%N && starts_with_space rest) && single_spaced rest
  | [] => true
  end.

Definition starts_clean (line : Postprocess.ustr) : bool :=
  match line with
  | c :: _ => negb (Postprocess.isspace c)
  | [] => true
  end.

(** Neither the first nor the last character is blank. *)
Definition trimmed (line : Postprocess.ustr) : bool :=
  starts_clean line && starts_clean (rev line).

Definition tidy (line : Postprocess.ustr) : bool :=
  single_spaced line && trimmed line.

Definition not_space (c : N) : bool := negb (c =? space)%N.

End Sentence.


(** * Properties *)

(** ** Strings *)

Lemma append_nil_r (s : string) : s ++ "" = s.
Proof. induction s; simpl; congruence. Qed.

Lemma append_assoc (a b c : string) : (a ++ b) ++ c = a ++ (b ++ c).
Proof. induction a; simpl; congruence. Qed.

Lemma length_append (a b : string) :
  String.length (a ++ b) = String.length a + String.length b.
Proof. induction a; simpl; congruence. Qed.

Lemma append_eq_nil (a b : string) : a ++ b = "" -> a = "" /\ b = "".
Proof. destruct a; simpl; [auto | discriminate]. Qed.

Lemma length_zero (s : string) : String.length s = 0 -> s = "".
Proof. destruct s; simpl; [auto | discriminate]. Qed.

Lemma join_cons (a : string) (l : list string) : join (a :: l) = a ++ join l.
Proof.
  unfold join. destruct l; simpl; [now rewrite append_nil_r | reflexivity].
Qed.

Lemma join_app (l1 l2 : list string) :
  join (l1 ++ l2)%list = join l1 ++ join l2.
Proof.
  induction l1 as [|a l1 IH]; [reflexivity|].
  change ((a :: l1) ++ l2)%list with (a :: (l1 ++ l2))%list.
  now rewrite !join_cons, IH, append_assoc.
Qed.

Lemma startswith_app (p s : string) : startswith p (p ++ s) = true.
Proof. induction p; simpl; [reflexivity | now rewrite Ascii.eqb_refl]. Qed.

Lemma startswith_spec (p s : string) :
  startswith p s = true <-> exists r, s = p ++ r.
Proof.
  split.
  - revert s; induction p as [|a p IH]; intros s H.
    + now exists s.
    + destruct s as [|b s]; simpl in H; [discriminate|].
      apply andb_true_iff in H as [Hab H].
      apply Ascii.eqb_eq in Hab; subst b.
      destruct (IH _ H) as [r ->]. now exists r.
  - intros [r ->]. apply startswith_app.
Qed.

Lemma contains_here (p s : string) : startswith p s = true -> contains p s = true.
Proof. intros H. destruct s; simpl; rewrite H; reflexivity. Qed.

Lemma contains_app (pre p post : string) : contains p (pre ++ p ++ post) = true.
Proof.
  induction pre as [|c pre IH]; simpl.
  - apply contains_here, startswith_app.
  - rewrite IH. apply orb_true_r.
Qed.

Lemma contains_spec (p s : string) :
  contains p s = true <-> exists pre post, s = pre ++ p ++ post.
Proof.
  split.
  - induction s as [|c s IH]; simpl; intros H.
    + rewrite orb_false_r in H. apply startswith_spec in H as [r ->].
      now exists "", r.
    + apply orb_true_iff in H as [H|H].
      * apply startswith_spec in H as [r ->]. now exists "", r.
      * destruct (IH H) as (pre & post & ->). now exists (String c pre), post.
  - intros (pre & post & ->). apply contains_app.
Qed.

(** ** The shrinking-replace procedure *)

Lemma replace_scan_rests (src tgt edit e sr tr : string) :
  replace_scan src tgt edit = (e, sr, tr) ->
  (sr = "" \/ tr = "") /\
  (tr = "" <-> String.length tgt <= nonspace_count src).
Proof.
  revert tgt edit; induction src as [|c src IH]; intros tgt edit H.
  - destruct tgt; simpl in H; inversion H; subst; simpl; split; auto;
      split; intros; simpl in *; try lia; try discriminate; reflexivity.
  - destruct tgt as [|t tgt].
    + simpl in H. inversion H; subst. split; auto.
      split; intros; [simpl; lia | reflexivity].
    + simpl in H. destruct (Ascii.eqb c " ") eqn:Ec; simpl in H.
      * apply IH in H. simpl. rewrite Ec. exact H.
      * apply IH in H as [H1 H2]. split; [exact H1|].
        simpl. rewrite Ec, H2. lia.
Qed.

(** In the fallback of [get_edits] the assertion [j == len(tgt_chars)]
    passes exactly when the source has at least as many characters other
    than the space as the target has characters. *)
Lemma get_edits_fallback (src tgt : string) :
  in_fallback src tgt = true ->
  (String.length tgt <= nonspace_count src -> exists e, get_edits src tgt = Ok e)
  /\ (nonspace_count src < String.length tgt ->
      get_edits src tgt = Raise AssertionError).
Proof.
  unfold in_fallback, get_edits. intros H.
  apply andb_true_iff in H as [H H3]. apply andb_true_iff in H as [H1 H2].
  apply negb_true_iff in H1, H2, H3. rewrite H1, H2, H3.
  destruct (replace_scan src tgt "") as [[e sr] tr] eqn:E.
  apply replace_scan_rests in E as [_ E]. split; intros Hn.
  - assert (tr = "") as -> by (apply E; lia). simpl.
    destruct (negb (sr =? "")); eauto.
  - destruct tr as [|c tr]; [|reflexivity].
    assert (String.length tgt <= nonspace_count src) by (now apply E). lia.
Qed.

(** C4, as amended: in the general fallback of [get_edits] the target
    cursor reaches the end of the target, and the assertion passes, if and
    only if the source holds at least as many characters other than the
    space as the target has characters; with fewer, the assertion fails. *)
Theorem get_edits_fallback_assertion (src tgt : string) :
  in_fallback src tgt = true ->
  ((exists e, get_edits src tgt = Ok e)
   <-> String.length tgt <= nonspace_count src)
  /\ (get_edits src tgt = Raise AssertionError
      <-> nonspace_count src < String.length tgt).
Proof.
  intros H. destruct (get_edits_fallback src tgt H) as [Hok Hfail].
  destruct (le_lt_dec (String.length tgt) (nonspace_count src)) as [Hle|Hlt].
  - destruct (Hok Hle) as [e He]. split; split; intros; eauto; try lia.
    rewrite He in *. discriminate.
  - specialize (Hfail Hlt). split; split; intros Hx; auto; try lia.
    destruct Hx as [e He]. rewrite Hfail in He. discriminate.
Qed.

Lemma get_edits_fallback_assertion_witness :
  in_fallback "ab c" "xy" = true
  /\ (((exists e, get_edits "ab c" "xy" = Ok e)
       <-> String.length "xy" <= nonspace_count "ab c")
      /\ (get_edits "ab c" "xy" = Raise AssertionError
          <-> nonspace_count "ab c" < String.length "xy")).
Proof.
  split; [reflexivity|].
  apply (get_edits_fallback_assertion "ab c" "xy"). reflexivity.
Defined.

(** C4 as stated fails: a source of three characters, two of them spaces,
    is longer than the target ["xy"], reaches the fallback, and stops on
    the assertion. *)
Lemma get_edits_fallback_counterexample :
  String.length "xy" < String.length "a  "
  /\ in_fallback "a  " "xy" = true
  /\ get_edits "a  " "xy" = Raise AssertionError.
Proof. repeat split. simpl. lia. Qed.

(** C5, as amended: when the non-empty target occurs in the source as a
    contiguous block, [get_edits] keeps every source character that occurs
    in the target and deletes every other one. *)
Theorem get_edits_contained (src tgt pre post : string) :
  tgt <> "" ->
  src = pre ++ tgt ++ post ->
  get_edits src tgt
  = Ok (join (map (fun c => if char_in c tgt then "K" else "D") (chars src))).
Proof.
  intros Hne ->. unfold get_edits.
  apply String.eqb_neq in Hne. rewrite Hne, contains_app.
  do 2 f_equal. apply map_ext. intros c. now destruct (char_in c tgt).
Qed.

Lemma get_edits_contained_witness :
  "ab" <> "" /\ "cabd" = "c" ++ "ab" ++ "d"
  /\ get_edits "cabd" "ab" = Ok "DKKD".
Proof.
  split; [discriminate|]. split; [reflexivity|].
  apply (get_edits_contained "cabd" "ab" "c" "d"); [discriminate | reflexivity].
Defined.

(** C5 as stated fails: every character of ["ca"] is present in ["abc"],
    yet the result is not the keep/delete classification ["KDK"]. *)
Lemma get_edits_contained_counterexample :
  "ca" <> ""
  /\ forallb (fun c => char_in c "abc") (chars "ca") = true
  /\ get_edits "abc" "ca" = Ok "R_[c]R_[a]D"
  /\ get_edits "abc" "ca"
     <> Ok (join (map (fun c => if char_in c "ca" then "K" else "D")
                      (chars "abc"))).
Proof. repeat split; discriminate. Qed.

(** ** The run operators *)

Lemma filter_split_length {A} (f : A -> bool) (l : list A) :
  List.length (filter f l) + List.length (filter (fun x => negb (f x)) l)
  = List.length l.
Proof.
  induction l as [|a l IH]; [reflexivity|].
  simpl. destruct (f a); simpl; lia.
Qed.

Lemma filter_all_length {A} (f : A -> bool) (l : list A) :
  (List.length (filter f l) =? List.length l)%nat = forallb f l.
Proof.
  induction l as [|a l IH]; [reflexivity|].
  simpl. destruct (f a); simpl; [exact IH|].
  pose proof (filter_split_length f l).
  apply Nat.eqb_neq. lia.
Qed.

Lemma skipn_past {A} (pre : list A) (x : A) (post : list A) :
  skipn (List.length pre + 1) (pre ++ x :: post)%list = post.
Proof.
  induction pre as [|a pre IH]; [reflexivity|]. exact IH.
Qed.

Lemma drop_last_pos (n : nat) (s : string) :
  0 < n -> drop_last n s = take (String.length s - n) s.
Proof. destruct n; [lia | reflexivity]. Qed.

(** What [_apply_keep_star] returns when it is called for the tokens
    [post] that follow the operator. *)
Lemma keep_star_extent (rest : string) (pre post : list string) (x : string) :
  SubwordEdit._apply_keep_star rest (pre ++ x :: post)%list (List.length pre + 1)
  = if forallb SubwordEdit.is_insert_or_append post then rest
    else take (String.length rest
               - List.length (filter (fun e => negb (SubwordEdit.is_insert_or_append e))
                                     post))
              rest.
Proof.
  unfold SubwordEdit._apply_keep_star.
  rewrite skipn_past, filter_all_length.
  destruct (forallb SubwordEdit.is_insert_or_append post) eqn:E; [reflexivity|].
  pose proof (filter_split_length SubwordEdit.is_insert_or_append post) as H.
  assert (List.length (filter SubwordEdit.is_insert_or_append post)
          <> List.length post) as Hne.
  { intros Heq. apply filter_length_forallb in Heq. congruence. }
  rewrite drop_last_pos by lia. do 2 f_equal. lia.
Qed.


(** ** Merge markers *)

Lemma filter_drops_merge (l1 l2 : list string) :
  filter (fun e => negb (SubwordEdit.consumes_nothing e)) (l1 ++ "M" :: l2)%list
  = filter (fun e => negb (SubwordEdit.consumes_nothing e)) (l1 ++ l2)%list.
Proof. now rewrite !filter_app. Qed.

(** ** The edit-distance gate *)

Section GateProperties.

Variable U : Postprocess.ustr.
Variable is_digit : N -> bool.
Variable distance : Postprocess.ustr -> Postprocess.ustr -> nat.

Lemma gate_length (gamma : Z) (src preds : list Postprocess.ustr) :
  List.length src = List.length preds ->
  List.length (Postprocess.gate distance gamma src preds) = List.length src.
Proof.
  revert preds; induction src as [|s src IH]; intros [|p preds] H;
    simpl in *; try discriminate; auto.
Qed.

Lemma gate_nth (gamma : Z) (src preds : list Postprocess.ustr) (i : nat)
    (s p : Postprocess.ustr) :
  nth_error src i = Some s ->
  nth_error preds i = Some p ->
  nth_error (Postprocess.gate distance gamma src preds) i
  = Some (if (gamma <=? Z.of_nat (distance s p))%Z then s else p).
Proof.
  revert preds i; induction src as [|s0 src IH]; intros [|p0 preds] [|i] Hs Hp;
    simpl in *; try discriminate.
  - now inversion Hs; inversion Hp; subst.
  - now apply IH.
Qed.

End GateProperties.

(** C8, as amended: for sentence lists of the same length [postprocess]
    returns one sentence per pair; it is the source sentence when the edit
    distance between the source and the punctuation-tokenized prediction
    is greater than or equal to [gamma], and the punctuation-tokenized
    prediction when the distance is below [gamma]. *)
Theorem postprocess_gate (U : Postprocess.ustr) (is_digit : N -> bool)
    (distance : Postprocess.ustr -> Postprocess.ustr -> nat)
    (src preds : list Postprocess.ustr) (gamma : Z) :
  List.length src = List.length preds ->
  exists out,
    Postprocess.postprocess U is_digit distance src preds gamma = Ok out
    /\ List.length out = List.length src
    /\ forall i s p,
        nth_error src i = Some s ->
        nth_error (Postprocess.pnx_tokenize U is_digit preds) i = Some p ->
        nth_error out i
        = Some (if (gamma <=? Z.of_nat (distance s p))%Z then s else p).
Proof.
  intros Hlen. unfold Postprocess.postprocess.
  assert (List.length src
          = List.length (Postprocess.pnx_tokenize U is_digit preds)) as Hl.
  { unfold Postprocess.pnx_tokenize. now rewrite length_map. }
  apply Nat.eqb_eq in Hl as Hb. rewrite Hb. simpl.
  eexists. split; [reflexivity|]. split.
  - now apply gate_length.
  - intros i s p. apply gate_nth.
Qed.

Lemma postprocess_gate_witness :
  List.length [[97%N; 98%N]] = List.length [[97%N; 99%N]]
  /\ exists out,
      Postprocess.postprocess [] Postprocess.ascii_digit Postprocess.levenshtein
        [[97%N; 98%N]] [[97%N; 99%N]] 2 = Ok out
      /\ List.length out = 1
      /\ forall i s p,
          nth_error [[97%N; 98%N]] i = Some s ->
          nth_error (Postprocess.pnx_tokenize [] Postprocess.ascii_digit
                       [[97%N; 99%N]]) i = Some p ->
          nth_error out i
          = Some (if (2 <=? Z.of_nat (Postprocess.levenshtein s p))%Z
                  then s else p).
Proof.
  split; [reflexivity|].
  apply (postprocess_gate [] Postprocess.ascii_digit Postprocess.levenshtein
           [[97%N; 98%N]] [[97%N; 99%N]] 2).
  reflexivity.
Defined.

(** C8 as stated fails at a distance equal to [gamma]: the prediction
    ["b"] for the source ["a"] is at distance 1, which does not exceed
    [gamma = 1], and it is rejected all the same. *)
Lemma postprocess_gate_counterexample :
  Postprocess.pnx_tokenize [] Postprocess.ascii_digit [[98%N]] = [[98%N]]
  /\ Postprocess.levenshtein [97%N] [98%N] = 1
  /\ ~ (1 < Z.of_nat (Postprocess.levenshtein [97%N] [98%N]))%Z
  /\ Postprocess.postprocess [] Postprocess.ascii_digit Postprocess.levenshtein
       [[97%N]] [[98%N]] 1 = Ok [[97%N]].
Proof. repeat split. simpl. lia. Qed.

(** ** Reading a tag back into its operations *)

Lemma findall_from_skip (m : Re.matcher) (t r : string) :
  Re.findall_from m (String.length t) (t ++ r) = Re.findall_from m 0 r.
Proof. induction t as [|c t IH]; [reflexivity | exact IH]. Qed.

Lemma findall_match (m : Re.matcher) (c : ascii) (t r : string) :
  m (String c t ++ r) = Some (String c t) ->
  Re.findall m (String c t ++ r) = String c t :: Re.findall m r.
Proof.
  intros H. unfold Re.findall. simpl. simpl in H. rewrite H. f_equal.
  simpl. rewrite Nat.sub_0_r. apply findall_from_skip.
Qed.

Lemma findall_nomatch (m : Re.matcher) (c : ascii) (s : string) :
  m (String c s) = None ->
  Re.findall m (String c s) = Re.findall m s.
Proof. intros H. unfold Re.findall. simpl. now rewrite H. Qed.

Lemma char_in_app (c : ascii) (a b : string) :
  char_in c (a ++ b) = char_in c a || char_in c b.
Proof.
  induction a as [|x a IH]; [reflexivity|].
  simpl. now rewrite IH, orb_assoc.
Qed.

Lemma plain_text_app (a b : string) :
  Tag.plain_text (a ++ b) = Tag.plain_text a && Tag.plain_text b.
Proof.
  unfold Tag.plain_text. rewrite !char_in_app.
  destruct (char_in "]" a), (char_in "]" b), (char_in newline a),
    (char_in newline b); reflexivity.
Qed.

Lemma plain_text_cons (c : ascii) (p : string) :
  Tag.plain_text (String c p) = true ->
  Ascii.eqb c "]" = false /\ Ascii.eqb c newline = false
  /\ Tag.plain_text p = true.
Proof.
  unfold Tag.plain_text. cbn [char_in].
  rewrite (Ascii.eqb_sym "]"%char c), (Ascii.eqb_sym newline c).
  destruct (Ascii.eqb c "]"), (Ascii.eqb c newline),
    (char_in "]" p), (char_in newline p); cbn [orb negb andb];
    intros H; try discriminate; auto.
Qed.

Lemma lazy_until_bracket_plain (p r : string) :
  Tag.plain_text p = true ->
  Re.lazy_until_bracket (p ++ String "]" r) = Some (p, String "]" r).
Proof.
  induction p as [|c p IH]; intros H; [reflexivity|].
  apply plain_text_cons in H as (H1 & H2 & H3).
  simpl. rewrite H1, H2, (IH H3). reflexivity.
Qed.

Lemma span_other (c : ascii) (s : string) :
  Tag.starts_with_char c s = false -> Re.span c s = ("", s).
Proof.
  destruct s as [|b s]; [reflexivity|].
  unfold Tag.starts_with_char. simpl. now intros ->.
Qed.

Lemma bracket_op_other (x c : ascii) (s : string) :
  Ascii.eqb c x = false -> Re.bracket_op x (String c s) = None.
Proof.
  intros H. destruct s as [|u [|b s]]; simpl; try reflexivity.
  now rewrite H.
Qed.

Lemma bracket_op_plain (x : ascii) (p r : string) :
  Tag.plain_text p = true ->
  Tag.starts_with_char "]" r = false ->
  Re.bracket_op x (String x (String "_" (String "[" (p ++ String "]" r))))
  = Some (String x (String "_" (String "[" (p ++ "]")))).
Proof.
  intros Hp Hr. simpl. rewrite Ascii.eqb_refl. simpl.
  rewrite (lazy_until_bracket_plain _ _ Hp). simpl.
  rewrite (span_other _ _ Hr). reflexivity.
Qed.

Lemma findall_token (m : Re.matcher) (t r : string) :
  t <> "" ->
  m (t ++ r) = Some t ->
  Re.findall m (t ++ r) = t :: Re.findall m r.
Proof.
  destruct t as [|c t]; [congruence|]. intros _. apply findall_match.
Qed.

Lemma startswith_char (c : ascii) (s : string) :
  startswith (str c) s = Tag.starts_with_char c s.
Proof.
  destruct s as [|b s]; [reflexivity|].
  unfold Tag.starts_with_char. simpl.
  rewrite andb_true_r. apply Ascii.eqb_sym.
Qed.

Lemma render_cons (o : Tag.op) (ops : list Tag.op) :
  Tag.render (o :: ops) = Tag.render_op o ++ Tag.render ops.
Proof. unfold Tag.render. simpl map. apply join_cons. Qed.

Lemma render_app (l1 l2 : list Tag.op) :
  Tag.render (l1 ++ l2)%list = Tag.render l1 ++ Tag.render l2.
Proof. unfold Tag.render. now rewrite map_app, join_app. Qed.

Lemma render_clean_head (ops : list Tag.op) : Tag.clean_head (Tag.render ops).
Proof.
  destruct ops as [|o ops]; [split; reflexivity|].
  rewrite render_cons. destruct o; split; reflexivity.
Qed.

Lemma render_op_nonempty (o : Tag.op) : Tag.render_op o <> "".
Proof. destruct o; discriminate. Qed.

Lemma bracket_text (x : ascii) (p r : string) :
  (String x (String "_" (String "[" (p ++ "]")))) ++ r
  = String x (String "_" (String "[" (p ++ String "]" r))).
Proof. simpl. now rewrite append_assoc. Qed.

Lemma lit_other (c b : ascii) (p r : string) :
  Ascii.eqb c b = false -> Re.lit (String c p) (String b r) = None.
Proof. intros H. unfold Re.lit. cbn [startswith]. now rewrite H. Qed.

Lemma lit_star_absent (c : ascii) (r : string) :
  Tag.starts_with_char "*" r = false ->
  Re.lit (String c "*") (String c r) = None.
Proof.
  intros H. unfold Re.lit.
  change (startswith (String c "*") (String c r))
    with (Ascii.eqb c c && startswith (str "*") r).
  now rewrite startswith_char, H, andb_false_r.
Qed.

Lemma lit_here (p r : string) : Re.lit p (p ++ r) = Some p.
Proof. unfold Re.lit. now rewrite startswith_app. Qed.

Ltac skip_alternatives :=
  repeat first
    [ rewrite bracket_op_other by reflexivity
    | rewrite lit_other by reflexivity
    | rewrite lit_star_absent by assumption ].

(** The pattern of the applier reads the text of a well-formed operation
    as one token. *)
Lemma char_edit_re_op (o : Tag.op) (r : string) :
  Tag.plain_op o = true ->
  Tag.clean_head r ->
  Re.char_edit_re (Tag.render_op o ++ r) = Some (Tag.render_op o).
Proof.
  intros Ho [Hb Hs]. unfold Re.char_edit_re, Re.alt.
  destruct o as [| | | | | |p|p|p]; cbn [Tag.render_op Tag.plain_op] in *.
  1-4: change (String ?c "" ++ r) with (String c r);
       skip_alternatives; reflexivity.
  - change ("K*" ++ r) with (String "K" (String "*" r)).
    rewrite !bracket_op_other by reflexivity. reflexivity.
  - change ("D*" ++ r) with (String "D" (String "*" r)).
    rewrite !bracket_op_other by reflexivity. reflexivity.
  - change ("I_[" ++ p ++ "]") with (String "I" (String "_" (String "[" (p ++ "]")))).
    rewrite bracket_text, bracket_op_plain by assumption. reflexivity.
  - change ("R_[" ++ p ++ "]") with (String "R" (String "_" (String "[" (p ++ "]")))).
    rewrite bracket_text. skip_alternatives.
    rewrite bracket_op_plain by assumption. reflexivity.
  - change ("A_[" ++ p ++ "]") with (String "A" (String "_" (String "[" (p ++ "]")))).
    rewrite bracket_text. skip_alternatives.
    rewrite bracket_op_plain by assumption. reflexivity.
Qed.

Lemma well_formed_cons (o : Tag.op) (ops : list Tag.op) :
  Tag.well_formed (o :: ops) = true ->
  Tag.plain_op o = true /\ Tag.well_formed ops = true.
Proof. apply andb_true_iff. Qed.

(** The applier splits a well-formed tag into the texts of its
    operations. *)
Lemma findall_char_edits (ops : list Tag.op) :
  Tag.well_formed ops = true ->
  Re.findall Re.char_edit_re (Tag.render ops) = map Tag.render_op ops.
Proof.
  induction ops as [|o ops IH]; intros H; [reflexivity|].
  apply well_formed_cons in H as [Ho H].
  rewrite render_cons. simpl map.
  rewrite findall_token, (IH H); auto using render_op_nonempty.
  apply char_edit_re_op; auto using render_clean_head.
Qed.

(** ** Compression on the operations of a tag *)

Lemma span_spec (c : ascii) (s : string) :
  exists a b, Re.span c s = (a, b) /\ s = a ++ b
              /\ Tag.starts_with_char c b = false
              /\ (a = "" \/ exists a', a = String c a').
Proof.
  induction s as [|x s IH].
  - exists "", "". repeat split; auto.
  - simpl. destruct (Ascii.eqb x c) eqn:E.
    + apply Ascii.eqb_eq in E; subst x.
      destruct IH as (a & b & -> & -> & Hb & _).
      exists (String c a), b. repeat split; eauto.
    + exists "", (String x s). repeat split; auto.
Qed.

Lemma compress_re_run (c : ascii) (s : string) :
  c = "K"%char \/ c = "D"%char ->
  Re.compress_re (String c s) = Some (String c (fst (Re.span c s))).
Proof.
  intros [-> | ->]; unfold Re.compress_re, Re.alt;
    rewrite !bracket_op_other by reflexivity; unfold Re.plus; simpl;
    destruct (Re.span _ s); reflexivity.
Qed.

Lemma compress_re_single (c : ascii) (s : string) :
  In c ["S"; "M"; "*"]%char ->
  Re.compress_re (String c s) = Some (str c).
Proof.
  intros H. unfold Re.compress_re, Re.alt.
  destruct H as [<- | [<- | [<- | []]]];
    rewrite !bracket_op_other by reflexivity; reflexivity.
Qed.

Lemma compress_re_bracket (x : ascii) (p r : string) :
  In x ["I"; "R"; "A"]%char ->
  Tag.plain_text p = true ->
  Tag.starts_with_char "]" r = false ->
  Re.compress_re (String x (String "_" (String "[" (p ++ String "]" r))))
  = Some (String x (String "_" (String "[" (p ++ "]")))).
Proof.
  intros H Hp Hr. unfold Re.compress_re, Re.alt.
  destruct H as [<- | [<- | [<- | []]]];
    rewrite ?(bracket_op_other "I" "R"), ?(bracket_op_other "I" "A"),
      ?(bracket_op_other "R" "A") by reflexivity;
    rewrite bracket_op_plain by assumption; reflexivity.
Qed.

Lemma join_flush (ins : string) :
  join (flush_insertions ins) = Tag.render (Tag.flush ins).
Proof.
  unfold flush_insertions, Tag.flush. destruct (ins =? ""); reflexivity.
Qed.

Lemma compress_from_nil (ins : string) :
  compress_from ins "" = Tag.render (Tag.flush ins).
Proof. unfold compress_from. simpl. apply join_flush. Qed.

Lemma compress_from_other (ins tok r : string) :
  tok <> "" ->
  Re.compress_re (tok ++ r) = Some tok ->
  startswith "I_" tok = false ->
  compress_from ins (tok ++ r)
  = Tag.render (Tag.flush ins) ++ tok ++ compress_from "" r.
Proof.
  intros Hne Hm Hi. unfold compress_from.
  rewrite (findall_token _ _ _ Hne Hm). cbn [compress_insertions_from].
  rewrite Hi.
  now rewrite join_app, join_cons, join_flush.
Qed.

Lemma compress_from_single (c : ascii) (ins s : string) :
  In c ["S"; "M"; "*"]%char ->
  compress_from ins (String c s)
  = Tag.render (Tag.flush ins) ++ String c (compress_from "" s).
Proof.
  intros H.
  change (String c s) with (str c ++ s).
  rewrite compress_from_other; [reflexivity | discriminate | |].
  - now apply compress_re_single.
  - destruct H as [<- | [<- | [<- | []]]]; reflexivity.
Qed.

Lemma compress_from_run (c : ascii) (ins s : string) :
  c = "K"%char \/ c = "D"%char ->
  compress_from ins (String c s)
  = Tag.render (Tag.flush ins) ++ String c (compress_from "" s).
Proof.
  intros Hc.
  destruct (span_spec c s) as (a & b & E & -> & Hb & Ha).
  assert (Hm : Re.compress_re (String c a ++ b) = Some (String c a)).
  { change (String c a ++ b) with (String c (a ++ b)).
    rewrite (compress_re_run _ _ Hc), E. reflexivity. }
  assert (Hi : startswith "I_" (String c a) = false)
    by (destruct Hc as [-> | ->]; reflexivity).
  change (String c (a ++ b)) with (String c a ++ b).
  rewrite compress_from_other; [| discriminate | exact Hm | exact Hi].
  f_equal. simpl. f_equal.
  destruct Ha as [-> | [a' ->]]; [reflexivity|].
  assert (Hm' : Re.compress_re (String c a' ++ b) = Some (String c a')).
  { change (String c a' ++ b) with (String c (a' ++ b)).
    rewrite (compress_re_run _ _ Hc). simpl in E.
    rewrite Ascii.eqb_refl in E. destruct (Re.span c (a' ++ b)).
    inversion E; subst. reflexivity. }
  rewrite compress_from_other; [reflexivity | discriminate | exact Hm' |].
  destruct Hc as [-> | ->]; reflexivity.
Qed.

Lemma sub_payload_from_skip (x : ascii) (t r : string) :
  Re.sub_payload_from x (String.length t) (t ++ r) = Re.sub_payload_from x 0 r.
Proof. induction t as [|c t IH]; [reflexivity | exact IH]. Qed.

Lemma payload_at_plain (x : ascii) (p r : string) :
  Tag.plain_text p = true ->
  Re.payload_at x (String x (String "_" (String "[" (p ++ String "]" r))))
  = Some p.
Proof.
  intros Hp. unfold Re.payload_at. rewrite Ascii.eqb_refl.
  change (Ascii.eqb "_" "_") with true. change (Ascii.eqb "[" "[") with true.
  cbn [andb]. now rewrite (lazy_until_bracket_plain p r Hp).
Qed.

Lemma sub_payload_from_hit (x c : ascii) (p s : string) :
  Re.payload_at x (String c s) = Some p ->
  Re.sub_payload_from x 0 (String c s)
  = p ++ Re.sub_payload_from x (3 + String.length p) s.
Proof. intros H. cbn [Re.sub_payload_from]. now rewrite H. Qed.

(** [re.sub] gives back the text of a well-formed bracketed token. *)
Lemma sub_payload_plain (x : ascii) (p : string) :
  Tag.plain_text p = true ->
  Re.sub_payload x (String x (String "_" (String "[" (p ++ "]")))) = p.
Proof.
  intros Hp. unfold Re.sub_payload.
  rewrite (sub_payload_from_hit x x p) by now apply payload_at_plain.
  replace (String "_" (String "[" (p ++ "]")))
    with ((String "_" (String "[" (p ++ "]"))) ++ "")
    by apply append_nil_r.
  replace (3 + String.length p)
    with (String.length (String "_" (String "[" (p ++ "]"))))
    by (simpl; rewrite length_append; simpl; lia).
  rewrite sub_payload_from_skip. simpl. apply append_nil_r.
Qed.

Lemma compress_from_insert (ins p r : string) :
  Tag.plain_text p = true ->
  Tag.starts_with_char "]" r = false ->
  compress_from ins (("I_[" ++ p ++ "]") ++ r) = compress_from (ins ++ p) r.
Proof.
  intros Hp Hr. unfold compress_from.
  rewrite findall_token; [| discriminate |].
  - simpl compress_insertions_from.
    change (String "I" (String "_" (String "[" (p ++ "]"))))
      with ("I_[" ++ p ++ "]").
    change ("I_[" ++ p ++ "]")
      with (String "I" (String "_" (String "[" (p ++ "]")))).
    now rewrite sub_payload_plain.
  - change ("I_[" ++ p ++ "]")
      with (String "I" (String "_" (String "[" (p ++ "]")))).
    rewrite bracket_text. apply compress_re_bracket; simpl; auto.
Qed.

Lemma flush_well_formed (ins : string) :
  Tag.plain_text ins = true -> Tag.well_formed (Tag.flush ins) = true.
Proof.
  intros H. unfold Tag.flush. destruct (ins =? ""); simpl; [reflexivity|].
  now rewrite H.
Qed.

(** Compressing the text of well-formed operations merges their
    consecutive insertions. *)
Lemma compress_from_render (ops : list Tag.op) (ins : string) :
  Tag.well_formed ops = true ->
  compress_from ins (Tag.render ops) = Tag.render (Tag.squash_from ins ops).
Proof.
  revert ins; induction ops as [|o ops IH]; intros ins H.
  - apply compress_from_nil.
  - apply well_formed_cons in H as [Ho H].
    pose proof (render_clean_head ops) as [Hb _].
    rewrite render_cons.
    destruct o as [| | | | | |p|p|p]; cbn [Tag.render_op Tag.squash_from];
      try rewrite render_app, render_cons.
    + change ("K" ++ Tag.render ops) with (String "K" (Tag.render ops)).
      rewrite compress_from_run, IH; auto.
    + change ("D" ++ Tag.render ops) with (String "D" (Tag.render ops)).
      rewrite compress_from_run, IH; auto.
    + change ("S" ++ Tag.render ops) with (String "S" (Tag.render ops)).
      rewrite compress_from_single, IH; simpl; auto.
    + change ("M" ++ Tag.render ops) with (String "M" (Tag.render ops)).
      rewrite compress_from_single, IH; simpl; auto.
    + change ("K*" ++ Tag.render ops)
        with (String "K" (String "*" (Tag.render ops))).
      rewrite compress_from_run, compress_from_single, IH; simpl; auto.
    + change ("D*" ++ Tag.render ops)
        with (String "D" (String "*" (Tag.render ops))).
      rewrite compress_from_run, compress_from_single, IH; simpl; auto.
    + rewrite compress_from_insert, IH; auto.
    + rewrite compress_from_other, IH; auto; try discriminate.
      change ("R_[" ++ p ++ "]")
        with (String "R" (String "_" (String "[" (p ++ "]")))).
      rewrite bracket_text. apply compress_re_bracket; simpl; auto.
    + rewrite compress_from_other, IH; auto; try discriminate.
      change ("A_[" ++ p ++ "]")
        with (String "A" (String "_" (String "[" (p ++ "]")))).
      rewrite bracket_text. apply compress_re_bracket; simpl; auto.
Qed.

Lemma compress_edit_from (edit : string) :
  compress_edit edit = compress_from "" edit.
Proof. reflexivity. Qed.

Lemma squash_from_well_formed (ops : list Tag.op) (ins : string) :
  Tag.well_formed ops = true ->
  Tag.plain_text ins = true ->
  Tag.well_formed (Tag.squash_from ins ops) = true.
Proof.
  revert ins; induction ops as [|o ops IH]; intros ins H Hi.
  - now apply flush_well_formed.
  - apply well_formed_cons in H as [Ho H].
    assert (Hrest : Tag.well_formed
                      (Tag.flush ins ++ o :: Tag.squash_from "" ops)%list = true).
    { unfold Tag.well_formed. rewrite forallb_app.
      fold (Tag.well_formed (Tag.flush ins)). rewrite flush_well_formed by auto.
      simpl. rewrite Ho. now apply IH. }
    destruct o; try exact Hrest.
    simpl. apply IH; [exact H|]. rewrite plain_text_app, Hi. exact Ho.
Qed.

Lemma squash_squash_from (ops : list Tag.op) (ins : string) :
  Tag.squash (Tag.squash_from ins ops) = Tag.squash_from ins ops.
Proof.
  revert ins; induction ops as [|o ops IH]; intros ins.
  - cbn [Tag.squash_from]. unfold Tag.squash.
    assert (Hf := eq_refl (Tag.flush ins)). unfold Tag.flush at 2 in Hf.
    destruct (ins =? "") eqn:E; rewrite Hf; [reflexivity|].
    cbn [Tag.squash_from append]. unfold Tag.flush. now rewrite E.
  - destruct o; try (now simpl; apply IH);
      cbn [Tag.squash_from]; unfold Tag.squash;
      assert (Hf := eq_refl (Tag.flush ins)); unfold Tag.flush at 2 in Hf;
      (destruct (ins =? "") eqn:E; rewrite Hf;
       [ cbn [app Tag.squash_from]; unfold Tag.flush at 1; simpl;
         f_equal; apply IH
       | cbn [app Tag.squash_from append]; unfold Tag.flush at 1; rewrite E;
         simpl; do 2 f_equal; apply IH ]).
Qed.

(** C7, as amended: compression is idempotent on every tag that is a
    concatenation of operations of the tag grammar (K, D, S, M, K*, D*,
    I_[text], R_[text], A_[text]) whose texts hold no closing bracket and
    no line break. *)
Theorem compress_edit_idempotent (ops : list Tag.op) :
  Tag.well_formed ops = true ->
  compress_edit (compress_edit (Tag.render ops))
  = compress_edit (Tag.render ops).
Proof.
  intros H.
  rewrite (compress_edit_from (Tag.render ops)), (compress_from_render ops "" H).
  rewrite compress_edit_from, compress_from_render
    by (now apply squash_from_well_formed).
  f_equal. apply squash_squash_from.
Qed.

Lemma compress_edit_idempotent_witness :
  Tag.well_formed [Tag.Keep; Tag.Insert "a"; Tag.Insert "b"; Tag.KeepRun;
                   Tag.Replace "c"; Tag.Insert "d"] = true
  /\ compress_edit (compress_edit "KI_[a]I_[b]K*R_[c]I_[d]")
     = compress_edit "KI_[a]I_[b]K*R_[c]I_[d]".
Proof.
  split; [reflexivity|].
  apply (compress_edit_idempotent
           [Tag.Keep; Tag.Insert "a"; Tag.Insert "b"; Tag.KeepRun;
            Tag.Replace "c"; Tag.Insert "d"]).
  reflexivity.
Defined.

(** C7 as stated fails: the first pass joins the insertion of ["a]"] and
    the insertion of ["I_[b"] into a text that reads as two insertions,
    which the second pass joins again. *)
Lemma compress_edit_idempotent_counterexample :
  compress_edit "I_[a]]I_[I_[b]" = "I_[a]I_[b]"
  /\ compress_edit (compress_edit "I_[a]]I_[I_[b]") = "I_[ab]"
  /\ compress_edit (compress_edit "I_[a]]I_[I_[b]")
     <> compress_edit "I_[a]]I_[I_[b]".
Proof. repeat split. discriminate. Qed.

(** ** The applier on the operations of a tag *)

Lemma is_insert_or_append_render (o : Tag.op) :
  SubwordEdit.is_insert_or_append (Tag.render_op o) = negb (Tag.fixed_width o).
Proof. destruct o; reflexivity. Qed.

Lemma fixed_count_tokens (rest : list Tag.op) :
  List.length (filter (fun e => negb (SubwordEdit.is_insert_or_append e))
                      (map Tag.render_op rest))
  = Tag.fixed_count rest.
Proof.
  unfold Tag.fixed_count. induction rest as [|o rest IH]; [reflexivity|].
  cbn [map filter]. rewrite is_insert_or_append_render, negb_involutive.
  destruct (Tag.fixed_width o); simpl; auto.
Qed.

Lemma forallb_tokens (rest : list Tag.op) :
  forallb SubwordEdit.is_insert_or_append (map Tag.render_op rest)
  = (Tag.fixed_count rest =? 0)%nat.
Proof.
  unfold Tag.fixed_count. induction rest as [|o rest IH]; [reflexivity|].
  cbn [map forallb filter]. rewrite is_insert_or_append_render.
  destruct (Tag.fixed_width o); simpl; auto.
Qed.

Lemma keep_star_ops (unread x : string) (pre : list string) (rest : list Tag.op) :
  SubwordEdit._apply_keep_star unread (pre ++ x :: map Tag.render_op rest)%list
    (List.length pre + 1)
  = Tag.run_extent unread rest.
Proof.
  rewrite keep_star_extent, forallb_tokens, fixed_count_tokens. reflexivity.
Qed.

Lemma delete_star_ops (unread x : string) (pre : list string) (rest : list Tag.op) :
  SubwordEdit._apply_delete_star unread (pre ++ x :: map Tag.render_op rest)%list
    (List.length pre + 1)
  = String.length (Tag.run_extent unread rest).
Proof.
  unfold SubwordEdit._apply_delete_star.
  pose proof (keep_star_ops unread x pre rest) as H.
  unfold SubwordEdit._apply_keep_star in H.
  destruct (_ =? _)%nat; now rewrite <- H.
Qed.

Lemma sub_payload_render (x : ascii) (p : string) :
  Tag.plain_text p = true ->
  Re.sub_payload x (String x "_[" ++ p ++ "]") = p.
Proof. intros H. now apply sub_payload_plain. Qed.

(** A turn of the loop of [_apply_char_edits] on the token of an
    operation does what [Tag.op_step] says. *)
Lemma char_edit_step_op (subword : string) (pre : list string) (o : Tag.op)
    (rest : list Tag.op) (st : string * nat) :
  Tag.plain_op o = true ->
  SubwordEdit.char_edit_step subword
    (pre ++ Tag.render_op o :: map Tag.render_op rest)%list
    st (List.length pre) (Tag.render_op o)
  = Tag.op_step subword (List.length pre =? 0)%nat o rest st.
Proof.
  intros Ho. destruct st as [edited idx].
  unfold SubwordEdit.char_edit_step, Tag.op_step.
  destruct o as [| | | | | |p|p|p]; cbn [Tag.render_op Tag.plain_op] in *;
    try reflexivity.
  - change ("K*" =? "K") with false. change ("K*" =? "D") with false.
    change (startswith "I" "K*") with false.
    change (startswith "A" "K*") with false.
    change ("K*" =? "K*") with true. cbv iota.
    now rewrite keep_star_ops.
  - change ("D*" =? "K") with false. change ("D*" =? "D") with false.
    change (startswith "I" "D*") with false.
    change (startswith "A" "D*") with false.
    change ("D*" =? "K*") with false. change ("D*" =? "D*") with true.
    cbv iota. now rewrite delete_star_ops.
  - change ("I_[" ++ p ++ "]" =? "K") with false.
    change ("I_[" ++ p ++ "]" =? "D") with false.
    change (startswith "I" ("I_[" ++ p ++ "]")) with true. cbv iota.
    now rewrite (sub_payload_render "I" p Ho).
  - change ("R_[" ++ p ++ "]" =? "K") with false.
    change ("R_[" ++ p ++ "]" =? "D") with false.
    change (startswith "I" ("R_[" ++ p ++ "]")) with false.
    change (startswith "A" ("R_[" ++ p ++ "]")) with false.
    change ("R_[" ++ p ++ "]" =? "K*") with false.
    change ("R_[" ++ p ++ "]" =? "D*") with false.
    change (startswith "R" ("R_[" ++ p ++ "]")) with true. cbv iota.
    now rewrite (sub_payload_render "R" p Ho).
  - change ("A_[" ++ p ++ "]" =? "K") with false.
    change ("A_[" ++ p ++ "]" =? "D") with false.
    change (startswith "I" ("A_[" ++ p ++ "]")) with false.
    change (startswith "A" ("A_[" ++ p ++ "]")) with true. cbv iota.
    rewrite (sub_payload_render "A" p Ho).
    now destruct (List.length pre =? 0)%nat.
Qed.

Lemma char_edits_loop_ops (subword : string) (pre ops : list Tag.op)
    (st : string * nat) :
  Tag.well_formed ops = true ->
  SubwordEdit.char_edits_loop subword (map Tag.render_op (pre ++ ops)%list)
    (combine (seq (List.length pre) (List.length ops)) (map Tag.render_op ops))
    st
  = Tag.run_ops subword (List.length pre =? 0)%nat ops st.
Proof.
  revert pre st; induction ops as [|o ops IH]; intros pre st H;
    [reflexivity|].
  apply well_formed_cons in H as [Ho H].
  cbn [List.length seq map combine SubwordEdit.char_edits_loop Tag.run_ops].
  rewrite map_app. cbn [map].
  rewrite <- (length_map Tag.render_op pre) at 1.
  rewrite char_edit_step_op by assumption.
  rewrite length_map.
  destruct (Tag.op_step subword _ o ops st) as [st'|e]; [|reflexivity].
  cbn [bind].
  specialize (IH (pre ++ [o])%list st' H).
  rewrite <- app_assoc, length_app, Nat.add_1_r in IH. cbn [app] in IH.
  rewrite map_app in IH. cbn [map] in IH. rewrite IH. reflexivity.
Qed.

Lemma apply_char_edits_ops (subword : string) (ops : list Tag.op) :
  Tag.well_formed ops = true ->
  SubwordEdit._apply_char_edits subword (map Tag.render_op ops)
  = ('(edited, _) <- Tag.run_ops subword true ops ("", 0) ;; Ok edited).
Proof.
  intros H. unfold SubwordEdit._apply_char_edits, enumerate.
  rewrite length_map.
  pose proof (char_edits_loop_ops subword [] ops ("", 0) H) as E.
  cbn [app List.length] in E. now rewrite E.
Qed.

(** ** Compression does not change what a strict tag does *)

Lemma strict_cons (o : Tag.op) (ops : list Tag.op) :
  Tag.strict (o :: ops) = true ->
  Tag.strict_op o = true /\ Tag.strict ops = true.
Proof. apply andb_true_iff. Qed.

Lemma strict_op_plain (o : Tag.op) :
  Tag.strict_op o = true -> Tag.plain_op o = true.
Proof.
  destruct o as [| | | | | |p|p|p]; cbn [Tag.strict_op Tag.plain_op]; auto;
    intros H; [apply andb_true_iff in H as [H _] | | ];
    apply andb_true_iff in H as [H _]; exact H.
Qed.

Lemma strict_well_formed (ops : list Tag.op) :
  Tag.strict ops = true -> Tag.well_formed ops = true.
Proof.
  induction ops as [|o ops IH]; [reflexivity|]. intros H.
  apply strict_cons in H as [Ho H]. simpl.
  now rewrite (strict_op_plain o Ho), IH.
Qed.

Lemma strict_insert_nonempty (p : string) (ops : list Tag.op) :
  Tag.strict (Tag.Insert p :: ops) = true -> p <> "".
Proof.
  intros H. apply strict_cons in H as [H _]. simpl in H.
  apply andb_true_iff in H as [_ H]. apply negb_true_iff in H.
  now apply String.eqb_neq.
Qed.

Lemma flush_nonempty (ins : string) :
  ins <> "" -> Tag.flush ins = [Tag.Insert ins].
Proof.
  intros H. unfold Tag.flush. apply String.eqb_neq in H. now rewrite H.
Qed.

Lemma fixed_count_app (l1 l2 : list Tag.op) :
  Tag.fixed_count (l1 ++ l2)%list = Tag.fixed_count l1 + Tag.fixed_count l2.
Proof. unfold Tag.fixed_count. now rewrite filter_app, length_app. Qed.

Lemma fixed_count_flush (ins : string) : Tag.fixed_count (Tag.flush ins) = 0.
Proof. unfold Tag.flush. now destruct (ins =? ""). Qed.

Lemma fixed_count_squash (ops : list Tag.op) (ins : string) :
  Tag.fixed_count (Tag.squash_from ins ops) = Tag.fixed_count ops.
Proof.
  revert ins; induction ops as [|o ops IH]; intros ins.
  - apply fixed_count_flush.
  - destruct o; cbn [Tag.squash_from];
      try (rewrite fixed_count_app, fixed_count_flush;
           unfold Tag.fixed_count in *; simpl; now rewrite IH).
    rewrite IH. reflexivity.
Qed.

Lemma op_step_rest (subword : string) (first : bool) (o : Tag.op)
    (r1 r2 : list Tag.op) (st : string * nat) :
  Tag.fixed_count r1 = Tag.fixed_count r2 ->
  Tag.op_step subword first o r1 st = Tag.op_step subword first o r2 st.
Proof.
  intros H. destruct st as [edited idx].
  destruct o; simpl; unfold Tag.run_extent; now rewrite ?H.
Qed.

(** Running the merged operations with a pending insertion text [ins]
    is running the operations themselves after [ins] is written. *)
Lemma run_ops_squash (subword : string) (ops : list Tag.op) :
  Tag.strict ops = true ->
  forall ins edited idx first,
    ins <> "" \/ first = false ->
    Tag.run_ops subword first (Tag.squash_from ins ops) (edited, idx)
    = Tag.run_ops subword false ops (edited ++ ins, idx).
Proof.
  induction ops as [|o ops IH]; intros H ins edited idx first Hf.
  - cbn [Tag.squash_from]. destruct (String.eqb_spec ins "") as [-> | Hne].
    + simpl. now rewrite append_nil_r.
    + rewrite (flush_nonempty _ Hne). reflexivity.
  - pose proof H as Hall. apply strict_cons in H as [Ho H].
    assert (Hother :
      Tag.run_ops subword first
        (Tag.flush ins ++ o :: Tag.squash_from "" ops)%list (edited, idx)
      = Tag.run_ops subword false (o :: ops) (edited ++ ins, idx)).
    { assert (Hstep : forall st,
        Tag.op_step subword false o (Tag.squash_from "" ops) st
        = Tag.op_step subword false o ops st).
      { intros st. apply op_step_rest, fixed_count_squash. }
      assert (Htail : forall st,
        Tag.run_ops subword false (Tag.squash_from "" ops) st
        = Tag.run_ops subword false ops st).
      { intros [e i]. rewrite (IH H "" e i false) by auto.
        now rewrite append_nil_r. }
      destruct (String.eqb_spec ins "") as [-> | Hne].
      - destruct Hf as [Hf | ->]; [congruence|].
        unfold Tag.flush. cbn [String.eqb app Tag.run_ops].
        rewrite append_nil_r, Hstep.
        destruct (Tag.op_step subword false o ops (edited, idx));
          [apply Htail | reflexivity].
      - rewrite (flush_nonempty _ Hne). cbn [app].
        change (Tag.run_ops subword first
                  (Tag.Insert ins :: o :: Tag.squash_from "" ops) (edited, idx))
          with (Tag.run_ops subword false (o :: Tag.squash_from "" ops)
                  (edited ++ ins, idx)).
        cbn [Tag.run_ops].
        rewrite Hstep.
        destruct (Tag.op_step subword false o ops (edited ++ ins, idx));
          [apply Htail | reflexivity]. }
    destruct o as [| | | | | |p|p|p]; try exact Hother.
    cbn [Tag.squash_from Tag.run_ops Tag.op_step bind].
    rewrite (IH H (ins ++ p) edited idx first).
    + now rewrite append_assoc.
    + left. intros E. apply append_eq_nil in E as [_ E].
      now apply (strict_insert_nonempty p ops).
Qed.

Lemma run_ops_squash_top (subword : string) (ops : list Tag.op) :
  Tag.strict ops = true ->
  Tag.run_ops subword true (Tag.squash ops) ("", 0)
  = Tag.run_ops subword true ops ("", 0).
Proof.
  intros H. unfold Tag.squash. destruct ops as [|o ops]; [reflexivity|].
  pose proof H as Hall. apply strict_cons in H as [Ho H].
  assert (Htail : forall st,
    Tag.run_ops subword false (Tag.squash_from "" ops) st
    = Tag.run_ops subword false ops st).
  { intros [e i]. rewrite (run_ops_squash subword ops H "" e i false) by auto.
    now rewrite append_nil_r. }
  destruct o as [| | | | | |p|p|p];
    try (cbn [Tag.squash_from Tag.flush String.eqb app Tag.run_ops];
         rewrite (op_step_rest _ _ _ _ ops) by apply fixed_count_squash;
         destruct (Tag.op_step subword true _ ops ("", 0));
         [apply Htail | reflexivity]).
  cbn [Tag.squash_from Tag.run_ops Tag.op_step bind append].
  rewrite (run_ops_squash subword ops H p "" 0 true); [reflexivity|].
  left. now apply (strict_insert_nonempty p ops).
Qed.

Lemma squash_from_nonempty (ops : list Tag.op) (ins : string) :
  ins <> "" ->
  exists q l, Tag.squash_from ins ops = Tag.Insert q :: l.
Proof.
  revert ins; induction ops as [|o ops IH]; intros ins H.
  - exists ins, []. apply flush_nonempty, H.
  - destruct o as [| | | | | |p|p|p];
      try (cbn [Tag.squash_from]; rewrite (flush_nonempty _ H); simpl; eauto).
    cbn [Tag.squash_from]. apply IH. intros E.
    now apply append_eq_nil in E as [E _].
Qed.

(** Merging insertions keeps the first character of the tag. *)
Lemma take1_squash (ops : list Tag.op) :
  Tag.strict ops = true ->
  take 1 (Tag.render (Tag.squash ops)) = take 1 (Tag.render ops).
Proof.
  intros H. destruct ops as [|o ops]; [reflexivity|]. unfold Tag.squash.
  destruct o as [| | | | | |p|p|p];
    try (cbn [Tag.squash_from Tag.flush String.eqb app];
         rewrite !render_cons; reflexivity).
  cbn [Tag.squash_from append].
  destruct (squash_from_nonempty ops p) as (q & l & ->).
  - now apply (strict_insert_nonempty p ops).
  - rewrite !render_cons. reflexivity.
Qed.

(** ... and its first two characters. *)
Lemma take2_squash (ops : list Tag.op) :
  Tag.strict ops = true ->
  take 2 (Tag.render (Tag.squash ops)) = take 2 (Tag.render ops).
Proof.
  intros H. destruct ops as [|o ops]; [reflexivity|].
  pose proof H as Hall. apply strict_cons in H as [Ho H]. unfold Tag.squash.
  destruct o as [| | | | | |p|p|p];
    try (cbn [Tag.squash_from Tag.flush String.eqb app];
         rewrite !render_cons; cbn [Tag.render_op append take];
         try reflexivity; f_equal; apply take1_squash; assumption).
  cbn [Tag.squash_from append].
  destruct (squash_from_nonempty ops p) as (q & l & ->).
  - now apply (strict_insert_nonempty p ops).
  - rewrite !render_cons. reflexivity.
Qed.

Lemma eqb_K_take2 (s : string) : (s =? "K") = (take 2 s =? "K").
Proof. destruct s as [|a [|b s]]; reflexivity. Qed.

Lemma startswith2_take2 (a b : ascii) (s : string) :
  startswith (String a (String b "")) s
  = (take 2 s =? String a (String b "")).
Proof.
  destruct s as [|x [|y s]]; try reflexivity.
  - simpl. rewrite (Ascii.eqb_sym a x).
    destruct (Ascii.eqb x a); reflexivity.
  - simpl. rewrite (Ascii.eqb_sym a x), (Ascii.eqb_sym b y).
    destruct (Ascii.eqb x a), (Ascii.eqb y b); reflexivity.
Qed.

(** *** The append path *)

Lemma bracket_op_no_open (x c : ascii) (p r : string) :
  char_in "[" (String c p) = false ->
  Re.bracket_op x (String c (p ++ String "]" r)) = None.
Proof.
  intros H. cbn [char_in] in H.
  apply orb_false_iff in H as [_ H].
  destruct p as [|u [|b p]].
  - destruct r; simpl; [reflexivity|]. now rewrite andb_false_r.
  - simpl. now rewrite andb_false_r.
  - cbn [char_in] in H. apply orb_false_iff in H as [_ H].
    apply orb_false_iff in H as [H _].
    rewrite Ascii.eqb_sym in H. simpl. now rewrite H, andb_false_r.
Qed.

Lemma findall_append_text (p r : string) :
  char_in "[" p = false ->
  Re.findall Re.append_re (p ++ String "]" r) = Re.findall Re.append_re r.
Proof.
  induction p as [|c p IH]; intros H.
  - apply findall_nomatch. now apply bracket_op_other.
  - cbn [append]. rewrite findall_nomatch.
    + apply IH. cbn [char_in] in H. now apply orb_false_iff in H as [_ H].
    + now apply bracket_op_no_open.
Qed.

Lemma findall_append_bracket (x : ascii) (p r : string) :
  Ascii.eqb x "A" = false ->
  char_in "[" p = false ->
  Re.findall Re.append_re (String x (String "_" (String "[" (p ++ String "]" r))))
  = Re.findall Re.append_re r.
Proof.
  intros Hx Hp.
  rewrite !findall_nomatch by (now apply bracket_op_other).
  now apply findall_append_text.
Qed.

Lemma strict_text (p : string) :
  Tag.plain_text p && negb (char_in "[" p) = true ->
  Tag.plain_text p = true /\ char_in "[" p = false.
Proof.
  intros H. apply andb_true_iff in H as [H1 H2].
  now apply negb_true_iff in H2.
Qed.

(** The pattern of [_apply_append] finds the appends of a strict tag and
    nothing else. *)
Lemma findall_append_render (ops : list Tag.op) :
  Tag.strict ops = true ->
  Re.findall Re.append_re (Tag.render ops)
  = map Tag.render_op (filter Tag.is_append ops).
Proof.
  induction ops as [|o ops IH]; intros H; [reflexivity|].
  apply strict_cons in H as [Ho H]. specialize (IH H).
  pose proof (render_clean_head ops) as [Hb _].
  rewrite render_cons.
  destruct o as [| | | | | |p|p|p]; cbn [Tag.render_op filter Tag.is_append];
    cbn [Tag.strict_op] in Ho.
  1-4: change (String ?c "" ++ Tag.render ops) with (String c (Tag.render ops));
       rewrite findall_nomatch by (now apply bracket_op_other); exact IH.
  - change ("K*" ++ Tag.render ops)
      with (String "K" (String "*" (Tag.render ops))).
    rewrite !findall_nomatch by (now apply bracket_op_other). exact IH.
  - change ("D*" ++ Tag.render ops)
      with (String "D" (String "*" (Tag.render ops))).
    rewrite !findall_nomatch by (now apply bracket_op_other). exact IH.
  - apply andb_true_iff in Ho as [Ho _]. apply strict_text in Ho as [Hp Ho].
    change ("I_[" ++ p ++ "]")
      with (String "I" (String "_" (String "[" (p ++ "]")))).
    rewrite bracket_text, findall_append_bracket; auto.
  - apply strict_text in Ho as [Hp Ho].
    change ("R_[" ++ p ++ "]")
      with (String "R" (String "_" (String "[" (p ++ "]")))).
    rewrite bracket_text, findall_append_bracket; auto.
  - apply strict_text in Ho as [Hp Ho]. cbn [map].
    rewrite findall_token, IH; [reflexivity | discriminate |].
    change ("A_[" ++ p ++ "]")
      with (String "A" (String "_" (String "[" (p ++ "]")))).
    rewrite bracket_text. now apply bracket_op_plain.
Qed.

Lemma filter_append_flush (ins : string) :
  filter Tag.is_append (Tag.flush ins) = [].
Proof. unfold Tag.flush. now destruct (ins =? ""). Qed.

Lemma filter_append_squash (ops : list Tag.op) (ins : string) :
  filter Tag.is_append (Tag.squash_from ins ops) = filter Tag.is_append ops.
Proof.
  revert ins; induction ops as [|o ops IH]; intros ins.
  - apply filter_append_flush.
  - destruct o; cbn [Tag.squash_from];
      try (rewrite filter_app, filter_append_flush; simpl; now rewrite IH).
    apply IH.
Qed.

Lemma squash_from_strict (ops : list Tag.op) (ins : string) :
  Tag.strict ops = true ->
  ins = "" \/ Tag.strict_op (Tag.Insert ins) = true ->
  Tag.strict (Tag.squash_from ins ops) = true.
Proof.
  revert ins; induction ops as [|o ops IH]; intros ins H Hi.
  - cbn [Tag.squash_from]. unfold Tag.flush.
    destruct (ins =? "") eqn:E; [reflexivity|].
    destruct Hi as [-> | Hi]; [discriminate|].
    unfold Tag.strict. cbn [forallb]. now rewrite Hi.
  - apply strict_cons in H as [Ho H].
    assert (Hrest : Tag.strict
                      (Tag.flush ins ++ o :: Tag.squash_from "" ops)%list = true).
    { unfold Tag.strict. rewrite forallb_app. cbn [forallb].
      fold (Tag.strict (Tag.squash_from "" ops)).
      rewrite Ho, (IH "" H) by auto. rewrite andb_true_r.
      unfold Tag.flush. destruct (ins =? "") eqn:E; [reflexivity|].
      destruct Hi as [-> | Hi]; [discriminate|].
      cbn [forallb]. now rewrite Hi. }
    destruct o as [| | | | | |p|p|p]; try exact Hrest.
    cbn [Tag.squash_from]. apply IH; [exact H|]. right.
    cbn [Tag.strict_op] in *.
    apply andb_true_iff in Ho as [Ho Hne]. apply strict_text in Ho as [Hp Ho].
    assert (Hins : Tag.plain_text ins = true /\ char_in "[" ins = false).
    { destruct Hi as [-> | Hi]; [split; reflexivity|].
      apply andb_true_iff in Hi as [Hi _]. now apply strict_text in Hi. }
    destruct Hins as [Hip Hio].
    rewrite plain_text_app, char_in_app, Hp, Ho, Hip, Hio. simpl.
    apply negb_true_iff, String.eqb_neq. intros E.
    apply append_eq_nil in E as [_ ->]. discriminate.
Qed.

(** C10, as amended: for every tag that is a concatenation of operations
    of the tag grammar whose texts hold no bracket and no line break and
    whose insertions are not empty, and for every piece, applying the
    compressed tag gives what applying the tag gives, the same text or the
    same fault. *)
Theorem compress_preserves_apply (ops : list Tag.op)
    (subword raw_subword piece : string) :
  Tag.strict ops = true ->
  SubwordEdit.apply
    (SubwordEdit.mk subword raw_subword (compress_edit (Tag.render ops))) piece
  = SubwordEdit.apply
      (SubwordEdit.mk subword raw_subword (Tag.render ops)) piece.
Proof.
  intros H. pose proof (strict_well_formed ops H) as Hwf.
  rewrite compress_edit_from, (compress_from_render ops "" Hwf).
  fold (Tag.squash ops).
  assert (Hs : Tag.strict (Tag.squash ops) = true)
    by (apply squash_from_strict; auto).
  pose proof (strict_well_formed _ Hs) as Hswf.
  unfold SubwordEdit.apply, SubwordEdit._apply_append.
  cbn [SubwordEdit.edit].
  rewrite (eqb_K_take2 (Tag.render (Tag.squash ops))).
  rewrite !(startswith2_take2 _ _ (Tag.render (Tag.squash ops))).
  rewrite (take2_squash ops H).
  rewrite <- (eqb_K_take2 (Tag.render ops)).
  rewrite <- !(startswith2_take2 _ _ (Tag.render ops)).
  rewrite !findall_append_render by assumption.
  unfold Tag.squash at 1 2. rewrite !filter_append_squash.
  rewrite !findall_char_edits, !apply_char_edits_ops by assumption.
  now rewrite run_ops_squash_top.
Qed.

Lemma compress_preserves_apply_witness :
  Tag.strict [Tag.KeepRun; Tag.Insert "x"; Tag.Insert "y"; Tag.Replace "z"]
  = true
  /\ SubwordEdit.apply
       (SubwordEdit.mk "##abc" "abc" (compress_edit "K*I_[x]I_[y]R_[z]"))
       "##abc"
     = SubwordEdit.apply
         (SubwordEdit.mk "##abc" "abc" "K*I_[x]I_[y]R_[z]") "##abc".
Proof.
  split; [reflexivity|].
  apply (compress_preserves_apply
           [Tag.KeepRun; Tag.Insert "x"; Tag.Insert "y"; Tag.Replace "z"]).
  reflexivity.
Defined.

(** C10 as stated fails: compression drops the empty insertion of
    ["KI_[]"] and leaves the whole-piece tag ["K"], which keeps both
    characters of ["ab"] where the tag itself keeps one. *)
Lemma compress_preserves_apply_counterexample :
  compress_edit "KI_[]" = "K"
  /\ apply_tag "KI_[]" "ab" = Ok "a"
  /\ apply_tag (compress_edit "KI_[]") "ab" = Ok "ab"
  /\ apply_tag (compress_edit "KI_[]") "ab" <> apply_tag "KI_[]" "ab".
Proof. repeat split. discriminate. Qed.

(** ** The encoder writes the text of operations *)

Lemma render_nil : Tag.render [] = "".
Proof. reflexivity. Qed.

Lemma repeat_str_render (o : Tag.op) (n : nat) :
  repeat_str (Tag.render_op o) n = Tag.render (repeat o n).
Proof.
  induction n as [|n IH]; [reflexivity|].
  cbn [repeat_str repeat]. now rewrite render_cons, IH.
Qed.

Lemma join_map_render {A} (f : A -> string) (g : A -> Tag.op) (l : list A) :
  (forall x, f x = Tag.render_op (g x)) ->
  join (map f l) = Tag.render (map g l).
Proof.
  intros H. unfold Tag.render. rewrite map_map. f_equal.
  apply map_ext. exact H.
Qed.

Lemma render_concat (gs : list (list Tag.op)) :
  join (map Tag.render gs) = Tag.render (List.concat gs).
Proof.
  induction gs as [|g gs IH]; [reflexivity|].
  cbn [map List.concat]. now rewrite join_cons, render_app, IH.
Qed.

Lemma replace_scan_render (src tgt edit : string) :
  replace_scan src tgt edit
  = let '(ops, sr, tr) := Tag.scan_ops src tgt in
    (edit ++ Tag.render ops, sr, tr).
Proof.
  revert tgt edit; induction src as [|c src IH]; intros tgt edit.
  - destruct tgt; simpl; now rewrite append_nil_r.
  - destruct tgt as [|t tgt]; [simpl; now rewrite append_nil_r|].
    cbn [replace_scan Tag.scan_ops].
    destruct (negb (Ascii.eqb c " ")).
    + rewrite IH. destruct (Tag.scan_ops src tgt) as [[ops sr] tr].
      rewrite render_cons. cbn [Tag.render_op]. now rewrite !append_assoc.
    + rewrite IH. destruct (Tag.scan_ops src (String t tgt)) as [[ops sr] tr].
      rewrite render_cons. cbn [Tag.render_op]. now rewrite !append_assoc.
Qed.

Lemma get_edits_render (src tgt : string) :
  get_edits src tgt = (ops <- Tag.get_edits_ops src tgt ;; Ok (Tag.render ops)).
Proof.
  unfold get_edits, Tag.get_edits_ops.
  destruct (tgt =? ""); [simpl; now rewrite <- repeat_str_render|].
  destruct (contains tgt src).
  { simpl. f_equal. apply join_map_render. intros c.
    now destruct (negb (char_in c tgt)). }
  destruct (_ && _).
  { simpl. f_equal. apply join_map_render. intros c.
    now destruct (Ascii.eqb c " "). }
  rewrite replace_scan_render.
  destruct (Tag.scan_ops src tgt) as [[ops sr] tr].
  destruct (tr =? ""); [|reflexivity]. simpl.
  rewrite render_app, <- repeat_str_render. cbn [Tag.render_op].
  destruct sr; simpl; [now rewrite append_nil_r | reflexivity].
Qed.

Lemma sequence_ok {A B} (f : A -> B) (l : list A) :
  sequence (map (fun x => Ok (f x)) l) = Ok (map f l).
Proof.
  induction l as [|a l IH]; [reflexivity|]. simpl. now rewrite IH.
Qed.

Lemma getitem_succ (c : ascii) (s : string) (i : nat) :
  getitem (String c s) (S i) = getitem s i.
Proof. reflexivity. Qed.

(** Reading two strings by index over [range(len(src))] is reading them
    in step. *)
Lemma index_map2 {X} (F : res ascii -> res ascii -> X) (src tgt : string) :
  String.length src <= String.length tgt ->
  map (fun i => F (getitem src i) (getitem tgt i)) (range (String.length src))
  = map (fun '(s, t) => F (Ok s) (Ok t)) (combine (chars src) (chars tgt)).
Proof.
  unfold range. revert tgt; induction src as [|a src IH]; intros tgt H;
    [reflexivity|].
  destruct tgt as [|b tgt]; [simpl in H; lia|].
  cbn [String.length seq map chars list_ascii_of_string combine].
  f_equal. rewrite <- seq_shift, map_map.
  specialize (IH tgt). unfold chars in IH. rewrite <- IH by (simpl in H; lia).
  apply map_ext. intros i. now rewrite !getitem_succ.
Qed.

Lemma index_map1 {X} (G : res ascii -> X) (n : nat) (tgt : string) :
  n <= String.length tgt ->
  map (fun i => G (getitem tgt i)) (range n)
  = map (fun t => G (Ok t)) (chars (take n tgt)).
Proof.
  unfold range. revert tgt; induction n as [|n IH]; intros tgt H;
    [reflexivity|].
  destruct tgt as [|b tgt]; [simpl in H; lia|].
  cbn [seq map take chars list_ascii_of_string].
  f_equal. rewrite <- seq_shift, map_map.
  specialize (IH tgt). unfold chars in IH. rewrite <- IH by (simpl in H; lia).
  apply map_ext. intros i. now rewrite !getitem_succ.
Qed.

Lemma index_out_of_range {B} (f : ascii -> B) (n : nat) (tgt : string) :
  String.length tgt < n ->
  sequence (map (fun i => t <- getitem tgt i ;; Ok (f t)) (range n))
  = Raise IndexError.
Proof.
  unfold range. revert n; induction tgt as [|b tgt IH]; intros n H.
  - destruct n; [lia|]. reflexivity.
  - destruct n; [simpl in H; lia|].
    cbn [seq map sequence]. rewrite <- seq_shift, map_map.
    rewrite (map_ext _ (fun i => t <- getitem tgt i ;; Ok (f t)))
      by (intros i; now rewrite getitem_succ).
    rewrite IH by (simpl in H; lia). reflexivity.
Qed.

Lemma replacments_render (src tgt : string) :
  Edit._replacments src tgt
  = (ops <- Tag.replacments_ops src tgt ;; Ok (Tag.render ops)).
Proof.
  unfold Edit._replacments, Tag.replacments_ops.
  destruct (String.length tgt =? 1)%nat; [reflexivity|].
  destruct (String.length src =? String.length tgt)%nat eqn:El.
  - apply Nat.eqb_eq in El.
    rewrite (index_map2
               (fun rs rt =>
                  s <- rs ;; t <- rt ;;
                  if Ascii.eqb s " "
                  then Ok ("M" ++ "I_[" ++ str t ++ "]")
                  else Ok ("R_[" ++ str t ++ "]")))
      by lia.
    rewrite (map_ext _
               (fun st => Ok (Tag.render
                  (let '(s, t) := st in
                   if Ascii.eqb s " "
                   then [Tag.Merge; Tag.Insert (str t)]
                   else [Tag.Replace (str t)])))).
    2:{ intros [s t]. cbn [bind]. now destruct (Ascii.eqb s " "). }
    rewrite sequence_ok. cbn [bind]. f_equal.
    rewrite flat_map_concat_map, <- render_concat, map_map. reflexivity.
  - destruct (String.length tgt <? String.length src)%nat eqn:Elt.
    + apply Nat.ltb_lt in Elt. now rewrite index_out_of_range.
    + apply Nat.ltb_ge in Elt.
      rewrite (index_map1 (fun rt => t <- rt ;; Ok ("R_[" ++ str t ++ "]")))
        by assumption.
      cbn [bind]. rewrite sequence_ok. cbn [bind]. f_equal.
      rewrite render_app. f_equal; now apply join_map_render.
Qed.

Lemma detailed_group_render (src tgt : string) :
  Edit.detailed_group src tgt
  = (ops <- Tag.group_ops src tgt ;; Ok (Tag.render ops)).
Proof.
  unfold Edit.detailed_group, Tag.group_ops.
  destruct (src =? tgt).
  { destruct (src =? " "); [reflexivity|]. simpl.
    now rewrite <- repeat_str_render. }
  destruct (_ && _); [reflexivity|].
  destruct (_ && _); [reflexivity|].
  destruct (_ && _).
  { simpl. f_equal. apply join_map_render. intros c.
    now destruct (negb (Ascii.eqb c " ")). }
  destruct (_ && _); [reflexivity|].
  destruct (_ <? _)%nat; [apply get_edits_render | apply replacments_render].
Qed.

Lemma sequence_render (l : list (string * string)) :
  sequence (map (fun '(s, t) => Edit.detailed_group s t) l)
  = (gs <- sequence (map (fun '(s, t) => Tag.group_ops s t) l) ;;
     Ok (map Tag.render gs)).
Proof.
  induction l as [|[s t] l IH]; [reflexivity|].
  cbn [map sequence]. rewrite detailed_group_render, IH.
  destruct (Tag.group_ops s t); [|reflexivity]. cbn [bind].
  now destruct (sequence (map (fun '(s0, t0) => Tag.group_ops s0 t0) l)).
Qed.

Lemma generate_detailed_edit_render (S T : list string) :
  Edit._generate_detailed_edit S T
  = (ops <- Tag.detailed_ops S T ;; Ok (Tag.render ops)).
Proof.
  unfold Edit._generate_detailed_edit, Tag.detailed_ops.
  rewrite sequence_render.
  destruct (sequence (map (fun '(s, t) => Tag.group_ops s t) (combine S T)));
    [|reflexivity].
  cbn [bind].
  now rewrite render_concat.
Qed.

(** ** Well-formedness and width of the encoder's operations *)


Lemma plain_char (tgt : string) (t : ascii) :
  Tag.plain_text tgt = true -> In t (chars tgt) ->
  Tag.plain_text (str t) = true.
Proof.
  induction tgt as [|c tgt IH]; intros H Hin; [destruct Hin|].
  change (String c tgt) with (str c ++ tgt) in H.
  rewrite plain_text_app in H. apply andb_true_iff in H as [Hc H].
  destruct Hin as [-> | Hin]; auto.
Qed.

Lemma plain_take (n : nat) (tgt : string) :
  Tag.plain_text tgt = true -> Tag.plain_text (take n tgt) = true.
Proof.
  revert n; induction tgt as [|c tgt IH]; intros [|n] H; try reflexivity.
  change (String c tgt) with (str c ++ tgt) in H.
  rewrite plain_text_app in H. apply andb_true_iff in H as [Hc H].
  cbn [take]. change (String c (take n tgt)) with (str c ++ take n tgt).
  now rewrite plain_text_app, Hc, IH.
Qed.

Lemma plain_drop (n : nat) (tgt : string) :
  Tag.plain_text tgt = true -> Tag.plain_text (drop n tgt) = true.
Proof.
  revert n; induction tgt as [|c tgt IH]; intros [|n] H; auto.
  change (String c tgt) with (str c ++ tgt) in H.
  rewrite plain_text_app in H. apply andb_true_iff in H as [Hc H].
  cbn [drop]. now apply IH.
Qed.

Lemma well_formed_app (l1 l2 : list Tag.op) :
  Tag.well_formed (l1 ++ l2)%list
  = Tag.well_formed l1 && Tag.well_formed l2.
Proof. apply forallb_app. Qed.

Lemma well_formed_repeat (o : Tag.op) (n : nat) :
  Tag.plain_op o = true -> Tag.well_formed (repeat o n) = true.
Proof. intros H. induction n; simpl; [reflexivity | now rewrite H]. Qed.

Lemma well_formed_map {A} (f : A -> Tag.op) (l : list A) :
  (forall x, In x l -> Tag.plain_op (f x) = true) ->
  Tag.well_formed (map f l) = true.
Proof.
  intros H. apply forallb_forall. intros o Ho.
  apply in_map_iff in Ho as (x & <- & Hx). now apply H.
Qed.

Lemma well_formed_flat_map {A} (f : A -> list Tag.op) (l : list A) :
  (forall x, In x l -> Tag.well_formed (f x) = true) ->
  Tag.well_formed (flat_map f l) = true.
Proof.
  intros H. induction l as [|a l IH]; [reflexivity|].
  cbn [flat_map]. rewrite well_formed_app, H, IH; auto using in_eq.
  intros x Hx. apply H. now right.
Qed.

Lemma scan_ops_well_formed (src tgt : string) :
  Tag.plain_text tgt = true ->
  Tag.well_formed (fst (fst (Tag.scan_ops src tgt))) = true.
Proof.
  revert tgt; induction src as [|c src IH]; intros tgt H.
  - now destruct tgt.
  - destruct tgt as [|t tgt]; [reflexivity|].
    cbn [Tag.scan_ops]. destruct (negb (Ascii.eqb c " ")).
    + change (String t tgt) with (str t ++ tgt) in H.
      rewrite plain_text_app in H. apply andb_true_iff in H as [Ht H].
      specialize (IH tgt H).
      destruct (Tag.scan_ops src tgt) as [[ops sr] tr]. simpl in *.
      now rewrite Ht.
    + specialize (IH (String t tgt) H).
      destruct (Tag.scan_ops src (String t tgt)) as [[ops sr] tr]. exact IH.
Qed.

Lemma get_edits_ops_well_formed (src tgt : string) (ops : list Tag.op) :
  Tag.plain_text tgt = true ->
  Tag.get_edits_ops src tgt = Ok ops ->
  Tag.well_formed ops = true.
Proof.
  intros Hp. unfold Tag.get_edits_ops.
  destruct (tgt =? "").
  { intros [= <-]. now apply well_formed_repeat. }
  destruct (contains tgt src).
  { intros [= <-]. apply well_formed_map. intros c _.
    now destruct (negb (char_in c tgt)). }
  destruct (_ && _).
  { intros [= <-]. apply well_formed_map. intros c _.
    destruct (Ascii.eqb c " "); [reflexivity|].
    change (Tag.plain_text (take 1 tgt) = true). now apply plain_take. }
  pose proof (scan_ops_well_formed src tgt Hp) as Hs.
  destruct (Tag.scan_ops src tgt) as [[o sr] tr]. simpl in Hs.
  destruct (tr =? ""); [|discriminate]. intros [= <-].
  rewrite well_formed_app, Hs. now apply well_formed_repeat.
Qed.

Lemma replacments_ops_well_formed (src tgt : string) (ops : list Tag.op) :
  Tag.plain_text tgt = true ->
  Tag.replacments_ops src tgt = Ok ops ->
  Tag.well_formed ops = true.
Proof.
  intros Hp. unfold Tag.replacments_ops.
  destruct (_ =? 1)%nat.
  { intros [= <-]. simpl. now rewrite Hp. }
  destruct (_ =? _)%nat.
  { intros [= <-]. apply well_formed_flat_map. intros [s t] Hin.
    apply in_combine_r in Hin. pose proof (plain_char _ _ Hp Hin) as Ht.
    destruct (Ascii.eqb s " "); simpl; now rewrite Ht. }
  destruct (_ <? _)%nat; [discriminate|]. intros [= <-].
  rewrite well_formed_app. apply andb_true_iff. split;
    apply well_formed_map; intros t Hin; cbn [Tag.plain_op].
  - apply (plain_char (take (String.length src) tgt)); auto using plain_take.
  - apply (plain_char (drop (String.length src) tgt)); auto using plain_drop.
Qed.

Lemma group_ops_well_formed (src tgt : string) (ops : list Tag.op) :
  Tag.plain_text tgt = true ->
  Tag.group_ops src tgt = Ok ops ->
  Tag.well_formed ops = true.
Proof.
  intros Hp. unfold Tag.group_ops.
  destruct (src =? tgt).
  { intros [= <-]. destruct (src =? " "); [reflexivity|].
    now apply well_formed_repeat. }
  destruct (_ && _); [now intros [= <-]|].
  destruct (_ && _); [intros [= <-]; simpl; now rewrite Hp|].
  destruct (_ && _).
  { intros [= <-]. apply well_formed_map. intros c _.
    now destruct (negb (Ascii.eqb c " ")). }
  destruct (_ && _); [intros [= <-]; simpl; now rewrite Hp|].
  destruct (_ <? _)%nat;
    eauto using get_edits_ops_well_formed, replacments_ops_well_formed.
Qed.

Lemma detailed_ops_well_formed (S T : list string) (ops : list Tag.op) :
  forallb Tag.plain_text T = true ->
  Tag.detailed_ops S T = Ok ops ->
  Tag.well_formed ops = true.
Proof.
  unfold Tag.detailed_ops. revert T ops.
  induction S as [|s S IH]; intros T ops HT; [now intros [= <-]|].
  destruct T as [|t T]; [now intros [= <-]|].
  cbn [forallb] in HT. apply andb_true_iff in HT as [Ht HT].
  cbn [combine map sequence].
  destruct (Tag.group_ops s t) as [g|] eqn:Eg; [|discriminate].
  cbn [bind]. specialize (IH T).
  destruct (sequence _) as [gs|]; [|discriminate].
  cbn [bind]. intros [= <-]. cbn [List.concat].
  rewrite well_formed_app, (group_ops_well_formed _ _ _ Ht Eg).
  now apply IH.
Qed.

Lemma width_app (l1 l2 : list Tag.op) :
  Tag.width (l1 ++ l2)%list = Tag.width l1 + Tag.width l2.
Proof. unfold Tag.width. now rewrite map_app, list_sum_app. Qed.




Lemma take_length (n : nat) (s : string) :
  n <= String.length s -> String.length (take n s) = n.
Proof.
  revert n; induction s as [|c s IH]; intros [|n] H; simpl in *; try lia.
  rewrite IH; lia.
Qed.








(** ** What the applicability check counts *)

Lemma consumes_nothing_render (o : Tag.op) :
  Tag.plain_op o = true ->
  fixed_op o = true ->
  negb (SubwordEdit.consumes_nothing (Tag.render_op o)) = counted_op o.
Proof. destruct o; intros _ H; try reflexivity; discriminate. Qed.

Lemma counted_tokens (ops : list Tag.op) :
  Tag.well_formed ops = true ->
  forallb fixed_op ops = true ->
  filter (fun e => negb (SubwordEdit.consumes_nothing e))
         (map Tag.render_op ops)
  = map Tag.render_op (filter counted_op ops).
Proof.
  induction ops as [|o ops IH]; intros H Hf; [reflexivity|].
  apply well_formed_cons in H as [Ho H].
  cbn [forallb] in Hf. apply andb_true_iff in Hf as [Hfo Hf].
  cbn [map filter]. rewrite (consumes_nothing_render o Ho Hfo), (IH H Hf).
  now destruct (counted_op o).
Qed.

Lemma applicable_loop_counted (_subword : string) (n k idx : nat)
    (ops : list Tag.op) :
  forallb counted_op ops = true ->
  SubwordEdit.applicable_loop _subword n
    (combine (seq k (List.length ops)) (map Tag.render_op ops)) idx
  = idx + List.length ops.
Proof.
  revert k idx; induction ops as [|o ops IH]; intros k idx H;
    [simpl; lia|].
  cbn [forallb] in H. apply andb_true_iff in H as [Ho H].
  cbn [List.length seq map combine SubwordEdit.applicable_loop].
  assert (E : startswith "R" (Tag.render_op o)
              || SubwordEdit.is_one_of (Tag.render_op o) ["K"; "D"] = true)
    by (destruct o; try discriminate; reflexivity).
  rewrite E, (IH (S k) (idx + 1) H). lia.
Qed.

Lemma forallb_filter_same {A} (f : A -> bool) (l : list A) :
  forallb f (filter f l) = true.
Proof.
  induction l as [|a l IH]; [reflexivity|].
  simpl. destruct (f a) eqn:E; simpl; now rewrite ?E.
Qed.

(** On a tag made of K, D, M, I_[..], R_[..] and A_[..] operations, other
    than the tags K and KA.., [is_applicable] answers whether the piece,
    without its marker, has as many characters as the tag has K, D and R
    operations. *)
Lemma is_applicable_counts (ops : list Tag.op)
    (subword raw_subword piece : string) :
  Tag.well_formed ops = true ->
  forallb fixed_op ops = true ->
  (Tag.render ops =? "K") || startswith "KA" (Tag.render ops) = false ->
  SubwordEdit.is_applicable
    (SubwordEdit.mk subword raw_subword (Tag.render ops)) piece
  = (String.length (remove_marker piece)
     =? List.length (filter counted_op ops))%nat.
Proof.
  intros H Hf Hk.
  unfold SubwordEdit.is_applicable, SubwordEdit.applicable_tokens.
  cbn [SubwordEdit.edit]. rewrite Hk.
  rewrite (findall_char_edits ops H), (counted_tokens ops H Hf).
  unfold enumerate. rewrite !length_map.
  rewrite applicable_loop_counted by apply forallb_filter_same.
  cbn [Nat.add].
  destruct (Nat.ltb_spec (String.length (remove_marker piece))
                         (List.length (filter counted_op ops)));
    destruct (Nat.ltb_spec (List.length (filter counted_op ops))
                           (String.length (remove_marker piece)));
    destruct (Nat.eqb_spec (String.length (remove_marker piece))
                           (List.length (filter counted_op ops)));
    try reflexivity; lia.
Qed.

Lemma list_eqb_spec (l1 l2 : list string) :
  list_eqb l1 l2 = true <-> l1 = l2.
Proof.
  revert l2; induction l1 as [|a l1 IH]; intros [|b l2]; simpl;
    try (split; [discriminate | congruence]); [tauto|].
  rewrite andb_true_iff, IH, String.eqb_eq. split.
  - now intros [-> ->].
  - now intros [= -> ->].
Qed.





(** ** The round trip *)

Lemma produces_app (o1 o2 : list Tag.op) (s1 s2 t1 t2 : string) :
  Tag.produces o1 s1 t1 ->
  Tag.produces o2 s2 t2 ->
  Tag.produces (o1 ++ o2)%list (s1 ++ s2) (t1 ++ t2).
Proof.
  intros H1 H2. induction H1; cbn [app append]; try rewrite append_assoc;
    try (constructor; assumption). exact H2.
Qed.

Lemma produces_keep_all (src : string) :
  Tag.produces (repeat Tag.Keep (String.length src)) src src.
Proof. induction src; simpl; constructor; assumption. Qed.

Lemma produces_delete_all (src : string) :
  Tag.produces (repeat Tag.Delete (String.length src)) src "".
Proof. induction src; simpl; constructor; assumption. Qed.

Lemma produces_insert_all (tgt : string) :
  Tag.produces (map (fun t => Tag.Insert (str t)) (chars tgt)) "" tgt.
Proof.
  induction tgt as [|t tgt IH]; [constructor|].
  simpl. change (String t tgt) with (str t ++ tgt). now constructor.
Qed.

Lemma clean_cons (c : ascii) (s : string) :
  clean_source (String c s) = true ->
  Ascii.eqb c " " = false /\ isspace c = false /\ clean_source s = true.
Proof.
  unfold clean_source. cbn [chars list_ascii_of_string forallb].
  intros H. apply andb_true_iff in H as [Hc H].
  apply negb_true_iff in Hc. repeat split; auto.
  destruct (Ascii.eqb_spec c " ") as [-> | _]; [discriminate | reflexivity].
Qed.

Lemma produces_delete_map (src : string) :
  clean_source src = true ->
  Tag.produces
    (map (fun c => if negb (Ascii.eqb c " ") then Tag.Delete else Tag.Merge)
         (chars src))
    src "".
Proof.
  induction src as [|c src IH]; intros H; [constructor|].
  apply clean_cons in H as (Hc & _ & H).
  cbn [chars list_ascii_of_string map]. rewrite Hc. cbn [negb].
  constructor. now apply IH.
Qed.

Lemma rstrip_clean (s : string) : clean_source s = true -> rstrip s = s.
Proof.
  induction s as [|c s IH]; intros H; [reflexivity|].
  apply clean_cons in H as (_ & Hc & H).
  cbn [rstrip]. rewrite (IH H), Hc. now destruct s.
Qed.

Lemma strip_clean (s : string) : clean_source s = true -> strip s = s.
Proof.
  intros H. unfold strip.
  assert (lstrip s = s) as ->.
  { destruct s as [|c s]; [reflexivity|].
    apply clean_cons in H as (_ & Hc & _). simpl. now rewrite Hc. }
  now apply rstrip_clean.
Qed.

(** On a source without spaces the scan replaces as long as the target
    lasts and the rest is deleted. *)
Lemma scan_produces (src tgt : string) :
  clean_source src = true ->
  String.length tgt <= String.length src ->
  exists ops sr,
    Tag.scan_ops src tgt = (ops, sr, "")
    /\ Tag.produces (ops ++ repeat Tag.Delete (String.length sr))%list src tgt.
Proof.
  revert tgt; induction src as [|c src IH]; intros tgt Hc Hl.
  - destruct tgt; [|simpl in Hl; lia]. exists [], "". split; constructor.
  - destruct tgt as [|t tgt].
    + exists [], (String c src). split; [reflexivity|].
      apply (produces_delete_all (String c src)).
    + apply clean_cons in Hc as (Hsp & _ & Hc).
      destruct (IH tgt Hc) as (ops & sr & E & Hp); [simpl in Hl; lia|].
      exists (Tag.Replace (str t) :: ops), sr.
      cbn [Tag.scan_ops]. rewrite Hsp, E. split; [reflexivity|].
      change (String t tgt) with (str t ++ tgt). now constructor.
Qed.

Lemma produces_replace_each (src tgt : string) :
  clean_source src = true ->
  String.length src = String.length tgt ->
  Tag.produces
    (flat_map (fun '(s, t) => if Ascii.eqb s " "
                              then [Tag.Merge; Tag.Insert (str t)]
                              else [Tag.Replace (str t)])
              (combine (chars src) (chars tgt)))
    src tgt.
Proof.
  revert tgt; induction src as [|c src IH]; intros [|t tgt] Hc Hl;
    try discriminate; [constructor|].
  apply clean_cons in Hc as (Hsp & _ & Hc).
  cbn [chars list_ascii_of_string combine flat_map]. rewrite Hsp.
  cbn [app]. change (String t tgt) with (str t ++ tgt).
  constructor. apply IH; [assumption | simpl in Hl; lia].
Qed.

Lemma produces_replace_insert (src tgt : string) :
  String.length src <= String.length tgt ->
  Tag.produces
    (map (fun t => Tag.Replace (str t)) (chars (take (String.length src) tgt))
     ++ map (fun t => Tag.Insert (str t))
            (chars (drop (String.length src) tgt)))%list
    src tgt.
Proof.
  revert tgt; induction src as [|c src IH]; intros tgt Hl.
  - destruct tgt; apply produces_insert_all.
  - destruct tgt as [|t tgt]; [simpl in Hl; lia|].
    cbn [String.length take drop chars list_ascii_of_string map app].
    change (String t tgt) with (str t ++ tgt).
    constructor. apply IH. simpl in Hl; lia.
Qed.

Lemma replacments_produces (src tgt : string) :
  clean_source src = true ->
  src <> "" ->
  String.length src <= String.length tgt ->
  exists ops, Tag.replacments_ops src tgt = Ok ops
              /\ Tag.produces ops src tgt.
Proof.
  intros Hc Hne Hl. unfold Tag.replacments_ops.
  destruct (String.length tgt =? 1)%nat eqn:E1.
  { apply Nat.eqb_eq in E1. eexists. split; [reflexivity|].
    destruct src as [|c [|d src]]; [congruence | | simpl in *; lia].
    rewrite <- (append_nil_r tgt) at 2. repeat constructor. }
  destruct (String.length src =? String.length tgt)%nat eqn:E2.
  { apply Nat.eqb_eq in E2. eexists. split; [reflexivity|].
    now apply produces_replace_each. }
  destruct (Nat.ltb_spec (String.length tgt) (String.length src)); [lia|].
  eexists. split; [reflexivity|]. now apply produces_replace_insert.
Qed.

Lemma group_produces (src tgt : string) :
  clean_source src = true ->
  shrinks_inside src tgt = false ->
  exists ops, Tag.group_ops src tgt = Ok ops /\ Tag.produces ops src tgt.
Proof.
  intros Hc Hin. unfold Tag.group_ops, shrinks_inside in *.
  assert (Hsp : (src =? " ") = false).
  { destruct (String.eqb_spec src " ") as [-> | _];
      [discriminate | reflexivity]. }
  rewrite Hsp. cbn [andb].
  destruct (String.eqb_spec src tgt) as [<- | Hst].
  { eexists. split; [reflexivity|]. apply produces_keep_all. }
  destruct (String.eqb_spec src "") as [-> | Hs];
    destruct (String.eqb_spec tgt "") as [-> | Ht]; cbn [andb negb] in *;
    try congruence.
  - eexists. split; [reflexivity|].
    rewrite <- (append_nil_r tgt) at 2. repeat constructor.
  - eexists. split; [reflexivity|]. now apply produces_delete_map.
  - destruct (Nat.ltb_spec (String.length tgt) (String.length src)) as [Hl|Hl].
    + unfold Tag.get_edits_ops.
      apply String.eqb_neq in Ht. rewrite Ht, Hin.
      rewrite (strip_clean src Hc).
      assert (Hone : (String.length src =? 1)%nat
                     && (String.length tgt =? 1)%nat = false).
      { destruct (Nat.eqb_spec (String.length src) 1);
          destruct (Nat.eqb_spec (String.length tgt) 1); auto; lia. }
      rewrite Hone.
      destruct (scan_produces src tgt Hc) as (ops & sr & E & Hp); [lia|].
      rewrite E. cbn [String.eqb assert bind]. eauto.
    + now apply replacments_produces.
Qed.

Lemma detailed_produces (S T : list string) :
  List.length S = List.length T ->
  forallb clean_source S = true ->
  forallb (fun '(s, t) => negb (shrinks_inside s t)) (combine S T) = true ->
  exists ops, Tag.detailed_ops S T = Ok ops
              /\ Tag.produces ops (join S) (join T).
Proof.
  unfold Tag.detailed_ops. revert T.
  induction S as [|s S IH]; intros [|t T] Hl Hc Hin; try discriminate.
  - exists []. split; [reflexivity | constructor].
  - cbn [forallb combine] in *.
    apply andb_true_iff in Hc as [Hs Hc].
    apply andb_true_iff in Hin as [Hst Hin]. apply negb_true_iff in Hst.
    destruct (group_produces s t Hs Hst) as (g & Eg & Hg).
    destruct (IH T) as (ops & E & Hp); auto.
    cbn [map sequence]. rewrite Eg. cbn [bind].
    destruct (sequence _) as [gs|]; [|discriminate].
    cbn [bind] in *. injection E as <-.
    exists (g ++ List.concat gs)%list. split; [reflexivity|].
    rewrite !join_cons. now apply produces_app.
Qed.

Lemma getitem_app (pre : string) (c : ascii) (s : string) :
  getitem (pre ++ String c s) (String.length pre) = Ok c.
Proof. induction pre as [|a pre IH]; [reflexivity | exact IH]. Qed.

(** The applier run on operations that produce [tgt] from [src] writes
    [tgt] and reads all of [src]. *)
Lemma run_ops_produces (ops : list Tag.op) (src tgt : string) :
  Tag.produces ops src tgt ->
  forall pre first edited,
    Tag.run_ops (pre ++ src) first ops (edited, String.length pre)
    = Ok (edited ++ tgt, String.length pre + String.length src).
Proof.
  induction 1 as [|c ops src tgt _ IH|c ops src tgt _ IH
                  |text ops src tgt _ IH|c text ops src tgt _ IH];
    intros pre first edited.
  - simpl. now rewrite append_nil_r, Nat.add_0_r.
  - cbn [Tag.run_ops Tag.op_step]. rewrite getitem_app. cbn [bind].
    specialize (IH (pre ++ str c) false (edited ++ str c)).
    rewrite !append_assoc, length_append in IH.
    unfold str in *. cbn [append String.length] in IH.
    rewrite IH. f_equal. f_equal. simpl. lia.
  - cbn [Tag.run_ops Tag.op_step bind].
    specialize (IH (pre ++ str c) false edited).
    rewrite !append_assoc, length_append in IH.
    unfold str in *. cbn [append String.length] in IH.
    rewrite IH. f_equal. f_equal. simpl. lia.
  - cbn [Tag.run_ops Tag.op_step bind].
    rewrite (IH pre false (edited ++ text)). now rewrite append_assoc.
  - cbn [Tag.run_ops Tag.op_step bind].
    specialize (IH (pre ++ str c) false (edited ++ text)).
    rewrite !append_assoc, length_append in IH.
    unfold str in *. cbn [append String.length] in IH.
    rewrite IH. f_equal. f_equal. simpl. lia.
Qed.

Lemma remove_marker_id (s : string) :
  contains "##" s = false -> remove_marker s = s.
Proof.
  induction s as [|c s IH]; intros H; [reflexivity|].
  cbn [contains] in H. apply orb_false_iff in H as [H1 H2].
  cbn [remove_marker]. destruct s as [|d s]; [reflexivity|].
  cbn [startswith] in H1. rewrite andb_true_r in H1.
  rewrite (Ascii.eqb_sym c "#"), (Ascii.eqb_sym d "#"), H1.
  f_equal. now apply IH.
Qed.

Lemma render_empty (ops : list Tag.op) : Tag.render ops = "" -> ops = [].
Proof.
  destruct ops as [|o ops]; [reflexivity|]. rewrite render_cons.
  intros H. apply append_eq_nil in H as [H _].
  now apply render_op_nonempty in H.
Qed.

Lemma produces_no_append_head (ops : list Tag.op) (src tgt : string) :
  Tag.produces ops src tgt -> startswith "A" (Tag.render ops) = false.
Proof. destruct 1; try rewrite render_cons; reflexivity. Qed.

Lemma produces_dispatch (ops : list Tag.op) (src tgt : string) :
  Tag.produces ops src tgt ->
  ((Tag.render ops =? "K") = true -> src = tgt)
  /\ startswith "KA" (Tag.render ops) = false
  /\ startswith "DA" (Tag.render ops) = false.
Proof.
  destruct 1 as [|c ops src tgt H|c ops src tgt H|text ops src tgt H
                 |c text ops src tgt H]; try rewrite render_cons;
    cbn [Tag.render_op]; repeat split; try discriminate; try reflexivity.
  - change ("K" ++ Tag.render ops =? "K") with (Tag.render ops =? "").
    intros E. apply String.eqb_eq, render_empty in E. subst ops.
    inversion H. reflexivity.
  - change (startswith "KA" ("K" ++ Tag.render ops))
      with (startswith "A" (Tag.render ops)).
    exact (produces_no_append_head _ _ _ H).
  - change (startswith "DA" ("D" ++ Tag.render ops))
      with (startswith "A" (Tag.render ops)).
    exact (produces_no_append_head _ _ _ H).
Qed.

(** A well-formed tag whose operations produce [tgt] from [src], applied
    to [src] as one piece, returns [tgt]. *)
Lemma apply_produces (ops : list Tag.op) (src tgt : string) :
  Tag.produces ops src tgt ->
  Tag.well_formed ops = true ->
  contains "##" src = false ->
  apply_tag (Tag.render ops) src = Ok tgt.
Proof.
  intros Hp Hwf Hm. unfold apply_tag, SubwordEdit.apply.
  cbn [SubwordEdit.edit].
  destruct (produces_dispatch ops src tgt Hp) as (HK & HKA & HDA).
  rewrite HKA, HDA.
  destruct (Tag.render ops =? "K") eqn:EK; [now rewrite HK|].
  rewrite (remove_marker_id src Hm), Hm.
  rewrite (findall_char_edits ops Hwf), (apply_char_edits_ops src ops Hwf).
  pose proof (run_ops_produces ops src tgt Hp "" true "") as E.
  cbn [append String.length] in E. rewrite E. reflexivity.
Qed.

Lemma apply_delete_word (s : string) :
  contains "##" s = false -> apply_tag "D" s = Ok "".
Proof.
  intros H. unfold apply_tag, SubwordEdit.apply. cbn [SubwordEdit.edit].
  change ("D" =? "K") with false. change (startswith "KA" "D") with false.
  change (startswith "DA" "D") with false. cbv iota.
  rewrite H. reflexivity.
Qed.

(** Where the encoder does round-trip: for aligned sequences of equal
    length that are identical, or else whose source groups hold no blank
    character, whose source word holds no [##], whose target groups hold
    no closing bracket and no line break, that are not a merge pair, and
    in which no target group is a non-empty proper part of its source
    group, [Edit.create] returns a tag, and applying it to the literal
    source word as one piece returns the joined target. *)
Lemma create_apply_domain (S T : list string) :
  List.length S = List.length T ->
  S = T \/ roundtrip_domain S T = true ->
  exists e,
    Edit.create S T = Ok e
    /\ SubwordEdit.apply
         (SubwordEdit.mk (Edit.word e) (Edit.word e) (Edit.edit e))
         (Edit.word e)
       = Ok (join T).
Proof.
  intros Hl Hcase.
  assert (Hsame : list_eqb S T = true ->
    exists e,
      (if list_eqb S T then Ok (Edit.mk (join S) "K") else Raise IndexError)
      = Ok e
      /\ SubwordEdit.apply
           (SubwordEdit.mk (Edit.word e) (Edit.word e) (Edit.edit e))
           (Edit.word e)
         = Ok (join T)).
  { intros E. rewrite E. apply list_eqb_spec in E. subst T.
    eexists. split; reflexivity. }
  unfold Edit.create.
  destruct (list_eqb S T) eqn:E1.
  { destruct (Hsame eq_refl) as (e & He & Ha). now exists e. }
  clear Hsame. destruct Hcase as [-> | Hd].
  { rewrite (proj2 (list_eqb_spec T T) eq_refl) in E1. discriminate. }
  unfold roundtrip_domain in Hd.
  apply andb_true_iff in Hd as [Hd Hin]. apply andb_true_iff in Hd as [Hd Hmg].
  apply andb_true_iff in Hd as [Hd Hm]. apply andb_true_iff in Hd as [Hc Hp].
  apply negb_true_iff in Hmg, Hm.
  destruct (list_eqb S [""]) eqn:E2.
  { apply list_eqb_spec in E2. subst S.
    destruct T as [|t [|t' T]]; try discriminate Hl.
    cbn [list_eqb] in E1 |- *. rewrite andb_true_r in E1.
    rewrite String.eqb_sym in E1. rewrite andb_true_r, E1. cbn [andb negb].
    eexists. split; [reflexivity|]. cbn [Edit.word Edit.edit].
    change (apply_tag (Tag.render [Tag.Insert t]) "" = Ok t).
    cbn [forallb] in Hp. rewrite andb_true_r in Hp.
    apply apply_produces; [| simpl; now rewrite Hp | reflexivity].
    rewrite <- (append_nil_r t) at 2. repeat constructor. }
  cbn [andb negb].
  destruct (list_eqb T [""]) eqn:E3.
  { apply list_eqb_spec in E3. subst T.
    eexists. split; [reflexivity|]. cbn [Edit.word Edit.edit].
    now apply apply_delete_word. }
  rewrite Hmg, generate_detailed_edit_render.
  destruct (detailed_produces S T Hl Hc Hin) as (ops & E & Hprod).
  rewrite E. cbn [bind]. eexists. split; [reflexivity|].
  cbn [Edit.word Edit.edit].
  apply apply_produces; auto.
  now apply (detailed_ops_well_formed S T).
Qed.

Lemma create_apply_domain_example :
  exists e,
    Edit.create ["t"; "e"; "h"; ""; "xyz"] ["t"; "h"; "e"; "s"; "w"] = Ok e
    /\ SubwordEdit.apply
         (SubwordEdit.mk (Edit.word e) (Edit.word e) (Edit.edit e))
         (Edit.word e)
       = Ok "thesw".
Proof.
  apply (create_apply_domain ["t"; "e"; "h"; ""; "xyz"]
           ["t"; "h"; "e"; "s"; "w"]); [reflexivity | right; reflexivity].
Qed.

(** C1: the round trip breaks in the encoder.  For the group ["aba"]
    shrunk to ["a"], [Edit.create] takes the character-by-character
    branch of [get_edits], which keeps every character of the source that
    occurs in the target: the tag is KDK.  The projection on the whole
    word as one piece leaves the tag as it is, and applying it to ["aba"]
    returns ["aa"], not the target ["a"].  The pair of ["abc"; ""] and
    ["ab"; "c"] is taken for a merge pair: the tag is KK, which applied to
    ["abc"] returns ["ab"], not the target ["abc"]. *)
Theorem create_apply_not_roundtrip :
  List.length ["aba"] = List.length ["a"]
  /\ Edit.create ["aba"] ["a"] = Ok (Edit.mk "aba" "KDK")
  /\ SubwordEdits.create "aba" "KDK" None
     = Ok (SubwordEdits.mk ["aba"] [SubwordEdit.mk "aba" "aba" "KDK"])
  /\ SubwordEdit.apply (SubwordEdit.mk "aba" "aba" "KDK") "aba" = Ok "aa"
  /\ join ["a"] = "a"
  /\ List.length ["abc"; ""] = List.length ["ab"; "c"]
  /\ Edit.create ["abc"; ""] ["ab"; "c"] = Ok (Edit.mk "abc" "KK")
  /\ SubwordEdit.apply (SubwordEdit.mk "abc" "abc" "KK") "abc" = Ok "ab"
  /\ join ["ab"; "c"] = "abc".
Proof. repeat split. Qed.

(** ** The projector *)

Lemma append_to_last_length (l : list string) (x : string) (l' : list string) :
  SubwordEdits.append_to_last l x = Ok l' -> List.length l' = List.length l.
Proof.
  revert l'; induction l as [|a l IH]; intros l'; [discriminate|].
  destruct l as [|b l]; [now intros [= <-]|].
  change (SubwordEdits.append_to_last (a :: b :: l) x)
    with (r <- SubwordEdits.append_to_last (b :: l) x ;; Ok (a :: r)).
  destruct (SubwordEdits.append_to_last (b :: l) x) as [r|]; [|discriminate].
  cbn [bind]. intros [= <-]. simpl. f_equal. now apply IH.
Qed.

(** A turn of the projector that does not raise uses up one of the turns
    left and keeps the number of per-piece tags. *)
Lemma piece_step_progress (edit : string) (n : nat) (se : string)
    (cu : SubwordEdits.cursor) (n' : nat) (se' : string)
    (cu' : SubwordEdits.cursor) :
  SubwordEdits.piece_step edit n se cu = Ok (n', se', cu') ->
  SubwordEdits.turns_left edit cu' < SubwordEdits.turns_left edit cu
  /\ List.length (SubwordEdits.subword_edits cu')
     = List.length (SubwordEdits.subword_edits cu).
Proof.
  unfold SubwordEdits.piece_step, SubwordEdits.turns_left.
  destruct (Nat.leb_spec (String.length edit) (SubwordEdits.idx cu)) as [|Hi];
    [discriminate|].
  destruct (getitem edit (SubwordEdits.idx cu)) as [c|]; [|discriminate].
  cbn [bind].
  destruct (Ascii.eqb c "S").
  { destruct (SubwordEdits.append_to_last _ se) as [l|] eqn:Ea; [|discriminate].
    cbn [bind]. intros [= <- <- <-]. cbn.
    apply append_to_last_length in Ea. split; [lia | exact Ea]. }
  destruct (Ascii.eqb c "I").
  { destruct (SubwordEdits.inserts cu) as [|op rest]; [discriminate|].
    cbn [SubwordEdits.pop0 bind]. intros [= <- <- <-]. cbn. split; [lia|auto]. }
  destruct (Ascii.eqb c "R").
  { destruct (SubwordEdits.replaces cu) as [|op rest]; [discriminate|].
    cbn [SubwordEdits.pop0 bind]. intros [= <- <- <-]. cbn. split; [lia|auto]. }
  destruct (Ascii.eqb c "M").
  { destruct (negb (String.length se =? 0)%nat).
    - destruct (SubwordEdits.append_to_last _ se) as [l|] eqn:Ea;
        [|discriminate].
      cbn [bind]. intros [= <- <- <-]. cbn.
      apply append_to_last_length in Ea. split; [lia | exact Ea].
    - cbn [bind]. intros [= <- <- <-]. cbn. split; [lia|auto]. }
  destruct (negb _); [discriminate|].
  intros [= <- <- <-]. cbn. split; [lia|auto].
Qed.

(** With more fuel than there are turns left the loop for a piece does
    not depend on the fuel: it never stops for want of it. *)
Lemma piece_loop_fuel (f1 f2 : nat) (edit : string) (n : nat) (se : string)
    (cu : SubwordEdits.cursor) :
  SubwordEdits.turns_left edit cu < f1 ->
  SubwordEdits.turns_left edit cu < f2 ->
  SubwordEdits.piece_loop f1 edit n se cu
  = SubwordEdits.piece_loop f2 edit n se cu.
Proof.
  revert f2 n se cu; induction f1 as [|f1 IH]; intros f2 n se cu H1 H2;
    [lia|].
  destruct f2 as [|f2]; [lia|].
  cbn [SubwordEdits.piece_loop]. destruct (n =? 0)%nat; [reflexivity|].
  destruct (SubwordEdits.piece_step edit n se cu) as [[[n' se'] cu']|] eqn:E;
    [|reflexivity].
  cbn [bind]. apply piece_step_progress in E as [E _]. apply IH; lia.
Qed.

Lemma piece_loop_length (f : nat) (edit : string) (n : nat) (se : string)
    (cu : SubwordEdits.cursor) (se' : string) (cu' : SubwordEdits.cursor) :
  SubwordEdits.piece_loop f edit n se cu = Ok (se', cu') ->
  List.length (SubwordEdits.subword_edits cu')
  = List.length (SubwordEdits.subword_edits cu).
Proof.
  revert n se cu; induction f as [|f IH]; intros n se cu;
    cbn [SubwordEdits.piece_loop]; destruct (n =? 0)%nat;
    try (now intros [= <- <-]); try discriminate.
  destruct (SubwordEdits.piece_step edit n se cu) as [[[n1 se1] cu1]|] eqn:E;
    [|discriminate].
  cbn [bind]. intros H. apply IH in H.
  apply piece_step_progress in E as [_ E]. lia.
Qed.

Lemma pieces_loop_length (edit : string) (subwords : list string)
    (cu cu' : SubwordEdits.cursor) :
  SubwordEdits.pieces_loop edit subwords cu = Ok cu' ->
  List.length (SubwordEdits.subword_edits cu')
  = List.length (SubwordEdits.subword_edits cu) + List.length subwords.
Proof.
  revert cu; induction subwords as [|w subwords IH]; intros cu.
  - intros [= <-]. simpl. lia.
  - cbn [SubwordEdits.pieces_loop].
    destruct (SubwordEdits.piece_loop _ edit _ "" cu) as [[se1 cu1]|] eqn:E;
      [|discriminate].
    cbn [bind]. intros H. apply IH in H. apply piece_loop_length in E.
    cbn [SubwordEdits.subword_edits] in H. rewrite length_app in H.
    simpl in *. lia.
Qed.

(** The loops of [_project_edit] leave one tag per piece. *)
Lemma project_tags_length (subwords : list string) (edit : string)
    (tags : list string) :
  SubwordEdits.project_tags subwords edit = Ok tags ->
  List.length tags = List.length subwords.
Proof.
  unfold SubwordEdits.project_tags.
  destruct (SubwordEdits.pieces_loop edit subwords _) as [cu|] eqn:E;
    [|discriminate].
  cbn [bind]. apply pieces_loop_length in E. simpl in E.
  destruct (_ <? _)%nat.
  - intros H. apply append_to_last_length in H. lia.
  - intros [= <-]. exact E.
Qed.

Lemma zip3_edits (subwords raw_subwords tags : list string) :
  List.length tags = List.length subwords ->
  List.length subwords = List.length raw_subwords ->
  map SubwordEdit.edit
      (map (fun '(subword, raw_subword, edit) =>
              SubwordEdit.mk subword raw_subword (compress_edit edit))
           (SubwordEdits.zip3 subwords raw_subwords tags))
  = map compress_edit tags.
Proof.
  revert raw_subwords tags; induction subwords as [|w subwords IH];
    intros [|r raw_subwords] [|tg tags] H1 H2; try discriminate;
    [reflexivity|].
  cbn [SubwordEdits.zip3 map SubwordEdit.edit]. f_equal.
  apply IH; simpl in *; lia.
Qed.

(** C2: [SubwordEdits.create] does not yield a tag per piece for every
    word tag.  On the whole-word tag D, which [Edit.create] returns for a
    deleted word, the projector has used up the tag after the first
    character of the piece and stops at the breakpoint left in its loop,
    where the whole-word tag K is answered before the projector is
    called.  On the tag KI_[USA], which [Edit.create] returns as well, the
    projector finds the one per-piece tag, and the check of the
    concatenation then fails, for the pattern that strips the soft keeps
    takes the S out of the inserted text. *)
Theorem create_projection_stops :
  Edit.create ["ab"] [""] = Ok (Edit.mk "ab" "D")
  /\ SubwordEdits.pieces "ab" None = (["ab"], ["ab"])
  /\ SubwordEdits.create "ab" "D" None = Raise Breakpoint
  /\ SubwordEdits.create "ab" "K" None
     = Ok (SubwordEdits.mk ["ab"] [SubwordEdit.mk "ab" "ab" "K"])
  /\ Edit.create ["a"; ""] ["a"; "USA"] = Ok (Edit.mk "a" "KI_[USA]")
  /\ SubwordEdits.project_tags ["a"] "KI_[USA]" = Ok ["KI_[USA]"]
  /\ Re.sub_soft_keep "KI_[USA]" = "KI_[UA]"
  /\ SubwordEdits.create "a" "KI_[USA]" None = Raise AssertionError.
Proof. repeat split. Qed.

(** * Further properties *)

(** ** Sentences *)

Lemma lstrip_suffix (s : Postprocess.ustr) :
  exists a, s = (a ++ Postprocess.lstrip s)%list.
Proof.
  induction s as [|c s [a IH]]; [now exists []|].
  simpl. destruct (Postprocess.isspace c).
  - exists (c :: a). simpl. now f_equal.
  - now exists [].
Qed.

Lemma rstrip_prefix (u : Postprocess.ustr) :
  exists b, u = (rev (Postprocess.lstrip (rev u)) ++ b)%list.
Proof.
  destruct (lstrip_suffix (rev u)) as [a E].
  exists (rev a). rewrite <- rev_app_distr, <- E. now rewrite rev_involutive.
Qed.

Lemma strip_infix (s : Postprocess.ustr) :
  exists a b, s = (a ++ Postprocess.strip s ++ b)%list.
Proof.
  unfold Postprocess.strip.
  destruct (lstrip_suffix s) as [a Ea].
  destruct (rstrip_prefix (Postprocess.lstrip s)) as [b Eb].
  exists a, b. now rewrite <- Eb.
Qed.

Lemma strip_in (c : N) (s : Postprocess.ustr) :
  In c (Postprocess.strip s) -> In c s.
Proof.
  intros H. destruct (strip_infix s) as (a & b & E). rewrite E.
  apply in_or_app. right. apply in_or_app. now left.
Qed.

Lemma squeeze_in (c : N) (b : bool) (s : Postprocess.ustr) :
  In c (Postprocess.squeeze_spaces b s) -> In c s.
Proof.
  revert b; induction s as [|x s IH]; intros b H; [destruct H|].
  simpl in H. destruct (x =? 32)%N eqn:E.
  - apply N.eqb_eq in E. subst x. destruct b.
    + right. eapply IH, H.
    + destruct H as [<- | H]; [now left | right; eapply IH, H].
  - destruct H as [<- | H]; [now left | right; eapply IH, H].
Qed.

Lemma single_spaced_tail (c : N) (s : Postprocess.ustr) :
  Sentence.single_spaced (c :: s) = true -> Sentence.single_spaced s = true.
Proof. simpl. intros H. now apply andb_true_iff in H as [_ H]. Qed.

Lemma single_spaced_prefix (a b : Postprocess.ustr) :
  Sentence.single_spaced (a ++ b)%list = true ->
  Sentence.single_spaced a = true.
Proof.
  induction a as [|c a IH]; [reflexivity|].
  cbn [app Sentence.single_spaced]. intros H.
  apply andb_true_iff in H as [H1 H2]. rewrite (IH H2), andb_true_r.
  destruct a as [|d a]; [now rewrite andb_false_r | exact H1].
Qed.

Lemma single_spaced_suffix (a b : Postprocess.ustr) :
  Sentence.single_spaced (a ++ b)%list = true ->
  Sentence.single_spaced b = true.
Proof.
  induction a as [|c a IH]; [auto|]. intros H.
  apply IH. eapply single_spaced_tail, H.
Qed.

Lemma single_spaced_strip (s : Postprocess.ustr) :
  Sentence.single_spaced s = true ->
  Sentence.single_spaced (Postprocess.strip s) = true.
Proof.
  intros H. destruct (strip_infix s) as (a & b & E). rewrite E in H.
  apply single_spaced_suffix in H. now apply single_spaced_prefix in H.
Qed.

(** Squeezing leaves no two spaces side by side; started inside a block
    of spaces, it does not begin with one. *)
Lemma squeeze_single_spaced (b : bool) (s : Postprocess.ustr) :
  Sentence.single_spaced (Postprocess.squeeze_spaces b s) = true
  /\ (b = true ->
      Sentence.starts_with_space (Postprocess.squeeze_spaces b s) = false).
Proof.
  revert b; induction s as [|c s IH]; intros b; [now split|].
  cbn [Postprocess.squeeze_spaces]. destruct (c =? 32)%N eqn:E.
  - destruct (IH true) as [H1 H2]. destruct b; [auto|].
    split; [|discriminate].
    cbn [Sentence.single_spaced]. now rewrite H1, H2, andb_false_r.
  - destruct (IH false) as [H1 _]. split.
    + cbn [Sentence.single_spaced]. unfold Sentence.space. now rewrite E, H1.
    + intros _. simpl. exact E.
Qed.

Lemma squeeze_fixed (b : bool) (s : Postprocess.ustr) :
  Sentence.single_spaced s = true ->
  (b = true -> Sentence.starts_with_space s = false) ->
  Postprocess.squeeze_spaces b s = s.
Proof.
  revert b; induction s as [|c s IH]; intros b H Hb; [reflexivity|].
  cbn [Sentence.single_spaced] in H. apply andb_true_iff in H as [H1 H2].
  cbn [Postprocess.squeeze_spaces]. unfold Sentence.space in *.
  destruct (c =? 32)%N eqn:E.
  - destruct b;
      [specialize (Hb eq_refl);
       unfold Sentence.starts_with_space, Sentence.space in Hb; congruence|].
    apply N.eqb_eq in E. subst c. f_equal. apply IH; [exact H2|]. intros _.
    cbn [andb] in H1. now apply negb_true_iff in H1.
  - f_equal. apply IH; [exact H2 | discriminate].
Qed.

Lemma lstrip_starts_clean (s : Postprocess.ustr) :
  Sentence.starts_clean (Postprocess.lstrip s) = true.
Proof.
  induction s as [|c s IH]; [reflexivity|].
  simpl. destruct (Postprocess.isspace c) eqn:E; [exact IH|].
  simpl. now rewrite E.
Qed.

Lemma lstrip_fixed (s : Postprocess.ustr) :
  Sentence.starts_clean s = true -> Postprocess.lstrip s = s.
Proof.
  destruct s as [|c s]; [reflexivity|]. simpl. intros H.
  apply negb_true_iff in H. now rewrite H.
Qed.

Lemma strip_trimmed (s : Postprocess.ustr) :
  Sentence.trimmed (Postprocess.strip s) = true.
Proof.
  unfold Sentence.trimmed, Postprocess.strip. rewrite rev_involutive.
  rewrite (lstrip_starts_clean (rev (Postprocess.lstrip s))), andb_true_r.
  pose proof (lstrip_starts_clean s) as Hs.
  destruct (rstrip_prefix (Postprocess.lstrip s)) as [b E].
  destruct (rev (Postprocess.lstrip (rev (Postprocess.lstrip s)))) as [|c p];
    [reflexivity|].
  rewrite E in Hs. exact Hs.
Qed.

Lemma strip_fixed (s : Postprocess.ustr) :
  Sentence.trimmed s = true -> Postprocess.strip s = s.
Proof.
  unfold Sentence.trimmed, Postprocess.strip. intros H.
  apply andb_true_iff in H as [H1 H2].
  now rewrite (lstrip_fixed s H1), (lstrip_fixed _ H2), rev_involutive.
Qed.

Lemma digit_mapper_space (c : N) :
  (Postprocess.DIGIT_MAPPER_get c =? 32)%N = (c =? 32)%N.
Proof.
  unfold Postprocess.DIGIT_MAPPER_get.
  destruct ((1632 <=? c) && (c <=? 1641))%N eqn:E; [|reflexivity].
  apply andb_true_iff in E as [E1 E2].
  apply N.leb_le in E1, E2.
  destruct (N.eqb_spec (c - 1632 + 48) 32); destruct (N.eqb_spec c 32);
    auto; lia.
Qed.

Lemma digit_mapper_fixed (c : N) :
  Postprocess.DIGIT_MAPPER_get (Postprocess.DIGIT_MAPPER_get c)
  = Postprocess.DIGIT_MAPPER_get c.
Proof.
  assert (Hout : forall m, (m < 1632)%N -> Postprocess.DIGIT_MAPPER_get m = m).
  { intros m Hm. unfold Postprocess.DIGIT_MAPPER_get.
    destruct (N.leb_spec 1632 m); [lia | reflexivity]. }
  unfold Postprocess.DIGIT_MAPPER_get at 2 3.
  destruct ((1632 <=? c) && (c <=? 1641))%N eqn:E.
  - apply andb_true_iff in E as [E1 E2]. apply N.leb_le in E1, E2.
    apply Hout. lia.
  - unfold Postprocess.DIGIT_MAPPER_get. now rewrite E.
Qed.

Section SentenceProperties.

Variable U : Postprocess.ustr.
Variable is_digit : N -> bool.

Lemma norm_digits_cases (s : Postprocess.ustr) :
  Postprocess.norm_digits is_digit s = s
  \/ Postprocess.norm_digits is_digit s = map Postprocess.DIGIT_MAPPER_get s.
Proof.
  unfold Postprocess.norm_digits. destruct (existsb is_digit s); [|now left].
  destruct (map Postprocess.DIGIT_MAPPER_get s) eqn:E; [now left | now right].
Qed.

Lemma map_digits_single_spaced (s : Postprocess.ustr) :
  Sentence.single_spaced (map Postprocess.DIGIT_MAPPER_get s)
  = Sentence.single_spaced s.
Proof.
  induction s as [|c s IH]; [reflexivity|].
  cbn [map Sentence.single_spaced]. rewrite IH. f_equal. f_equal.
  unfold Sentence.space. rewrite digit_mapper_space. f_equal.
  destruct s as [|d s]; [reflexivity|]. simpl. apply digit_mapper_space.
Qed.

Lemma norm_digits_single_spaced (s : Postprocess.ustr) :
  Sentence.single_spaced s = true ->
  Sentence.single_spaced (Postprocess.norm_digits is_digit s) = true.
Proof.
  intros H. destruct (norm_digits_cases s) as [-> | ->]; [exact H|].
  now rewrite map_digits_single_spaced.
Qed.

Lemma tidy_strip (s : Postprocess.ustr) :
  Sentence.single_spaced s = true ->
  Sentence.tidy (Postprocess.strip s) = true.
Proof.
  intros H. unfold Sentence.tidy.
  now rewrite single_spaced_strip, strip_trimmed.
Qed.

(** X1: every line that [pnx_tokenize], [space_clean] or [remove_pnx]
    returns has no two spaces side by side and neither begins nor ends
    with a blank character. *)
Theorem cleaned_lines_tidy (data : list Postprocess.ustr) :
  forallb Sentence.tidy (Postprocess.pnx_tokenize U is_digit data) = true
  /\ forallb Sentence.tidy (Postprocess.space_clean data) = true
  /\ forallb Sentence.tidy (Postprocess.remove_pnx U data) = true.
Proof.
  unfold Postprocess.pnx_tokenize, Postprocess.space_clean,
    Postprocess.remove_pnx.
  repeat split; apply forallb_forall; intros y Hy;
    apply in_map_iff in Hy as (line & <- & _); apply tidy_strip.
  - apply norm_digits_single_spaced, squeeze_single_spaced.
  - apply squeeze_single_spaced.
  - apply squeeze_single_spaced.
Qed.

Lemma tidy_fixed (y : Postprocess.ustr) :
  Sentence.tidy y = true ->
  Postprocess.strip (Postprocess.squeeze_spaces false (Postprocess.strip y)) = y.
Proof.
  unfold Sentence.tidy. intros H. apply andb_true_iff in H as [H1 H2].
  rewrite (strip_fixed y H2), squeeze_fixed by (auto; discriminate).
  now apply strip_fixed.
Qed.

Lemma filter_fixed {A} (f : A -> bool) (l : list A) :
  forallb f l = true -> filter f l = l.
Proof.
  induction l as [|a l IH]; [reflexivity|]. simpl. intros H.
  apply andb_true_iff in H as [Ha H]. now rewrite Ha, IH.
Qed.

Lemma no_punctuation_strip (P : N -> bool) (s : Postprocess.ustr) :
  forallb P s = true -> forallb P (Postprocess.strip s) = true.
Proof.
  intros H. apply forallb_forall. intros c Hc.
  apply strip_in in Hc. revert c Hc. now apply forallb_forall.
Qed.

Lemma no_punctuation_squeeze (P : N -> bool) (b : bool) (s : Postprocess.ustr) :
  forallb P s = true ->
  forallb P (Postprocess.squeeze_spaces b s) = true.
Proof.
  intros H. apply forallb_forall. intros c Hc.
  apply squeeze_in in Hc. revert c Hc. now apply forallb_forall.
Qed.

Lemma remove_pnx_line_clean (line : Postprocess.ustr) :
  forallb (fun c => negb (Postprocess.mem c (Postprocess.puncs U)))
    (Postprocess.strip
       (Postprocess.squeeze_spaces false
          (filter (fun c => negb (Postprocess.mem c (Postprocess.puncs U)))
                  (Postprocess.strip line))))
  = true.
Proof.
  apply no_punctuation_strip, no_punctuation_squeeze, forallb_filter_same.
Qed.

(** X2: [space_clean] and [remove_pnx] are idempotent: run on their own
    output they change nothing. *)
Theorem clean_idempotent (data : list Postprocess.ustr) :
  Postprocess.space_clean (Postprocess.space_clean data)
  = Postprocess.space_clean data
  /\ Postprocess.remove_pnx U (Postprocess.remove_pnx U data)
     = Postprocess.remove_pnx U data.
Proof.
  unfold Postprocess.space_clean, Postprocess.remove_pnx. split;
    rewrite map_map; apply map_ext; intros line.
  - apply tidy_fixed, tidy_strip, squeeze_single_spaced.
  - set (y := Postprocess.strip
                (Postprocess.squeeze_spaces false
                   (filter (fun c => negb (Postprocess.mem c (Postprocess.puncs U)))
                           (Postprocess.strip line)))).
    assert (Hy : Sentence.tidy y = true)
      by apply tidy_strip, squeeze_single_spaced.
    assert (Hp : forallb (fun c => negb (Postprocess.mem c (Postprocess.puncs U)))
                   y = true) by apply remove_pnx_line_clean.
    pose proof Hy as Ht. unfold Sentence.tidy in Ht.
    apply andb_true_iff in Ht as [_ Ht].
    rewrite (strip_fixed y Ht), (filter_fixed _ y Hp).
    rewrite <- (strip_fixed y Ht) at 1. now apply tidy_fixed.
Qed.

(** X3: no character of the punctuation set is left in a line that
    [remove_pnx] returns. *)
Theorem remove_pnx_no_punctuation (data : list Postprocess.ustr) :
  forallb (forallb (fun c => negb (Postprocess.mem c (Postprocess.puncs U))))
          (Postprocess.remove_pnx U data)
  = true.
Proof.
  unfold Postprocess.remove_pnx. apply forallb_forall. intros y Hy.
  apply in_map_iff in Hy as (line & <- & _). apply remove_pnx_line_clean.
Qed.

(** X4: [norm_digits] keeps the length of the text and is idempotent,
    whatever the class of digits is. *)
Theorem norm_digits_idempotent (s : Postprocess.ustr) :
  List.length (Postprocess.norm_digits is_digit s) = List.length s
  /\ Postprocess.norm_digits is_digit (Postprocess.norm_digits is_digit s)
     = Postprocess.norm_digits is_digit s.
Proof.
  split.
  - destruct (norm_digits_cases s) as [-> | ->];
      [reflexivity | apply length_map].
  - destruct (norm_digits_cases s) as [E | E]; rewrite E.
    + exact E.
    + destruct (norm_digits_cases (map Postprocess.DIGIT_MAPPER_get s))
        as [-> | ->]; [reflexivity|].
      rewrite map_map. apply map_ext, digit_mapper_fixed.
Qed.

(** X5: the punctuation pass followed by the squeeze of spaces changes
    nothing but spaces: without its spaces the line is what it was
    without its spaces. *)
Theorem pnx_only_spaces (line : Postprocess.ustr) :
  filter Sentence.not_space
    (Postprocess.squeeze_spaces false (Postprocess.pnx_sub U is_digit line))
  = filter Sentence.not_space line.
Proof.
  assert (Hs : forall b l, filter Sentence.not_space
                             (Postprocess.squeeze_spaces b l)
                           = filter Sentence.not_space l).
  { intros b l; revert b; induction l as [|c l IH]; intros b;
      [reflexivity|].
    cbn [Postprocess.squeeze_spaces]. destruct (c =? 32)%N eqn:E.
    - destruct b; cbn [filter]; unfold Sentence.not_space, Sentence.space;
        rewrite ?E, ?N.eqb_refl; cbn [negb]; apply IH.
    - cbn [filter]. now rewrite IH. }
  rewrite Hs. induction line as [|c rest IH]; [reflexivity|].
  cbn [Postprocess.pnx_sub].
  destruct (Postprocess.mem c (Postprocess.puncs U) && _).
  - cbn [filter]. unfold Sentence.not_space at 1 3, Sentence.space.
    rewrite N.eqb_refl. cbn [negb]. now rewrite IH.
  - cbn [filter]. now rewrite IH.
Qed.

End SentenceProperties.

Lemma gate_rejects_all (distance : Postprocess.ustr -> Postprocess.ustr -> nat)
    (gamma : Z) (src preds : list Postprocess.ustr) :
  (gamma <= 0)%Z ->
  List.length src = List.length preds ->
  Postprocess.gate distance gamma src preds = src.
Proof.
  intros Hg. revert preds; induction src as [|s src IH]; intros [|p preds] H;
    try discriminate; [reflexivity|].
  cbn [Postprocess.gate].
  destruct (Z.leb_spec gamma (Z.of_nat (distance s p))); [|lia].
  f_equal. apply IH. simpl in H. lia.
Qed.

(** X6: with a threshold [gamma <= 0] every prediction is rejected:
    [postprocess] returns the source sentences as they are. *)
Theorem postprocess_rejects_all (U : Postprocess.ustr) (is_digit : N -> bool)
    (distance : Postprocess.ustr -> Postprocess.ustr -> nat)
    (src preds : list Postprocess.ustr) (gamma : Z) :
  (gamma <= 0)%Z ->
  List.length src = List.length preds ->
  Postprocess.postprocess U is_digit distance src preds gamma = Ok src.
Proof.
  intros Hg Hl. unfold Postprocess.postprocess.
  assert (Hn : List.length src
               = List.length (Postprocess.pnx_tokenize U is_digit preds))
    by (unfold Postprocess.pnx_tokenize; now rewrite length_map).
  apply Nat.eqb_eq in Hn as Hb. rewrite Hb. cbn [assert bind].
  f_equal. now apply gate_rejects_all.
Qed.

Lemma postprocess_rejects_all_witness :
  (0 <= 0)%Z
  /\ List.length [[97%N]; [98%N]] = List.length [[97%N]; [120%N; 121%N]]
  /\ Postprocess.postprocess [] Postprocess.ascii_digit Postprocess.levenshtein
       [[97%N]; [98%N]] [[97%N]; [120%N; 121%N]] 0
     = Ok [[97%N]; [98%N]].
Proof.
  split; [lia|]. split; [reflexivity|].
  apply (postprocess_rejects_all [] Postprocess.ascii_digit
           Postprocess.levenshtein); [lia | reflexivity].
Defined.

(** ** The applier and the validator, further *)

Lemma delete_star_length (rest : string) (char_edits : list string) (i : nat) :
  SubwordEdit._apply_delete_star rest char_edits i
  = String.length (SubwordEdit._apply_keep_star rest char_edits i).
Proof.
  unfold SubwordEdit._apply_delete_star, SubwordEdit._apply_keep_star.
  now destruct (_ =? _)%nat.
Qed.

(** X7: [D*] mirrors [K*]: met after the tokens [pre] and before the
    tokens [post], it writes nothing and moves the cursor over the run
    that [K*] would copy there: all unread characters if every token of
    [post] is an insertion or an append, else all but the last [n] of
    them, for [n] the number of tokens of [post] that are neither. *)
Theorem delete_star_run (subword : string) (pre post : list string)
    (edited : string) (idx : nat) :
  let unread := drop idx subword in
  let n := List.length
             (filter (fun e => negb (SubwordEdit.is_insert_or_append e)) post) in
  let run := if forallb SubwordEdit.is_insert_or_append post then unread
             else take (String.length unread - n) unread in
  SubwordEdit.char_edit_step subword (pre ++ "D*" :: post)%list
    (edited, idx) (List.length pre) "D*"
  = Ok (edited, idx + String.length run).
Proof.
  intros unread n run. unfold SubwordEdit.char_edit_step. simpl.
  rewrite delete_star_length, keep_star_extent. reflexivity.
Qed.

Lemma getitem_in_range (s : string) (i : nat) :
  i < String.length s -> exists c, getitem s i = Ok c.
Proof.
  revert i; induction s as [|a s IH]; intros i H; [simpl in H; lia|].
  destruct i as [|i]; [now exists a|].
  rewrite getitem_succ. apply IH. simpl in H. lia.
Qed.

Lemma length_drop (n : nat) (s : string) :
  String.length (drop n s) = String.length s - n.
Proof.
  revert n; induction s as [|c s IH]; intros [|n]; try reflexivity.
  cbn [drop String.length]. now rewrite IH.
Qed.

Lemma reads_one_not_insert (tok : string) :
  reads_one tok = true -> SubwordEdit.is_insert_or_append tok = false.
Proof.
  unfold reads_one, SubwordEdit.is_insert_or_append, SubwordEdit.is_one_of.
  destruct tok as [|c tok]; [discriminate|]. cbn [startswith existsb String.eqb].
  destruct (Ascii.eqb_spec "R" c) as [<- | _]; [reflexivity|].
  destruct (Ascii.eqb_spec c "K") as [-> | _]; [reflexivity|].
  destruct (Ascii.eqb_spec c "D") as [-> | _]; [reflexivity | discriminate].
Qed.

Lemma reads_cons (tok : string) (post : list string) :
  reads (tok :: post) = (if reads_one tok then 1 else 0) + reads post.
Proof. unfold reads. cbn [filter]. now destruct (reads_one tok). Qed.

(** The tokens that read a character are among those that [K*] and [D*]
    leave room for. *)
Lemma reads_le_fixed (post : list string) :
  reads post
  <= List.length
       (filter (fun e => negb (SubwordEdit.is_insert_or_append e)) post).
Proof.
  induction post as [|tok post IH]; [apply Nat.le_refl|].
  rewrite reads_cons. cbn [filter].
  destruct (reads_one tok) eqn:E.
  - rewrite (reads_one_not_insert tok E). simpl. lia.
  - destruct (negb _); simpl; lia.
Qed.

Lemma reads_all_inserts (post : list string) :
  forallb SubwordEdit.is_insert_or_append post = true -> reads post = 0.
Proof.
  induction post as [|tok post IH]; [reflexivity|]. cbn [forallb].
  intros H. apply andb_true_iff in H as [Ht H]. rewrite reads_cons, IH by auto.
  destruct (reads_one tok) eqn:E; [|reflexivity].
  apply reads_one_not_insert in E. congruence.
Qed.

(** The run that [K*] copies, and [D*] skips, leaves a character for
    every later token that reads one. *)
Lemma keep_star_room (subword : string) (pre post : list string) (x : string)
    (idx : nat) :
  idx + reads post <= String.length subword ->
  idx + String.length
          (SubwordEdit._apply_keep_star (drop idx subword)
             (pre ++ x :: post)%list (List.length pre + 1))
  + reads post <= String.length subword.
Proof.
  intros H. rewrite keep_star_extent.
  destruct (forallb SubwordEdit.is_insert_or_append post) eqn:E.
  - rewrite (reads_all_inserts post E), length_drop. lia.
  - pose proof (reads_le_fixed post) as Hle.
    rewrite take_length; rewrite length_drop; lia.
Qed.

(** One token of the applier, when the piece has a character left for
    every token that reads one: the step returns and leaves a character
    for every such token after it. *)
Lemma char_edit_step_room (subword : string) (pre post : list string)
    (tok edited : string) (idx : nat) :
  idx + reads (tok :: post) <= String.length subword ->
  exists edited' idx',
    SubwordEdit.char_edit_step subword (pre ++ tok :: post)%list
      (edited, idx) (List.length pre) tok
    = Ok (edited', idx')
    /\ idx' + reads post <= String.length subword.
Proof.
  rewrite reads_cons. intros H. unfold SubwordEdit.char_edit_step.
  assert (H' : idx + reads post <= String.length subword)
    by (destruct (reads_one tok); lia).
  destruct (String.eqb_spec tok "K") as [-> | _].
  { change (reads_one "K") with true in H. cbv iota in H.
    destruct (getitem_in_range subword idx) as [c ->]; [lia|].
    cbn [bind]. eexists _, _. split; [reflexivity | lia]. }
  destruct (String.eqb_spec tok "D") as [-> | _].
  { change (reads_one "D") with true in H. cbv iota in H.
    eexists _, _. split; [reflexivity | lia]. }
  destruct (startswith "I" tok).
  { eexists _, _. split; [reflexivity | lia]. }
  destruct (startswith "A" tok).
  { eexists _, _. split; [reflexivity | lia]. }
  destruct (String.eqb_spec tok "K*") as [-> | _].
  { eexists _, _. split; [reflexivity|]. now apply keep_star_room. }
  destruct (String.eqb_spec tok "D*") as [-> | _].
  { eexists _, _. split; [reflexivity|].
    rewrite delete_star_length. now apply keep_star_room. }
  destruct (startswith "R" tok) eqn:ER.
  { unfold reads_one in H. rewrite ER in H. cbn [orb] in H. cbv iota in H.
    eexists _, _. split; [reflexivity | lia]. }
  eexists _, _. split; [reflexivity | lia].
Qed.

Lemma char_edits_loop_room (subword : string) (toks pre : list string)
    (edited : string) (idx : nat) :
  idx + reads toks <= String.length subword ->
  exists st,
    SubwordEdit.char_edits_loop subword (pre ++ toks)%list
      (combine (seq (List.length pre) (List.length toks)) toks) (edited, idx)
    = Ok st.
Proof.
  revert pre edited idx; induction toks as [|tok toks IH];
    intros pre edited idx H; [now eexists|].
  cbn [List.length seq combine SubwordEdit.char_edits_loop].
  destruct (char_edit_step_room subword pre toks tok edited idx H)
    as (edited' & idx' & -> & H').
  cbn [bind].
  specialize (IH (pre ++ [tok])%list edited' idx' H').
  rewrite <- app_assoc, length_app, Nat.add_1_r in IH. exact IH.
Qed.

(** [apply] returns when the piece, marker apart, has a character for
    every token of the tag that reads one. *)
Lemma apply_room (self : SubwordEdit.t) (piece : string) :
  reads (Re.findall Re.char_edit_re (SubwordEdit.edit self))
  <= String.length (remove_marker piece) ->
  exists out, SubwordEdit.apply self piece = Ok out.
Proof.
  intros H. unfold SubwordEdit.apply.
  destruct (SubwordEdit.edit self =? "K"); [eauto|].
  destruct (startswith "KA" _); [eauto|].
  destruct (startswith "DA" _); [eauto|].
  unfold SubwordEdit._apply_char_edits, enumerate.
  destruct (char_edits_loop_room (remove_marker piece)
              (Re.findall Re.char_edit_re (SubwordEdit.edit self)) [] "" 0 H)
    as ([out idx] & E).
  cbn [app List.length] in E. rewrite E. cbn [bind]. eauto.
Qed.

(** The tokens that read a character are among those that the validator
    counts. *)
Lemma reads_le_counted (char_edits : list string) :
  reads char_edits
  <= List.length
       (filter (fun e => negb (SubwordEdit.consumes_nothing e)) char_edits).
Proof.
  induction char_edits as [|tok l IH]; [apply Nat.le_refl|].
  rewrite reads_cons. cbn [filter].
  destruct (reads_one tok) eqn:E.
  - assert (Hc : SubwordEdit.consumes_nothing tok = false).
    { revert E. unfold reads_one, SubwordEdit.consumes_nothing,
        SubwordEdit.is_one_of.
      destruct tok as [|c tok]; [discriminate|].
      cbn [startswith existsb String.eqb].
      destruct (Ascii.eqb_spec "R" c) as [<- | _]; [reflexivity|].
      destruct (Ascii.eqb_spec c "K") as [-> | _]; [reflexivity|].
      destruct (Ascii.eqb_spec c "D") as [-> | _];
        [reflexivity | discriminate]. }
    rewrite Hc. simpl. lia.
  - destruct (negb _); simpl; lia.
Qed.

(** X8: the validator is safe for the applier: on every piece that
    [is_applicable] accepts, [apply] returns a text, whatever the tag. *)
Theorem applicable_apply_returns (self : SubwordEdit.t) (piece : string) :
  SubwordEdit.is_applicable self piece = true ->
  exists out, SubwordEdit.apply self piece = Ok out.
Proof.
  unfold SubwordEdit.is_applicable, SubwordEdit.applicable_tokens.
  intros Ha.
  destruct ((SubwordEdit.edit self =? "K")
            || startswith "KA" (SubwordEdit.edit self)) eqn:E.
  { unfold SubwordEdit.apply. apply orb_true_iff in E as [-> | ->]; [eauto|].
    destruct (_ =? _); eauto. }
  destruct (Nat.ltb_spec (String.length (remove_marker piece))
              (List.length
                 (filter (fun e => negb (SubwordEdit.consumes_nothing e))
                    (Re.findall Re.char_edit_re (SubwordEdit.edit self)))))
    as [|Hle]; [discriminate|].
  apply apply_room.
  pose proof (reads_le_counted
                (Re.findall Re.char_edit_re (SubwordEdit.edit self))).
  lia.
Qed.

Lemma applicable_apply_returns_witness :
  SubwordEdit.is_applicable (SubwordEdit.mk "##abcd" "abcd" "MK*I_[x]R_[y]D")
    "##abcd" = true
  /\ SubwordEdit.apply (SubwordEdit.mk "##abcd" "abcd" "MK*I_[x]R_[y]D")
       "##abcd" = Ok "##abxy"
  /\ exists out,
      SubwordEdit.apply (SubwordEdit.mk "##abcd" "abcd" "MK*I_[x]R_[y]D")
        "##abcd" = Ok out.
Proof.
  do 2 (split; [reflexivity|]).
  apply (applicable_apply_returns
           (SubwordEdit.mk "##abcd" "abcd" "MK*I_[x]R_[y]D") "##abcd").
  reflexivity.
Defined.

(** X9: [apply] returns a text whenever the piece, marker apart, has at
    least as many characters as the tag has tokens K, D and R_[..]: the
    runs of K* and D* always leave a character for each of them. *)
Theorem apply_returns_with_room (self : SubwordEdit.t) (piece : string) :
  reads (Re.findall Re.char_edit_re (SubwordEdit.edit self))
  <= String.length (remove_marker piece) ->
  exists out, SubwordEdit.apply self piece = Ok out.
Proof. exact (apply_room self piece). Qed.

Lemma apply_returns_with_room_witness :
  reads (Re.findall Re.char_edit_re "D*KI_[x]K*R_[y]")
  <= String.length (remove_marker "##abcde")
  /\ SubwordEdit.apply (SubwordEdit.mk "##abcde" "abcde" "D*KI_[x]K*R_[y]")
       "##abcde" = Ok "##cxdy"
  /\ exists out,
      SubwordEdit.apply (SubwordEdit.mk "##abcde" "abcde" "D*KI_[x]K*R_[y]")
        "##abcde" = Ok out.
Proof.
  split; [vm_compute; lia|]. split; [reflexivity|].
  apply (apply_returns_with_room
           (SubwordEdit.mk "##abcde" "abcde" "D*KI_[x]K*R_[y]") "##abcde").
  vm_compute. lia.
Defined.

Lemma append_texts (ops : list Tag.op) :
  Tag.well_formed ops = true ->
  map (Re.sub_payload "A") (map Tag.render_op (filter Tag.is_append ops))
  = map Tag.append_text (filter Tag.is_append ops).
Proof.
  induction ops as [|o ops IH]; intros H; [reflexivity|].
  apply well_formed_cons in H as [Ho H].
  destruct o as [| | | | | |p|p|p]; cbn [filter Tag.is_append]; auto.
  cbn [map Tag.append_text Tag.render_op]. f_equal; [|now apply IH].
  now apply sub_payload_render.
Qed.

Lemma startswith2_not_K (a b : ascii) (s : string) :
  startswith (String a (String b "")) s = true -> (s =? "K") = false.
Proof.
  destruct s as [|x [|y s]]; try discriminate.
  - simpl. now rewrite andb_false_r.
  - intros _. simpl. destruct (Ascii.eqb x "K"); reflexivity.
Qed.

(** X10: a tag that begins with KA, made of operations whose texts hold
    no bracket and no line break, keeps the piece as it is, marker
    included, and adds a space and the texts of its appends, joined by
    spaces; every other operation of the tag is ignored. *)
Theorem keep_append_result (ops : list Tag.op)
    (subword raw_subword piece : string) :
  Tag.strict ops = true ->
  startswith "KA" (Tag.render ops) = true ->
  SubwordEdit.apply (SubwordEdit.mk subword raw_subword (Tag.render ops)) piece
  = Ok (piece ++ " "
        ++ join_with " " (map Tag.append_text (filter Tag.is_append ops))).
Proof.
  intros H HKA. unfold SubwordEdit.apply, SubwordEdit._apply_append.
  cbn [SubwordEdit.edit].
  rewrite (startswith2_not_K _ _ _ HKA), HKA.
  rewrite (findall_append_render ops H).
  now rewrite (append_texts ops (strict_well_formed ops H)).
Qed.

Lemma keep_append_result_witness :
  Tag.strict [Tag.Keep; Tag.Append "x"; Tag.Insert "q"; Tag.Append "yz"] = true
  /\ startswith "KA" "KA_[x]I_[q]A_[yz]" = true
  /\ SubwordEdit.apply (SubwordEdit.mk "##ab" "ab" "KA_[x]I_[q]A_[yz]") "##ab"
     = Ok "##ab x yz".
Proof.
  do 2 (split; [reflexivity|]).
  apply (keep_append_result
           [Tag.Keep; Tag.Append "x"; Tag.Insert "q"; Tag.Append "yz"]
           "##ab" "ab" "##ab"); reflexivity.
Defined.

Lemma startswith_DA_not_KA (s : string) :
  startswith "DA" s = true -> startswith "KA" s = false.
Proof.
  destruct s as [|x s]; cbn [startswith]; [discriminate|].
  destruct (Ascii.eqb_spec "D" x) as [<- | _]; [reflexivity | discriminate].
Qed.

(** X11: a tag that begins with DA, made of operations whose texts hold
    no bracket and no line break, drops the piece and returns the texts of
    its appends one after the other, without a space between them. *)
Theorem delete_append_result (ops : list Tag.op)
    (subword raw_subword piece : string) :
  Tag.strict ops = true ->
  startswith "DA" (Tag.render ops) = true ->
  SubwordEdit.apply (SubwordEdit.mk subword raw_subword (Tag.render ops)) piece
  = Ok (join (map Tag.append_text (filter Tag.is_append ops))).
Proof.
  intros H HDA. unfold SubwordEdit.apply, SubwordEdit._apply_append.
  cbn [SubwordEdit.edit].
  rewrite (startswith2_not_K _ _ _ HDA), (startswith_DA_not_KA _ HDA), HDA.
  rewrite (findall_append_render ops H).
  now rewrite (append_texts ops (strict_well_formed ops H)).
Qed.

Lemma delete_append_result_witness :
  Tag.strict [Tag.Delete; Tag.Append "x"; Tag.Append "yz"] = true
  /\ startswith "DA" "DA_[x]A_[yz]" = true
  /\ SubwordEdit.apply (SubwordEdit.mk "ab" "ab" "DA_[x]A_[yz]") "ab"
     = Ok "xyz".
Proof.
  do 2 (split; [reflexivity|]).
  apply (delete_append_result [Tag.Delete; Tag.Append "x"; Tag.Append "yz"]
           "ab" "ab" "ab"); reflexivity.
Defined.

(** ** Compression, further *)

Lemma canonical_after (o : Tag.op) (ops : list Tag.op) :
  Tag.fixed_width o = true \/ Tag.is_append o = true ->
  Tag.canonical (o :: ops) = Tag.canonical ops.
Proof. destruct o; intros [H | H]; try discriminate; reflexivity. Qed.

Lemma is_insert_cases (o : Tag.op) :
  (exists p, o = Tag.Insert p)
  \/ (Tag.fixed_width o = true \/ Tag.is_append o = true).
Proof. destruct o; eauto. Qed.

Lemma squash_from_canonical (ops : list Tag.op) (ins : string) :
  Tag.canonical (Tag.squash_from ins ops) = true.
Proof.
  revert ins; induction ops as [|o ops IH]; intros ins.
  - cbn [Tag.squash_from]. unfold Tag.flush.
    destruct (ins =? "") eqn:E; [reflexivity|]. simpl. now rewrite E.
  - destruct (is_insert_cases o) as [[p ->] | Ho]; [apply IH|].
    assert (E : Tag.squash_from ins (o :: ops)
                = (Tag.flush ins ++ o :: Tag.squash_from "" ops)%list)
      by (destruct o; try reflexivity; destruct Ho; discriminate).
    rewrite E. unfold Tag.flush. destruct (ins =? "") eqn:Ei.
    + cbn [app]. rewrite canonical_after by exact Ho. apply IH.
    + cbn [app]. pose proof (IH "") as IH0.
      destruct o; try (destruct Ho; discriminate);
        cbn [Tag.canonical]; rewrite Ei; exact IH0.
Qed.

(** X12: compression puts a well-formed tag in canonical form: the
    result is the text of the operations with their runs of insertions
    merged, and in it no insertion is empty and no two insertions stand
    side by side. *)
Theorem compress_edit_canonical (ops : list Tag.op) :
  Tag.well_formed ops = true ->
  compress_edit (Tag.render ops) = Tag.render (Tag.squash ops)
  /\ Tag.well_formed (Tag.squash ops) = true
  /\ Tag.canonical (Tag.squash ops) = true.
Proof.
  intros H. repeat split.
  - rewrite compress_edit_from. now apply compress_from_render.
  - now apply squash_from_well_formed.
  - apply squash_from_canonical.
Qed.

Lemma compress_edit_canonical_witness :
  Tag.well_formed [Tag.Keep; Tag.Insert "a"; Tag.Insert ""; Tag.Insert "b";
                   Tag.Delete; Tag.Insert ""] = true
  /\ compress_edit "KI_[a]I_[]I_[b]DI_[]" = "KI_[ab]D"
  /\ Tag.well_formed [Tag.Keep; Tag.Insert "ab"; Tag.Delete] = true
  /\ Tag.canonical [Tag.Keep; Tag.Insert "ab"; Tag.Delete] = true.
Proof.
  split; [reflexivity|].
  apply (compress_edit_canonical
           [Tag.Keep; Tag.Insert "a"; Tag.Insert ""; Tag.Insert "b";
            Tag.Delete; Tag.Insert ""]).
  reflexivity.
Defined.

Lemma squash_canonical_fixed (ops : list Tag.op) :
  Tag.canonical ops = true -> Tag.squash ops = ops.
Proof.
  unfold Tag.squash. induction ops as [|o ops IH]; intros H; [reflexivity|].
  destruct (is_insert_cases o) as [[p ->] | Ho].
  - cbn [Tag.canonical] in H. apply andb_true_iff in H as [H Hc].
    apply andb_true_iff in H as [Hp Hn]. apply negb_true_iff in Hp.
    cbn [Tag.squash_from append].
    destruct ops as [|o' ops].
    + simpl. unfold Tag.flush. now rewrite Hp.
    + destruct (is_insert_cases o') as [[q ->] | Ho']; [discriminate|].
      assert (E : Tag.squash_from p (o' :: ops)
                  = (Tag.flush p ++ o' :: Tag.squash_from "" ops)%list)
        by (destruct o'; try reflexivity; destruct Ho'; discriminate).
      rewrite E. unfold Tag.flush. rewrite Hp. cbn [app]. do 2 f_equal.
      specialize (IH Hc).
      assert (E' : Tag.squash_from "" (o' :: ops)
                   = o' :: Tag.squash_from "" ops)
        by (destruct o'; try reflexivity; destruct Ho'; discriminate).
      rewrite E' in IH. now injection IH.
  - rewrite canonical_after in H by exact Ho.
    assert (E : Tag.squash_from "" (o :: ops) = o :: Tag.squash_from "" ops)
      by (destruct o; try reflexivity; destruct Ho; discriminate).
    rewrite E. f_equal. now apply IH.
Qed.

(** X13: compression leaves a well-formed tag as it is when the tag has
    no empty insertion and no two insertions side by side; in particular
    a tag without insertions. *)
Theorem compress_edit_fixed (ops : list Tag.op) :
  Tag.well_formed ops = true ->
  Tag.canonical ops = true ->
  compress_edit (Tag.render ops) = Tag.render ops.
Proof.
  intros H Hc. rewrite compress_edit_from, (compress_from_render ops "" H).
  fold (Tag.squash ops). now rewrite squash_canonical_fixed.
Qed.

Lemma compress_edit_fixed_witness :
  Tag.well_formed [Tag.Insert "ab"; Tag.KeepRun; Tag.Replace "c";
                   Tag.Insert "d"; Tag.Append "e"] = true
  /\ Tag.canonical [Tag.Insert "ab"; Tag.KeepRun; Tag.Replace "c";
                    Tag.Insert "d"; Tag.Append "e"] = true
  /\ compress_edit "I_[ab]K*R_[c]I_[d]A_[e]" = "I_[ab]K*R_[c]I_[d]A_[e]".
Proof.
  do 2 (split; [reflexivity|]).
  apply (compress_edit_fixed
           [Tag.Insert "ab"; Tag.KeepRun; Tag.Replace "c"; Tag.Insert "d";
            Tag.Append "e"]); reflexivity.
Defined.

Lemma counted_squash (ops : list Tag.op) (ins : string) :
  filter (fun e => negb (SubwordEdit.consumes_nothing e))
         (map Tag.render_op (Tag.squash_from ins ops))
  = filter (fun e => negb (SubwordEdit.consumes_nothing e))
           (map Tag.render_op ops).
Proof.
  revert ins; induction ops as [|o ops IH]; intros ins.
  - cbn [Tag.squash_from]. unfold Tag.flush. now destruct (ins =? "").
  - destruct (is_insert_cases o) as [[p ->] | Ho].
    + cbn [Tag.squash_from map filter]. rewrite IH. reflexivity.
    + assert (E : Tag.squash_from ins (o :: ops)
                  = (Tag.flush ins ++ o :: Tag.squash_from "" ops)%list)
        by (destruct o; try reflexivity; destruct Ho; discriminate).
      rewrite E, map_app, filter_app. cbn [map filter]. rewrite IH.
      unfold Tag.flush. now destruct (ins =? "").
Qed.

(** X14: compression does not change the verdict of the validator: for
    every tag made of operations whose texts hold no bracket and no line
    break and whose insertions are not empty, and for every piece,
    [is_applicable] answers the same for the compressed tag as for the
    tag. *)
Theorem compress_preserves_applicable (ops : list Tag.op)
    (subword raw_subword piece : string) :
  Tag.strict ops = true ->
  SubwordEdit.is_applicable
    (SubwordEdit.mk subword raw_subword (compress_edit (Tag.render ops))) piece
  = SubwordEdit.is_applicable
      (SubwordEdit.mk subword raw_subword (Tag.render ops)) piece.
Proof.
  intros H. pose proof (strict_well_formed ops H) as Hwf.
  rewrite compress_edit_from, (compress_from_render ops "" Hwf).
  fold (Tag.squash ops).
  assert (Hswf : Tag.well_formed (Tag.squash ops) = true)
    by (now apply squash_from_well_formed).
  unfold SubwordEdit.is_applicable, SubwordEdit.applicable_tokens.
  cbn [SubwordEdit.edit].
  rewrite (eqb_K_take2 (Tag.render (Tag.squash ops))).
  rewrite (startswith2_take2 _ _ (Tag.render (Tag.squash ops))).
  rewrite (take2_squash ops H).
  rewrite <- (eqb_K_take2 (Tag.render ops)).
  rewrite <- (startswith2_take2 _ _ (Tag.render ops)).
  rewrite !findall_char_edits by assumption.
  unfold Tag.squash. now rewrite counted_squash.
Qed.

Lemma compress_preserves_applicable_witness :
  Tag.strict [Tag.KeepRun; Tag.Insert "x"; Tag.Insert "y"; Tag.Replace "z"]
  = true
  /\ SubwordEdit.is_applicable
       (SubwordEdit.mk "##abc" "abc" (compress_edit "K*I_[x]I_[y]R_[z]"))
       "##abc"
     = SubwordEdit.is_applicable
         (SubwordEdit.mk "##abc" "abc" "K*I_[x]I_[y]R_[z]") "##abc".
Proof.
  split; [reflexivity|].
  apply (compress_preserves_applicable
           [Tag.KeepRun; Tag.Insert "x"; Tag.Insert "y"; Tag.Replace "z"]).
  reflexivity.
Defined.

(** ** The encoder, further *)

Lemma bind_ok_raise {A B} (r : res A) (f : A -> B) (e : error) :
  (x <- r ;; Ok (f x)) = Raise e <-> r = Raise e.
Proof. destruct r; simpl; split; congruence. Qed.

Lemma nonspace_count_le (s : string) : nonspace_count s <= String.length s.
Proof.
  induction s as [|c s IH]; simpl; [lia|]. destruct (Ascii.eqb c " "); lia.
Qed.

Lemma nonspace_count_all (s : string) :
  char_in " " s = false -> nonspace_count s = String.length s.
Proof.
  induction s as [|c s IH]; [reflexivity|]. cbn [char_in nonspace_count].
  intros H. apply orb_false_iff in H as [Hc H].
  rewrite Ascii.eqb_sym, Hc, IH by exact H. reflexivity.
Qed.

Lemma get_edits_outside_fallback (src tgt : string) :
  in_fallback src tgt = false -> exists e, get_edits src tgt = Ok e.
Proof.
  unfold in_fallback, get_edits.
  destruct (tgt =? ""); [eauto|].
  destruct (contains tgt src); [eauto|].
  destruct ((String.length (strip src) =? 1)%nat
            && (String.length tgt =? 1)%nat); [eauto|].
  cbn [negb andb]. discriminate.
Qed.

(** X15: [get_edits] returns a tag except in its general fallback with a
    target longer than the number of source characters other than the
    space; there, and only there, it stops, and always on the assertion. *)
Theorem get_edits_returns (src tgt : string) :
  ((exists e, get_edits src tgt = Ok e)
   <-> in_fallback src tgt = false \/ String.length tgt <= nonspace_count src)
  /\ (forall err, get_edits src tgt = Raise err ->
                  err = AssertionError
                  /\ in_fallback src tgt = true
                  /\ nonspace_count src < String.length tgt).
Proof.
  destruct (in_fallback src tgt) eqn:Hf.
  - destruct (get_edits_fallback src tgt Hf) as [Hok Hfail].
    destruct (le_lt_dec (String.length tgt) (nonspace_count src)) as [Hle|Hlt].
    + destruct (Hok Hle) as [e He]. split; [split; eauto|].
      intros err Herr. rewrite He in Herr. discriminate.
    + rewrite (Hfail Hlt). split.
      * split; [intros [e He]; discriminate | intros [|]; [discriminate|lia]].
      * intros err [= <-]. auto.
  - destruct (get_edits_outside_fallback src tgt Hf) as [e He].
    split; [split; eauto|]. intros err Herr. rewrite He in Herr. discriminate.
Qed.

Lemma replacments_ops_raise (src tgt : string) (e : error) :
  Tag.replacments_ops src tgt = Raise e ->
  e = IndexError
  /\ String.length tgt <> 1 /\ String.length tgt < String.length src.
Proof.
  unfold Tag.replacments_ops.
  destruct (Nat.eqb_spec (String.length tgt) 1); [discriminate|].
  destruct (_ =? _)%nat; [discriminate|].
  destruct (Nat.ltb_spec (String.length tgt) (String.length src));
    [|discriminate].
  intros [= <-]. auto.
Qed.

(** X16: [_replacments] reads the target by the positions of the source:
    it stops exactly when the target is shorter than the source and is
    not a single character, and then always on an index out of range. *)
Theorem replacments_raises (src tgt : string) :
  ((exists e, Edit._replacments src tgt = Raise e)
   <-> String.length tgt <> 1 /\ String.length tgt < String.length src)
  /\ (forall e, Edit._replacments src tgt = Raise e -> e = IndexError).
Proof.
  rewrite replacments_render. split; [split|].
  - intros [e He]. apply bind_ok_raise in He.
    now apply replacments_ops_raise in He.
  - intros [H1 Hlt]. exists IndexError. apply bind_ok_raise.
    unfold Tag.replacments_ops.
    destruct (Nat.eqb_spec (String.length tgt) 1); [lia|].
    destruct (Nat.eqb_spec (String.length src) (String.length tgt)); [lia|].
    destruct (Nat.ltb_spec (String.length tgt) (String.length src));
      [reflexivity | lia].
  - intros e He. apply bind_ok_raise in He.
    now apply replacments_ops_raise in He.
Qed.

Lemma get_edits_raise (src tgt : string) (e : error) :
  get_edits src tgt = Raise e ->
  e = AssertionError /\ nonspace_count src < String.length tgt.
Proof.
  intros H. destruct (in_fallback src tgt) eqn:Hf.
  - destruct (get_edits_fallback src tgt Hf) as [Hok Hfail].
    destruct (le_lt_dec (String.length tgt) (nonspace_count src)) as [Hle|Hlt].
    + destruct (Hok Hle) as [x Hx]. congruence.
    + rewrite (Hfail Hlt) in H. injection H as <-. auto.
  - destruct (get_edits_outside_fallback src tgt Hf) as [x Hx]. congruence.
Qed.

Lemma detailed_group_raise (s t : string) (e : error) :
  Edit.detailed_group s t = Raise e ->
  e = AssertionError
  /\ String.length t < String.length s /\ nonspace_count s < String.length t.
Proof.
  unfold Edit.detailed_group.
  destruct (s =? t); [discriminate|].
  destruct (_ && _); [discriminate|].
  destruct (_ && _); [discriminate|].
  destruct (_ && _); [discriminate|].
  destruct (_ && _); [discriminate|].
  destruct (Nat.ltb_spec (String.length t) (String.length s)) as [Hlt|Hge].
  - intros H. apply get_edits_raise in H as [-> H]. auto.
  - rewrite replacments_render. intros H. apply bind_ok_raise in H.
    apply replacments_ops_raise in H. lia.
Qed.

Lemma sequence_raise {A} (l : list (res A)) (e : error) :
  sequence l = Raise e -> In (Raise e) l.
Proof.
  induction l as [|r l IH]; [discriminate|]. cbn [sequence].
  destruct r as [a|e']; cbn [bind].
  - destruct (sequence l) as [t|e'']; [discriminate|].
    cbn [bind]. intros [= <-]. right. now apply IH.
  - intros [= <-]. now left.
Qed.

Lemma create_raise (S T : list string) (e : error) :
  Edit.create S T = Raise e ->
  e = AssertionError
  /\ exists s t, In (s, t) (combine S T)
                 /\ String.length t < String.length s
                 /\ nonspace_count s < String.length t.
Proof.
  unfold Edit.create.
  destruct (list_eqb S T); [discriminate|].
  destruct (_ && _); [discriminate|].
  destruct (_ && _); [discriminate|].
  destruct (is_merge S T); [discriminate|].
  unfold Edit._generate_detailed_edit.
  destruct (sequence _) as [edit|e'] eqn:E; [discriminate|].
  cbn [bind]. intros [= <-].
  apply sequence_raise, in_map_iff in E as ([s t] & Hst & Hin).
  apply detailed_group_raise in Hst as (-> & H1 & H2).
  split; [reflexivity|]. now exists s, t.
Qed.

(** X17: [Edit.create] stops on nothing but the assertion of
    [get_edits]: the index errors of [_replacments] cannot occur, since it
    is called with a target at least as long as the source.  When it
    stops, some aligned pair has a source group longer than its target
    group and with fewer characters other than the space than the target
    group has characters. *)
Theorem create_raises_assertion (S T : list string) (e : error) :
  Edit.create S T = Raise e ->
  e = AssertionError
  /\ exists s t, In (s, t) (combine S T)
                 /\ String.length t < String.length s
                 /\ nonspace_count s < String.length t.
Proof. exact (create_raise S T e). Qed.

Lemma create_raises_assertion_witness :
  Edit.create ["a  "] ["xy"] = Raise AssertionError
  /\ AssertionError = AssertionError
  /\ exists s t, In (s, t) (combine ["a  "] ["xy"])
                 /\ String.length t < String.length s
                 /\ nonspace_count s < String.length t.
Proof.
  split; [reflexivity|].
  apply (create_raises_assertion ["a  "] ["xy"] AssertionError). reflexivity.
Defined.

(** X18: [Edit.create] returns an edit for the joined source word
    whenever no source group holds a space, whatever the target groups
    are. *)
Theorem create_returns_without_spaces (S T : list string) :
  forallb (fun s => negb (char_in " " s)) S = true ->
  exists tag, Edit.create S T = Ok (Edit.mk (join S) tag).
Proof.
  intros HS. destruct (Edit.create S T) as [r|e] eqn:E.
  - exists (Edit.edit r). f_equal. revert E. unfold Edit.create.
    destruct (list_eqb S T); [now intros [= <-]|].
    destruct (_ && _); [now intros [= <-]|].
    destruct (_ && _); [now intros [= <-]|].
    destruct (is_merge S T); [now intros [= <-]|].
    destruct (Edit._generate_detailed_edit S T); [|discriminate].
    now intros [= <-].
  - apply create_raise in E as (_ & s & t & Hin & H1 & H2).
    apply in_combine_l in Hin.
    rewrite forallb_forall in HS. specialize (HS s Hin).
    apply negb_true_iff in HS. rewrite (nonspace_count_all s HS) in H2. lia.
Qed.

Lemma create_returns_without_spaces_witness :
  forallb (fun s => negb (char_in " " s)) ["ab"; "c"; ""] = true
  /\ exists tag,
       Edit.create ["ab"; "c"; ""] ["x"; "cd"; "y"]
       = Ok (Edit.mk (join ["ab"; "c"; ""]) tag).
Proof.
  split; [reflexivity|].
  apply (create_returns_without_spaces ["ab"; "c"; ""] ["x"; "cd"; "y"]).
  reflexivity.
Defined.

Lemma encoder_repeat (o : Tag.op) (n : nat) :
  Tag.encoder_op o = true -> forallb Tag.encoder_op (repeat o n) = true.
Proof. intros H. induction n; simpl; [reflexivity | now rewrite H]. Qed.

Lemma encoder_map {A} (f : A -> Tag.op) (l : list A) :
  (forall x, Tag.encoder_op (f x) = true) ->
  forallb Tag.encoder_op (map f l) = true.
Proof.
  intros H. induction l as [|a l IH]; simpl; [reflexivity|].
  now rewrite H, IH.
Qed.

Lemma encoder_flat_map {A} (f : A -> list Tag.op) (l : list A) :
  (forall x, forallb Tag.encoder_op (f x) = true) ->
  forallb Tag.encoder_op (flat_map f l) = true.
Proof.
  intros H. induction l as [|a l IH]; [reflexivity|].
  cbn [flat_map]. now rewrite forallb_app, H, IH.
Qed.

Lemma scan_ops_encoder (src tgt : string) :
  let '(ops, _, _) := Tag.scan_ops src tgt in
  forallb Tag.encoder_op ops = true.
Proof.
  revert tgt; induction src as [|c src IH]; intros tgt.
  - now destruct tgt.
  - destruct tgt as [|t tgt]; [reflexivity|].
    cbn [Tag.scan_ops]. destruct (negb (Ascii.eqb c " ")).
    + specialize (IH tgt). now destruct (Tag.scan_ops src tgt) as [[ops sr] tr].
    + specialize (IH (String t tgt)).
      now destruct (Tag.scan_ops src (String t tgt)) as [[ops sr] tr].
Qed.

Lemma get_edits_ops_encoder (src tgt : string) (ops : list Tag.op) :
  Tag.get_edits_ops src tgt = Ok ops -> forallb Tag.encoder_op ops = true.
Proof.
  unfold Tag.get_edits_ops.
  destruct (tgt =? ""); [intros [= <-]; now apply encoder_repeat|].
  destruct (contains tgt src).
  { intros [= <-]. apply encoder_map. intros c.
    now destruct (negb (char_in c tgt)). }
  destruct (_ && _).
  { intros [= <-]. apply encoder_map. intros c.
    now destruct (Ascii.eqb c " "). }
  pose proof (scan_ops_encoder src tgt) as Hs.
  destruct (Tag.scan_ops src tgt) as [[o sr] tr].
  destruct (tr =? ""); [|discriminate]. intros [= <-].
  now rewrite forallb_app, Hs, encoder_repeat.
Qed.

Lemma replacments_ops_encoder (src tgt : string) (ops : list Tag.op) :
  Tag.replacments_ops src tgt = Ok ops -> forallb Tag.encoder_op ops = true.
Proof.
  unfold Tag.replacments_ops.
  destruct (_ =? 1)%nat; [now intros [= <-]|].
  destruct (_ =? _)%nat.
  { intros [= <-]. apply encoder_flat_map. intros [s t].
    now destruct (Ascii.eqb s " "). }
  destruct (_ <? _)%nat; [discriminate|]. intros [= <-].
  now rewrite forallb_app, !encoder_map.
Qed.

Lemma group_ops_encoder (src tgt : string) (ops : list Tag.op) :
  Tag.group_ops src tgt = Ok ops -> forallb Tag.encoder_op ops = true.
Proof.
  unfold Tag.group_ops.
  destruct (src =? tgt).
  { intros [= <-]. destruct (src =? " "); [reflexivity|].
    now apply encoder_repeat. }
  destruct (_ && _); [now intros [= <-]|].
  destruct (_ && _); [now intros [= <-]|].
  destruct (_ && _).
  { intros [= <-]. apply encoder_map. intros c.
    now destruct (negb (Ascii.eqb c " ")). }
  destruct (_ && _); [now intros [= <-]|].
  destruct (_ <? _)%nat;
    eauto using get_edits_ops_encoder, replacments_ops_encoder.
Qed.

Lemma detailed_ops_encoder (S T : list string) (ops : list Tag.op) :
  Tag.detailed_ops S T = Ok ops -> forallb Tag.encoder_op ops = true.
Proof.
  unfold Tag.detailed_ops. revert T ops.
  induction S as [|s S IH]; intros T ops; [now intros [= <-]|].
  destruct T as [|t T]; [now intros [= <-]|].
  cbn [combine map sequence].
  destruct (Tag.group_ops s t) as [g|] eqn:Eg; [|discriminate].
  cbn [bind]. specialize (IH T).
  destruct (sequence _) as [gs|]; [|discriminate].
  cbn [bind]. intros [= <-]. cbn [List.concat].
  rewrite forallb_app, (group_ops_encoder _ _ _ Eg). now apply IH.
Qed.

Lemma plain_text_join (l : list string) :
  forallb Tag.plain_text l = true -> Tag.plain_text (join l) = true.
Proof.
  induction l as [|a l IH]; [reflexivity|]. cbn [forallb]. intros H.
  apply andb_true_iff in H as [Ha H].
  now rewrite join_cons, plain_text_app, Ha, IH.
Qed.

(** The tag of [Edit.create] as a list of operations. *)
Lemma create_ops (S T : list string) (e : Edit.t) :
  Edit.create S T = Ok e ->
  exists ops, Edit.edit e = Tag.render ops
              /\ forallb Tag.encoder_op ops = true
              /\ (forallb Tag.plain_text T = true ->
                  Tag.well_formed ops = true).
Proof.
  unfold Edit.create.
  destruct (list_eqb S T).
  { intros [= <-]. now exists [Tag.Keep]. }
  destruct (_ && _).
  { intros [= <-]. exists [Tag.Insert (join T)].
    repeat split. intros HT. simpl. now rewrite plain_text_join. }
  destruct (_ && _).
  { intros [= <-]. now exists [Tag.Delete]. }
  destruct (is_merge S T).
  { intros [= <-].
    exists (map (fun c => if negb (c =? " ") then Tag.Keep else Tag.Merge) S).
    cbn [Edit.edit]. repeat split.
    - apply join_map_render. intros c. now destruct (negb (c =? " ")).
    - apply encoder_map. intros c. now destruct (negb (c =? " ")).
    - intros _. apply well_formed_map. intros c _.
      now destruct (negb (c =? " ")). }
  rewrite generate_detailed_edit_render.
  destruct (Tag.detailed_ops S T) as [ops|] eqn:E; [|discriminate].
  cbn [bind]. intros [= <-]. exists ops. cbn [Edit.edit].
  repeat split.
  - now apply (detailed_ops_encoder S T).
  - intros HT. now apply (detailed_ops_well_formed S T).
Qed.

(** X19: a tag made by [Edit.create] for target groups without closing
    bracket and line break never holds a run operator or an append: none
    of the tokens the applier reads from it is K*, D* or begins with A. *)
Theorem create_no_runs (S T : list string) (e : Edit.t) :
  forallb Tag.plain_text T = true ->
  Edit.create S T = Ok e ->
  forallb (fun tok => negb (SubwordEdit.is_one_of tok ["K*"; "D*"])
                      && negb (startswith "A" tok))
          (Re.findall Re.char_edit_re (Edit.edit e)) = true.
Proof.
  intros HT Hc. destruct (create_ops S T e Hc) as (ops & -> & He & Hwf).
  rewrite findall_char_edits by auto.
  clear Hwf Hc. induction ops as [|o ops IH]; [reflexivity|].
  cbn [forallb] in He. apply andb_true_iff in He as [Ho He].
  cbn [map forallb]. rewrite (IH He), andb_true_r.
  destruct o; try discriminate; reflexivity.
Qed.

Lemma create_no_runs_witness :
  forallb Tag.plain_text ["x"; ""; "b"; "yz"] = true
  /\ Edit.create ["a"; " "; "bc"; ""] ["x"; ""; "b"; "yz"]
     = Ok (Edit.mk "a bc" "R_[x]MKDI_[yz]")
  /\ forallb (fun tok => negb (SubwordEdit.is_one_of tok ["K*"; "D*"])
                         && negb (startswith "A" tok))
             (Re.findall Re.char_edit_re "R_[x]MKDI_[yz]") = true.
Proof.
  do 2 (split; [reflexivity|]).
  apply (create_no_runs ["a"; " "; "bc"; ""] ["x"; ""; "b"; "yz"]
           (Edit.mk "a bc" "R_[x]MKDI_[yz]")); reflexivity.
Defined.

(** ** The projector on simple tags *)

Lemma project_re_run (c : ascii) (s : string) :
  c = "K"%char \/ c = "D"%char ->
  Re.project_re (String c s) = Some (String c (fst (Re.span c s))).
Proof.
  intros [-> | ->]; unfold Re.project_re, Re.alt;
    rewrite !bracket_op_other by reflexivity; unfold Re.plus; simpl;
    destruct (Re.span _ s); reflexivity.
Qed.

Lemma project_re_bracket (x : ascii) (p r : string) :
  In x ["I"; "R"]%char ->
  Tag.plain_text p = true ->
  Tag.starts_with_char "]" r = false ->
  Re.project_re (String x (String "_" (String "[" (p ++ String "]" r))))
  = Some (String x (String "_" (String "[" (p ++ "]")))).
Proof.
  intros H Hp Hr. unfold Re.project_re, Re.alt.
  destruct H as [<- | [<- | []]];
    rewrite ?(bracket_op_other "I" "R") by reflexivity;
    rewrite bracket_op_plain by assumption; reflexivity.
Qed.

(** A block of K or of D is one token of the projector's pattern and is
    neither an insertion nor a replacement. *)
Lemma project_filter_run (f : string -> bool) (c : ascii) (s : string) :
  c = "K"%char \/ c = "D"%char ->
  (forall a, f (String c a) = false) ->
  filter f (Re.findall Re.project_re (String c s))
  = filter f (Re.findall Re.project_re s).
Proof.
  intros Hc Hf.
  destruct (span_spec c s) as (a & b & E & -> & Hb & Ha).
  assert (Hm : Re.project_re (String c a ++ b) = Some (String c a)).
  { change (String c a ++ b) with (String c (a ++ b)).
    rewrite (project_re_run _ _ Hc), E. reflexivity. }
  change (String c (a ++ b)) with (String c a ++ b).
  rewrite (findall_token Re.project_re (String c a) b)
    by first [discriminate | exact Hm].
  cbn [filter]. rewrite Hf.
  destruct Ha as [-> | [a' ->]]; [reflexivity|].
  assert (Hm' : Re.project_re (String c a' ++ b) = Some (String c a')).
  { change (String c a' ++ b) with (String c (a' ++ b)).
    rewrite (project_re_run _ _ Hc). simpl in E.
    rewrite Ascii.eqb_refl in E. destruct (Re.span c (a' ++ b)).
    inversion E; subst. reflexivity. }
  rewrite (findall_token Re.project_re (String c a') b)
    by first [discriminate | exact Hm'].
  cbn [filter]. now rewrite Hf.
Qed.

Lemma project_tokens_bracket (x : ascii) (p r : string) :
  In x ["I"; "R"]%char ->
  Tag.plain_text p = true ->
  Tag.starts_with_char "]" r = false ->
  Re.findall Re.project_re
    (String x (String "_" (String "[" (p ++ "]"))) ++ r)
  = String x (String "_" (String "[" (p ++ "]")))
    :: Re.findall Re.project_re r.
Proof.
  intros Hx Hp Hr. apply findall_token; [discriminate|].
  rewrite bracket_text. now apply project_re_bracket.
Qed.

Lemma filter_hit {A} (f : A -> bool) (a : A) (l : list A) :
  f a = true -> filter f (a :: l) = a :: filter f l.
Proof. intros H. simpl. now rewrite H. Qed.

Lemma filter_miss {A} (f : A -> bool) (a : A) (l : list A) :
  f a = false -> filter f (a :: l) = filter f l.
Proof. intros H. simpl. now rewrite H. Qed.

(** The insertions and the replacements that the projector reads from
    the tag beforehand are those of the operations, in order. *)
Lemma project_queues (ops : list Tag.op) :
  Tag.well_formed ops = true ->
  forallb simple_op ops = true ->
  filter (startswith "I_[") (Re.findall Re.project_re (Tag.render ops))
  = map Tag.render_op (filter is_insert ops)
  /\ filter (startswith "R_[") (Re.findall Re.project_re (Tag.render ops))
     = map Tag.render_op (filter is_replace ops).
Proof.
  induction ops as [|o ops IH]; intros H Hs; [split; reflexivity|].
  apply well_formed_cons in H as [Ho H].
  cbn [forallb] in Hs. apply andb_true_iff in Hs as [Hso Hs].
  destruct (IH H Hs) as [IHi IHr].
  pose proof (render_clean_head ops) as [Hb _].
  rewrite render_cons.
  destruct o as [| | | | | |p|p|p]; try discriminate;
    cbn [Tag.render_op filter is_insert is_replace map].
  - change ("K" ++ Tag.render ops) with (String "K" (Tag.render ops)).
    rewrite !project_filter_run by (auto; reflexivity). now split.
  - change ("D" ++ Tag.render ops) with (String "D" (Tag.render ops)).
    rewrite !project_filter_run by (auto; reflexivity). now split.
  - change ("I_[" ++ p ++ "]")
      with (String "I" (String "_" (String "[" (p ++ "]")))).
    rewrite project_tokens_bracket by (simpl; auto).
    rewrite filter_hit, filter_miss by reflexivity.
    split; [now f_equal | assumption].
  - change ("R_[" ++ p ++ "]")
      with (String "R" (String "_" (String "[" (p ++ "]")))).
    rewrite project_tokens_bracket by (simpl; auto).
    rewrite filter_miss, filter_hit by reflexivity.
    split; [assumption | now f_equal].
Qed.

Ltac eval_char_tests :=
  repeat match goal with
         | |- context [Ascii.eqb ?a ?b] =>
             let v := eval vm_compute in (Ascii.eqb a b) in
             change (Ascii.eqb a b) with v
         end;
  cbn [negb orb andb]; cbv iota.

Lemma cursor_after (done : list Tag.op) (o : Tag.op) :
  String.length (Tag.render (done ++ [o]))
  = String.length (Tag.render done) + String.length (Tag.render_op o).
Proof.
  rewrite render_app, length_append, render_cons, render_nil, append_nil_r.
  reflexivity.
Qed.

Lemma tag_at_cursor (done rest : list Tag.op) (c : ascii) (s : string) :
  (String.length (Tag.render done ++ String c s)
   <=? String.length (Tag.render done))%nat = false
  /\ getitem (Tag.render done ++ String c s) (String.length (Tag.render done))
     = Ok c.
Proof.
  split; [|apply getitem_app].
  apply Nat.leb_gt. rewrite length_append. simpl. lia.
Qed.

(** One turn of the projector on a simple operation: the operation goes
    to the tag of the piece and the cursor moves past it. *)
Lemma piece_step_simple (done rest : list Tag.op) (o : Tag.op) (n : nat)
    (se : string) (tags : list string) :
  simple_op o = true ->
  SubwordEdits.piece_step (Tag.render (done ++ o :: rest)) n se
    (cursor_at done (o :: rest) tags)
  = Ok (n - Tag.op_width o, se ++ Tag.render_op o,
        cursor_at (done ++ [o]) rest tags).
Proof.
  intros Ho. unfold SubwordEdits.piece_step, cursor_at.
  cbn [SubwordEdits.idx SubwordEdits.subword_edits SubwordEdits.inserts
       SubwordEdits.replaces].
  rewrite cursor_after, render_app, render_cons.
  destruct o as [| | | | | |p|p|p]; try discriminate;
    cbn [Tag.render_op Tag.op_width filter is_insert is_replace map].
  - change ("K" ++ Tag.render rest) with (String "K" (Tag.render rest)).
    destruct (tag_at_cursor done rest "K" (Tag.render rest)) as [-> ->].
    cbn [bind]. eval_char_tests. reflexivity.
  - change ("D" ++ Tag.render rest) with (String "D" (Tag.render rest)).
    destruct (tag_at_cursor done rest "D" (Tag.render rest)) as [-> ->].
    cbn [bind]. eval_char_tests. reflexivity.
  - change (("I_[" ++ p ++ "]") ++ Tag.render rest)
      with (String "I" (("_[" ++ p ++ "]") ++ Tag.render rest)).
    destruct (tag_at_cursor done rest "I" (("_[" ++ p ++ "]") ++ Tag.render rest))
      as [-> ->].
    cbn [bind]. eval_char_tests. cbn [SubwordEdits.pop0 bind].
    now rewrite Nat.sub_0_r.
  - change (("R_[" ++ p ++ "]") ++ Tag.render rest)
      with (String "R" (("_[" ++ p ++ "]") ++ Tag.render rest)).
    destruct (tag_at_cursor done rest "R" (("_[" ++ p ++ "]") ++ Tag.render rest))
      as [-> ->].
    cbn [bind]. eval_char_tests. reflexivity.
Qed.

Lemma simple_width (o : Tag.op) :
  simple_op o = true -> Tag.op_width o <= 1.
Proof. destruct o; simpl; intros; lia || discriminate. Qed.

Lemma width_cons (o : Tag.op) (ops : list Tag.op) :
  Tag.width (o :: ops) = Tag.op_width o + Tag.width ops.
Proof. reflexivity. Qed.

(** [take_piece] cuts the operations in two: the first part reads [n]
    characters. *)
Lemma take_piece_spec (ops : list Tag.op) (n : nat) :
  forallb simple_op ops = true ->
  n <= Tag.width ops ->
  ops = (fst (take_piece n ops) ++ snd (take_piece n ops))%list
  /\ Tag.width (fst (take_piece n ops)) = n.
Proof.
  revert n; induction ops as [|o ops IH]; intros n Hs Hn.
  - unfold Tag.width in Hn. simpl in Hn. assert (n = 0) as -> by lia.
    split; reflexivity.
  - cbn [forallb] in Hs. apply andb_true_iff in Hs as [Ho Hs].
    cbn [take_piece]. destruct (Nat.eqb_spec n 0) as [-> | Hn0];
      [split; reflexivity|].
    rewrite width_cons in Hn. pose proof (simple_width o Ho) as Hw.
    destruct (IH (n - Tag.op_width o) Hs ltac:(lia)) as [E W].
    destruct (take_piece (n - Tag.op_width o) ops) as [part left].
    cbn [fst snd] in *. split; [cbn [app]; now f_equal|].
    rewrite width_cons, W. lia.
Qed.

(** The [while] loop of the projector on simple operations: the piece
    gets the operations up to the one that reads its last character. *)
Lemma piece_loop_simple (todo done : list Tag.op) (n : nat) (se : string)
    (tags : list string) (fuel : nat) :
  forallb simple_op todo = true ->
  n <= Tag.width todo ->
  SubwordEdits.turns_left (Tag.render (done ++ todo))
    (cursor_at done todo tags) < fuel ->
  SubwordEdits.piece_loop fuel (Tag.render (done ++ todo)) n se
    (cursor_at done todo tags)
  = Ok (se ++ Tag.render (fst (take_piece n todo)),
        cursor_at (done ++ fst (take_piece n todo))
                  (snd (take_piece n todo)) tags).
Proof.
  revert done n se fuel; induction todo as [|o todo IH];
    intros done n se fuel Hs Hn Hf.
  - unfold Tag.width in Hn. simpl in Hn. assert (n = 0) as -> by lia.
    cbn [take_piece fst snd]. rewrite render_nil, append_nil_r, app_nil_r.
    now destruct fuel.
  - cbn [take_piece]. destruct (Nat.eqb_spec n 0) as [-> | Hn0].
    { cbn [fst snd]. rewrite render_nil, append_nil_r, app_nil_r.
      now destruct fuel. }
    cbn [forallb] in Hs. apply andb_true_iff in Hs as [Ho Hs].
    rewrite width_cons in Hn. pose proof (simple_width o Ho) as Hw.
    destruct fuel as [|fuel]; [lia|].
    cbn [SubwordEdits.piece_loop].
    destruct (Nat.eqb_spec n 0) as [|_]; [contradiction|].
    pose proof (piece_step_simple done todo o n se tags Ho) as Hstep.
    rewrite Hstep. cbn [bind].
    apply piece_step_progress in Hstep as [Hturn _].
    replace (done ++ o :: todo)%list with ((done ++ [o]) ++ todo)%list in *
      by (now rewrite <- app_assoc).
    rewrite (IH (done ++ [o])%list (n - Tag.op_width o) (se ++ Tag.render_op o)
               fuel Hs) by lia.
    destruct (take_piece (n - Tag.op_width o) todo) as [part left].
    cbn [fst snd]. rewrite render_cons, append_assoc, <- app_assoc.
    reflexivity.
Qed.

Lemma take_piece_simple (ops : list Tag.op) (n : nat) :
  forallb simple_op ops = true ->
  n <= Tag.width ops ->
  forallb simple_op (snd (take_piece n ops)) = true
  /\ Tag.width (snd (take_piece n ops)) = Tag.width ops - n.
Proof.
  intros Hs Hn. destruct (take_piece_spec ops n Hs Hn) as [E W].
  rewrite E in Hs at 1. rewrite forallb_app in Hs.
  apply andb_true_iff in Hs as [_ Hs]. split; [exact Hs|].
  rewrite E at 2. rewrite width_app, W. lia.
Qed.

(** [split_pieces] cuts the operations into one block per length, each
    reading as many characters as its length says. *)
Lemma split_pieces_spec (lengths : list nat) (ops : list Tag.op) :
  forallb simple_op ops = true ->
  list_sum lengths <= Tag.width ops ->
  ops = (List.concat (fst (split_pieces lengths ops))
         ++ snd (split_pieces lengths ops))%list
  /\ Forall2 (fun n part => Tag.width part = n)
             lengths (fst (split_pieces lengths ops))
  /\ Tag.width (snd (split_pieces lengths ops))
     = Tag.width ops - list_sum lengths.
Proof.
  revert ops; induction lengths as [|n lengths IH]; intros ops Hs Hn.
  - cbn [split_pieces fst snd List.concat app list_sum].
    split; [reflexivity|]. split; [apply Forall2_nil | simpl; lia].
  - change (list_sum (n :: lengths)) with (n + list_sum lengths) in *.
    cbn [split_pieces].
    destruct (take_piece_spec ops n Hs ltac:(lia)) as [E W].
    destruct (take_piece_simple ops n Hs ltac:(lia)) as [Hl Wl].
    destruct (take_piece n ops) as [part left]. cbn [fst snd] in *.
    destruct (IH left Hl ltac:(lia)) as (E' & F & W').
    destruct (split_pieces lengths left) as [parts rest]. cbn [fst snd] in *.
    split; [|split].
    + cbn [List.concat]. rewrite <- app_assoc, <- E'. exact E.
    + now constructor.
    + rewrite W', Wl. lia.
Qed.

(** The [for] loop of the projector on simple operations. *)
Lemma pieces_loop_simple (subwords : list string) (todo done : list Tag.op)
    (tags : list string) :
  forallb simple_op todo = true ->
  list_sum (map piece_length subwords) <= Tag.width todo ->
  SubwordEdits.pieces_loop (Tag.render (done ++ todo)) subwords
    (cursor_at done todo tags)
  = Ok (cursor_at
          (done ++ List.concat
                     (fst (split_pieces (map piece_length subwords) todo)))
          (snd (split_pieces (map piece_length subwords) todo))
          (tags ++ map Tag.render
                     (fst (split_pieces (map piece_length subwords) todo)))).
Proof.
  revert todo done tags; induction subwords as [|w subwords IH];
    intros todo done tags Hs Hn.
  - cbn [map split_pieces fst snd List.concat SubwordEdits.pieces_loop].
    now rewrite !app_nil_r.
  - cbn [map] in Hn.
    change (list_sum (piece_length w :: map piece_length subwords))
      with (piece_length w + list_sum (map piece_length subwords)) in Hn.
    cbn [map split_pieces SubwordEdits.pieces_loop].
    fold (piece_length w).
    rewrite (piece_loop_simple todo done (piece_length w) "" tags)
      by (auto; lia).
    destruct (take_piece_spec todo (piece_length w) Hs ltac:(lia)) as [E W].
    destruct (take_piece_simple todo (piece_length w) Hs ltac:(lia))
      as [Hl Wl].
    destruct (take_piece (piece_length w) todo) as [part left].
    cbn [fst snd bind] in *.
    change (SubwordEdits.mkCursor
              (SubwordEdits.idx (cursor_at (done ++ part) left tags))
              (SubwordEdits.subword_edits (cursor_at (done ++ part) left tags)
               ++ ["" ++ Tag.render part])
              (SubwordEdits.inserts (cursor_at (done ++ part) left tags))
              (SubwordEdits.replaces (cursor_at (done ++ part) left tags)))
      with (cursor_at (done ++ part) left (tags ++ [Tag.render part])).
    rewrite E at 1. rewrite app_assoc.
    rewrite (IH left (done ++ part)%list) by (auto; lia).
    destruct (split_pieces (map piece_length subwords) left) as [parts rest].
    cbn [fst snd List.concat map].
    now rewrite !app_assoc, <- (app_assoc tags).
Qed.

Lemma extend_last_nil {A} (l : list (list A)) : extend_last l [] = l.
Proof.
  induction l as [|a l IH]; [reflexivity|].
  destruct l as [|b l]; [cbn [extend_last]; now rewrite app_nil_r|].
  change (extend_last (a :: b :: l) []) with (a :: extend_last (b :: l) []).
  now rewrite IH.
Qed.

Lemma extend_last_concat {A} (l : list (list A)) (x : list A) :
  l <> [] -> List.concat (extend_last l x) = (List.concat l ++ x)%list.
Proof.
  induction l as [|a l IH]; [congruence|]. intros _.
  destruct l as [|b l]; [cbn; now rewrite !app_nil_r|].
  change (extend_last (a :: b :: l) x) with (a :: extend_last (b :: l) x).
  cbn [List.concat] in *. rewrite IH by discriminate.
  now rewrite !app_assoc.
Qed.

Lemma extend_last_render (parts : list (list Tag.op)) (x : list Tag.op) :
  parts <> [] ->
  SubwordEdits.append_to_last (map Tag.render parts) (Tag.render x)
  = Ok (map Tag.render (extend_last parts x)).
Proof.
  induction parts as [|a parts IH]; [congruence|]. intros _.
  destruct parts as [|b parts]; [cbn; now rewrite render_app|].
  change (extend_last (a :: b :: parts) x)
    with (a :: extend_last (b :: parts) x).
  change (SubwordEdits.append_to_last (map Tag.render (a :: b :: parts))
            (Tag.render x))
    with (r <- SubwordEdits.append_to_last (map Tag.render (b :: parts))
                 (Tag.render x) ;;
          Ok (Tag.render a :: r)).
  rewrite IH by discriminate. reflexivity.
Qed.

Lemma extend_last_width (lengths : list nat) (parts : list (list Tag.op))
    (x : list Tag.op) :
  Tag.width x = 0 ->
  Forall2 (fun n part => Tag.width part = n) lengths parts ->
  Forall2 (fun n part => Tag.width part = n) lengths (extend_last parts x).
Proof.
  intros Hx. induction 1 as [|n part lengths parts Hn F IH]; [constructor|].
  destruct parts as [|b parts].
  - inversion F; subst. cbn [extend_last]. constructor; [|constructor].
    rewrite width_app. lia.
  - change (extend_last (part :: b :: parts) x)
      with (part :: extend_last (b :: parts) x).
    now constructor.
Qed.

Lemma drop_app_length (a b : string) : drop (String.length a) (a ++ b) = b.
Proof. induction a as [|c a IH]; [now destruct b | exact IH]. Qed.

(** The per-piece tags of the projector for a tag of simple operations:
    the blocks of [split_pieces], the last one taking what is left. *)
Lemma project_tags_blocks (subwords : list string) (ops : list Tag.op) :
  Tag.well_formed ops = true ->
  forallb simple_op ops = true ->
  subwords <> [] ->
  list_sum (map piece_length subwords) <= Tag.width ops ->
  SubwordEdits.project_tags subwords (Tag.render ops)
  = Ok (map Tag.render
          (extend_last (fst (split_pieces (map piece_length subwords) ops))
                       (snd (split_pieces (map piece_length subwords) ops)))).
Proof.
  intros Hwf Hs Hne Hn. unfold SubwordEdits.project_tags.
  destruct (project_queues ops Hwf Hs) as [-> ->].
  change (SubwordEdits.mkCursor 0 [] (map Tag.render_op (filter is_insert ops))
            (map Tag.render_op (filter is_replace ops)))
    with (cursor_at [] ops []).
  change (Tag.render ops) with (Tag.render ([] ++ ops)) at 1.
  rewrite (pieces_loop_simple subwords ops [] [] Hs Hn). cbn [bind app].
  destruct (split_pieces_spec (map piece_length subwords) ops Hs Hn)
    as (E & F & _).
  destruct (split_pieces (map piece_length subwords) ops) as [parts left].
  cbn [fst snd] in *. unfold cursor_at.
  cbn [SubwordEdits.idx SubwordEdits.subword_edits].
  assert (Hparts : parts <> []).
  { intros ->. inversion F as [Hl|]; subst. destruct subwords; [|discriminate].
    congruence. }
  rewrite E. rewrite render_app, length_append, drop_app_length.
  destruct left as [|o left].
  - rewrite render_nil. cbn [String.length]. rewrite Nat.add_0_r, Nat.ltb_irrefl.
    now rewrite extend_last_nil.
  - assert (Hlt : (String.length (Tag.render (List.concat parts))
                   <? String.length (Tag.render (List.concat parts))
                      + String.length (Tag.render (o :: left)))%nat = true).
    { apply Nat.ltb_lt. rewrite render_cons, length_append.
      pose proof (render_op_nonempty o) as Ho.
      destruct (Tag.render_op o); [congruence | simpl; lia]. }
    rewrite Hlt. now apply extend_last_render.
Qed.

Lemma sub_soft_keep_absent (prev : option ascii) (s : string) :
  char_in "S" s = false -> Re.sub_soft_keep_from prev s = s.
Proof.
  revert prev; induction s as [|c s IH]; intros prev H; [reflexivity|].
  cbn [char_in] in H. apply orb_false_iff in H as [Hc H].
  cbn [Re.sub_soft_keep_from]. rewrite Ascii.eqb_sym, Hc. cbn [andb].
  now rewrite IH.
Qed.

Lemma blocks_of_pieces (subwords : list string) (parts : list (list Tag.op)) :
  Forall2 (fun n part => Tag.width part = n) (map piece_length subwords) parts
  -> Forall2 (fun w part => Tag.width part = piece_length w) subwords parts.
Proof.
  revert parts; induction subwords as [|w subwords IH]; intros parts F;
    inversion F; subst; constructor; auto.
Qed.

(** The projector on a tag of simple operations without S, for pieces
    that have together as many characters as the tag reads. *)
Lemma project_edit_simple (subwords raw_subwords : list string)
    (ops : list Tag.op) :
  Tag.well_formed ops = true ->
  forallb simple_op ops = true ->
  char_in "S" (Tag.render ops) = false ->
  subwords <> [] ->
  List.length raw_subwords = List.length subwords ->
  list_sum (map piece_length subwords) = Tag.width ops ->
  exists parts,
    SubwordEdits._project_edit subwords raw_subwords (Tag.render ops)
    = Ok (map (fun '(subword, raw_subword, tag) =>
                 SubwordEdit.mk subword raw_subword (compress_edit tag))
              (SubwordEdits.zip3 subwords raw_subwords (map Tag.render parts)))
    /\ List.concat parts = ops
    /\ Forall2 (fun w part => Tag.width part = piece_length w) subwords parts.
Proof.
  intros Hwf Hs HS Hne Hraw Hsum.
  assert (Hn : list_sum (map piece_length subwords) <= Tag.width ops) by lia.
  destruct (split_pieces_spec (map piece_length subwords) ops Hs Hn)
    as (E & F & W).
  pose proof (project_tags_blocks subwords ops Hwf Hs Hne Hn) as Ht.
  destruct (split_pieces (map piece_length subwords) ops) as [parts left].
  cbn [fst snd] in *.
  assert (Hparts : parts <> []).
  { intros ->. inversion F as [Hl|]; subst. destruct subwords; [|discriminate].
    congruence. }
  assert (Hc : List.concat (extend_last parts left) = ops)
    by (rewrite extend_last_concat by exact Hparts; now symmetry).
  assert (HF : Forall2 (fun w part => Tag.width part = piece_length w)
                       subwords (extend_last parts left)).
  { apply blocks_of_pieces, extend_last_width; [lia | exact F]. }
  exists (extend_last parts left). split; [|split; assumption].
  unfold SubwordEdits._project_edit. rewrite Ht. cbn [bind].
  rewrite render_concat, Hc. unfold Re.sub_soft_keep.
  rewrite (sub_soft_keep_absent None _ HS), String.eqb_refl.
  cbn [assert bind]. rewrite length_map.
  rewrite <- (Forall2_length HF), Hraw, !Nat.eqb_refl. reflexivity.
Qed.

(** X20: for a tag of keeps, deletions, insertions and replacements
    without S, and pieces that have together, markers apart, as many
    characters as the tag reads, the projector cuts the tag between
    operations into one block per piece, each block reading as many
    characters as its piece has; the per-piece tags are the compressed
    texts of the blocks. *)
Theorem project_edit_blocks (subwords raw_subwords : list string)
    (ops : list Tag.op) :
  Tag.well_formed ops = true ->
  forallb simple_op ops = true ->
  char_in "S" (Tag.render ops) = false ->
  subwords <> [] ->
  List.length raw_subwords = List.length subwords ->
  list_sum (map piece_length subwords) = Tag.width ops ->
  exists parts,
    SubwordEdits._project_edit subwords raw_subwords (Tag.render ops)
    = Ok (map (fun '(subword, raw_subword, tag) =>
                 SubwordEdit.mk subword raw_subword (compress_edit tag))
              (SubwordEdits.zip3 subwords raw_subwords (map Tag.render parts)))
    /\ List.concat parts = ops
    /\ Forall2 (fun w part => Tag.width part = piece_length w) subwords parts.
Proof. exact (project_edit_simple subwords raw_subwords ops). Qed.

Lemma project_edit_blocks_witness :
  Tag.well_formed [Tag.Keep; Tag.Insert "x"; Tag.Insert "y"; Tag.Replace "z";
                   Tag.Delete; Tag.Insert "w"] = true
  /\ list_sum (map piece_length ["ab"; "##c"]) = 3
  /\ SubwordEdits._project_edit ["ab"; "##c"] ["ab"; "c"]
       "KI_[x]I_[y]R_[z]DI_[w]"
     = Ok [SubwordEdit.mk "ab" "ab" "KI_[xy]R_[z]";
           SubwordEdit.mk "##c" "c" "DI_[w]"]
  /\ exists parts,
       SubwordEdits._project_edit ["ab"; "##c"] ["ab"; "c"]
         (Tag.render [Tag.Keep; Tag.Insert "x"; Tag.Insert "y";
                      Tag.Replace "z"; Tag.Delete; Tag.Insert "w"])
       = Ok (map (fun '(subword, raw_subword, tag) =>
                    SubwordEdit.mk subword raw_subword (compress_edit tag))
                 (SubwordEdits.zip3 ["ab"; "##c"] ["ab"; "c"]
                    (map Tag.render parts)))
       /\ List.concat parts
          = [Tag.Keep; Tag.Insert "x"; Tag.Insert "y"; Tag.Replace "z";
             Tag.Delete; Tag.Insert "w"]
       /\ Forall2 (fun w part => Tag.width part = piece_length w)
                  ["ab"; "##c"] parts.
Proof.
  do 3 (split; [reflexivity|]).
  apply (project_edit_blocks ["ab"; "##c"] ["ab"; "c"]
           [Tag.Keep; Tag.Insert "x"; Tag.Insert "y"; Tag.Replace "z";
            Tag.Delete; Tag.Insert "w"]);
    (reflexivity || discriminate).
Defined.

(** ** Projection and application together *)

Lemma produces_simple (ops : list Tag.op) (src tgt : string) :
  Tag.produces ops src tgt ->
  forallb simple_op ops = true
  /\ forallb fixed_op ops = true
  /\ Tag.width ops = String.length src
  /\ List.length (filter counted_op ops) = String.length src.
Proof.
  induction 1 as [|c ops src tgt _ (I1 & I2 & I3 & I4)
                  |c ops src tgt _ (I1 & I2 & I3 & I4)
                  |text ops src tgt _ (I1 & I2 & I3 & I4)
                  |c text ops src tgt _ (I1 & I2 & I3 & I4)];
    [repeat split | | | |];
    rewrite width_cons; cbn [forallb simple_op fixed_op filter counted_op
                               Tag.op_width List.length String.length andb];
    repeat split; auto; lia.
Qed.

Lemma append_same_length (a b c d : string) :
  a ++ b = c ++ d -> String.length a = String.length c -> a = c /\ b = d.
Proof.
  revert c; induction a as [|x a IH]; intros [|y c] E L; try discriminate.
  - now split.
  - cbn [append] in E. injection E as -> E. simpl in L.
    destruct (IH c E ltac:(lia)) as [-> ->]. now split.
Qed.

(** Operations that produce a target from a source, cut in two, produce
    it part by part. *)
Lemma produces_split (p1 p2 : list Tag.op) (src tgt : string) :
  Tag.produces (p1 ++ p2)%list src tgt ->
  exists s1 s2 t1 t2,
    src = s1 ++ s2 /\ tgt = t1 ++ t2
    /\ Tag.produces p1 s1 t1 /\ Tag.produces p2 s2 t2.
Proof.
  revert src tgt; induction p1 as [|o p1 IH]; intros src tgt H.
  - exists "", src, "", tgt. repeat split; [constructor | exact H].
  - cbn [app] in H. inversion H as [|c ops s t H'|c ops s t H'
                                    |text ops s t H'|c text ops s t H']; subst;
      destruct (IH _ _ H') as (s1 & s2 & t1 & t2 & -> & -> & P1 & P2).
    + exists (String c s1), s2, (String c t1), t2.
      repeat split; [constructor|]; assumption.
    + exists (String c s1), s2, t1, t2.
      repeat split; [constructor|]; assumption.
    + exists s1, s2, (text ++ t1), t2.
      repeat split; [now rewrite append_assoc | constructor |]; assumption.
    + exists (String c s1), s2, (text ++ t1), t2.
      repeat split; [now rewrite append_assoc | constructor |]; assumption.
Qed.

(** Merging the insertions of operations does not change what they
    produce. *)
Lemma produces_squash (ops : list Tag.op) (src tgt : string) :
  Tag.produces ops src tgt ->
  forall ins, Tag.produces (Tag.squash_from ins ops) src (ins ++ tgt).
Proof.
  assert (Hflush : forall ins, Tag.produces (Tag.flush ins) "" ins).
  { intros ins. unfold Tag.flush. destruct (String.eqb_spec ins "") as [-> | _].
    - constructor.
    - rewrite <- (append_nil_r ins) at 2. repeat constructor. }
  induction 1 as [|c ops src tgt _ IH|c ops src tgt _ IH
                  |text ops src tgt _ IH|c text ops src tgt _ IH]; intros ins.
  - cbn [Tag.squash_from]. rewrite append_nil_r. apply Hflush.
  - cbn [Tag.squash_from].
    apply (produces_app (Tag.flush ins) _ "" (String c src) ins (String c tgt));
      [apply Hflush|]. constructor. apply (IH "").
  - cbn [Tag.squash_from].
    apply (produces_app (Tag.flush ins) _ "" (String c src) ins tgt);
      [apply Hflush|]. constructor. apply (IH "").
  - cbn [Tag.squash_from]. rewrite <- append_assoc. apply IH.
  - cbn [Tag.squash_from].
    apply (produces_app (Tag.flush ins) _ "" (String c src) ins (text ++ tgt));
      [apply Hflush|]. constructor. apply (IH "").
Qed.

Lemma well_marked_spec (w : string) :
  well_marked w = true -> w = marker w ++ remove_marker w.
Proof. unfold well_marked. apply String.eqb_eq. Qed.

(** A well-formed tag whose operations produce [tgt] from a piece without
    its marker, applied to the piece, returns [tgt] behind the marker. *)
Lemma apply_produces_marked (ops : list Tag.op)
    (subword raw_subword piece tgt : string) :
  Tag.produces ops (remove_marker piece) tgt ->
  Tag.well_formed ops = true ->
  well_marked piece = true ->
  SubwordEdit.apply (SubwordEdit.mk subword raw_subword (Tag.render ops)) piece
  = Ok (marker piece ++ tgt).
Proof.
  intros Hp Hwf Hm. unfold SubwordEdit.apply. cbn [SubwordEdit.edit].
  destruct (produces_dispatch ops _ tgt Hp) as (HK & HKA & HDA).
  rewrite HKA, HDA.
  destruct (Tag.render ops =? "K") eqn:EK.
  { rewrite <- (HK eq_refl). f_equal. now apply well_marked_spec. }
  rewrite (findall_char_edits ops Hwf), (apply_char_edits_ops _ ops Hwf).
  pose proof (run_ops_produces ops _ tgt Hp "" true "") as E.
  cbn [append String.length] in E. rewrite E. cbn [bind]. unfold marker.
  now destruct (contains "##" piece).
Qed.

Lemma is_applicable_produces (ops : list Tag.op)
    (subword raw_subword piece tgt : string) :
  Tag.produces ops (remove_marker piece) tgt ->
  Tag.well_formed ops = true ->
  SubwordEdit.is_applicable
    (SubwordEdit.mk subword raw_subword (Tag.render ops)) piece = true.
Proof.
  intros Hp Hwf. destruct (produces_simple _ _ _ Hp) as (_ & Hf & _ & Hc).
  destruct ((Tag.render ops =? "K") || startswith "KA" (Tag.render ops)) eqn:E.
  - unfold SubwordEdit.is_applicable, SubwordEdit.applicable_tokens.
    cbn [SubwordEdit.edit]. now rewrite E.
  - rewrite is_applicable_counts by assumption. rewrite Hc.
    apply Nat.eqb_refl.
Qed.

(** The compressed text of operations that produce [tgt] from a piece is
    applicable to the piece and returns [tgt]. *)
Lemma compressed_block (part : list Tag.op)
    (subword raw_subword piece tgt : string) :
  Tag.produces part (remove_marker piece) tgt ->
  Tag.well_formed part = true ->
  well_marked piece = true ->
  let e := SubwordEdit.mk subword raw_subword
             (compress_edit (Tag.render part)) in
  SubwordEdit.is_applicable e piece = true
  /\ SubwordEdit.apply e piece = Ok (marker piece ++ tgt).
Proof.
  intros Hp Hwf Hm.
  rewrite compress_edit_from, (compress_from_render part "" Hwf).
  pose proof (produces_squash _ _ _ Hp "") as Hq. cbn [append] in Hq.
  assert (Hs : Tag.well_formed (Tag.squash_from "" part) = true)
    by now apply squash_from_well_formed.
  split.
  - now apply (is_applicable_produces _ _ _ _ tgt).
  - now apply apply_produces_marked.
Qed.

Lemma blocks_apply (subwords : list string) (parts : list (list Tag.op)) :
  Forall2 (fun w part => Tag.width part = piece_length w) subwords parts ->
  forall (raw_subwords : list string) (tgt : string),
    List.length raw_subwords = List.length subwords ->
    Tag.well_formed (List.concat parts) = true ->
    forallb well_marked subwords = true ->
    Tag.produces (List.concat parts) (join (map remove_marker subwords)) tgt ->
    let edits :=
      map (fun '(subword, raw_subword, tag) =>
             SubwordEdit.mk subword raw_subword (compress_edit tag))
          (SubwordEdits.zip3 subwords raw_subwords (map Tag.render parts)) in
    exists tgts,
      map SubwordEdit.subword edits = subwords
      /\ forallb (fun '(e, w) => SubwordEdit.is_applicable e w)
                 (combine edits subwords) = true
      /\ map (fun '(e, w) => SubwordEdit.apply e w) (combine edits subwords)
         = map (fun '(w, t) => Ok (marker w ++ t)) (combine subwords tgts)
      /\ List.length tgts = List.length subwords
      /\ join tgts = tgt.
Proof.
  induction 1 as [|w part subwords parts Hw F IH];
    intros raw_subwords tgt Hraw Hwf Hm Hp.
  - inversion Hp; subst. exists []. repeat split.
  - destruct raw_subwords as [|r raw_subwords]; [discriminate|].
    cbn [List.concat] in Hwf, Hp. rewrite well_formed_app in Hwf.
    apply andb_true_iff in Hwf as [Hwf1 Hwf2].
    cbn [forallb] in Hm. apply andb_true_iff in Hm as [Hm1 Hm2].
    cbn [map] in Hp. rewrite join_cons in Hp.
    destruct (produces_split _ _ _ _ Hp) as (s1 & s2 & t1 & t2 & E & -> & P1 & P2).
    destruct (produces_simple _ _ _ P1) as (_ & _ & W1 & _).
    apply append_same_length in E as [<- <-];
      [|unfold piece_length in Hw; lia].
    destruct (IH raw_subwords t2 ltac:(simpl in Hraw; lia) Hwf2 Hm2 P2)
      as (tgts & I1 & I2 & I3 & I4 & I5).
    destruct (compressed_block part w r w t1 P1 Hwf1 Hm1) as [A1 A2].
    exists (t1 :: tgts).
    cbn [map SubwordEdits.zip3 combine forallb SubwordEdit.subword List.length].
    rewrite A1, A2, I1, I2, I3, I4, join_cons, I5. repeat split.
Qed.

(** Projection followed by application, piece by piece. *)
Lemma project_apply_simple (subwords raw_subwords : list string)
    (ops : list Tag.op) (tgt : string) :
  Tag.well_formed ops = true ->
  char_in "S" (Tag.render ops) = false ->
  forallb well_marked subwords = true ->
  subwords <> [] ->
  List.length raw_subwords = List.length subwords ->
  Tag.produces ops (join (map remove_marker subwords)) tgt ->
  exists edits tgts,
    SubwordEdits._project_edit subwords raw_subwords (Tag.render ops)
    = Ok edits
    /\ map SubwordEdit.subword edits = subwords
    /\ forallb (fun '(e, w) => SubwordEdit.is_applicable e w)
               (combine edits subwords) = true
    /\ map (fun '(e, w) => SubwordEdit.apply e w) (combine edits subwords)
       = map (fun '(w, t) => Ok (marker w ++ t)) (combine subwords tgts)
    /\ List.length tgts = List.length subwords
    /\ join tgts = tgt.
Proof.
  intros Hwf HS Hm Hne Hraw Hp.
  destruct (produces_simple _ _ _ Hp) as (Hs & _ & W & _).
  assert (Hsum : list_sum (map piece_length subwords) = Tag.width ops).
  { rewrite W. clear. induction subwords as [|w l IH]; [reflexivity|].
    cbn [map]. rewrite join_cons, length_append, <- IH. reflexivity. }
  destruct (project_edit_simple subwords raw_subwords ops Hwf Hs HS Hne Hraw
              Hsum) as (parts & Hproj & Hc & F).
  subst ops.
  destruct (blocks_apply subwords parts F raw_subwords tgt Hraw Hwf Hm Hp)
    as (tgts & H).
  eexists. exists tgts. split; [exact Hproj | exact H].
Qed.

(** X21: projection and application agree with the tag of the word.  For
    a tag of keeps, deletions, insertions and replacements without S whose
    operations produce a target from the pieces joined without their
    markers, the projector returns one edit per piece; every edit is
    applicable to its piece, and applied to it returns a part of the
    target behind the marker of the piece; the parts, joined, are the
    target. *)
Theorem project_apply (subwords raw_subwords : list string)
    (ops : list Tag.op) (tgt : string) :
  Tag.well_formed ops = true ->
  char_in "S" (Tag.render ops) = false ->
  forallb well_marked subwords = true ->
  subwords <> [] ->
  List.length raw_subwords = List.length subwords ->
  Tag.produces ops (join (map remove_marker subwords)) tgt ->
  exists edits tgts,
    SubwordEdits._project_edit subwords raw_subwords (Tag.render ops)
    = Ok edits
    /\ map SubwordEdit.subword edits = subwords
    /\ forallb (fun '(e, w) => SubwordEdit.is_applicable e w)
               (combine edits subwords) = true
    /\ map (fun '(e, w) => SubwordEdit.apply e w) (combine edits subwords)
       = map (fun '(w, t) => Ok (marker w ++ t)) (combine subwords tgts)
    /\ List.length tgts = List.length subwords
    /\ join tgts = tgt.
Proof. exact (project_apply_simple subwords raw_subwords ops tgt). Qed.

Lemma project_apply_witness :
  Tag.well_formed [Tag.Keep; Tag.Insert "x"; Tag.Insert "y"; Tag.Replace "z";
                   Tag.Delete; Tag.Insert "w"] = true
  /\ forallb well_marked ["ab"; "##c"] = true
  /\ SubwordEdits._project_edit ["ab"; "##c"] ["ab"; "c"]
       "KI_[x]I_[y]R_[z]DI_[w]"
     = Ok [SubwordEdit.mk "ab" "ab" "KI_[xy]R_[z]";
           SubwordEdit.mk "##c" "c" "DI_[w]"]
  /\ SubwordEdit.apply (SubwordEdit.mk "ab" "ab" "KI_[xy]R_[z]") "ab"
     = Ok "axyz"
  /\ SubwordEdit.apply (SubwordEdit.mk "##c" "c" "DI_[w]") "##c" = Ok "##w"
  /\ exists edits tgts,
       SubwordEdits._project_edit ["ab"; "##c"] ["ab"; "c"]
         (Tag.render [Tag.Keep; Tag.Insert "x"; Tag.Insert "y";
                      Tag.Replace "z"; Tag.Delete; Tag.Insert "w"])
       = Ok edits
       /\ map SubwordEdit.subword edits = ["ab"; "##c"]
       /\ forallb (fun '(e, w) => SubwordEdit.is_applicable e w)
                  (combine edits ["ab"; "##c"]) = true
       /\ map (fun '(e, w) => SubwordEdit.apply e w)
              (combine edits ["ab"; "##c"])
          = map (fun '(w, t) => Ok (marker w ++ t))
                (combine ["ab"; "##c"] tgts)
       /\ List.length tgts = 2
       /\ join tgts = "axyzw".
Proof.
  do 5 (split; [reflexivity|]).
  apply (project_apply ["ab"; "##c"] ["ab"; "c"]
           [Tag.Keep; Tag.Insert "x"; Tag.Insert "y"; Tag.Replace "z";
            Tag.Delete; Tag.Insert "w"] "axyzw");
    try reflexivity; try discriminate.
  change (join (map remove_marker ["ab"; "##c"])) with "abc".
  apply (Tag.produces_keep "a" _ "bc" "xyzw").
  apply (Tag.produces_insert "x" _ "bc" "yzw").
  apply (Tag.produces_insert "y" _ "bc" "zw").
  apply (Tag.produces_replace "b" "z" _ "c" "w").
  apply (Tag.produces_delete "c" _ "" "w").
  apply (Tag.produces_insert "w" _ "" "").
  apply Tag.produces_nil.
Defined.

(** ** From the aligned groups to the edited pieces *)

Lemma render_no_soft (ops : list Tag.op) (src tgt : string) :
  Tag.produces ops src tgt ->
  char_in "S" tgt = false ->
  char_in "S" (Tag.render ops) = false.
Proof.
  induction 1 as [|c ops src tgt _ IH|c ops src tgt _ IH
                  |text ops src tgt _ IH|c text ops src tgt _ IH];
    intros HS; [reflexivity| | | |]; rewrite render_cons;
    cbn [Tag.render_op].
  - cbn [char_in] in HS. apply orb_false_iff in HS as [_ HS].
    change ("K" ++ Tag.render ops) with (String "K" (Tag.render ops)).
    cbn [char_in]. now rewrite IH.
  - change ("D" ++ Tag.render ops) with (String "D" (Tag.render ops)).
    cbn [char_in]. now rewrite IH.
  - rewrite char_in_app in HS. apply orb_false_iff in HS as [Ht HS].
    rewrite !char_in_app, Ht, IH by exact HS. reflexivity.
  - rewrite char_in_app in HS. apply orb_false_iff in HS as [Ht HS].
    rewrite !char_in_app, Ht, IH by exact HS. reflexivity.
Qed.

(** The tag of [Edit.create] on the domain of the round trip, whole-word
    deletion apart: the whole-word K for equal sequences, or else the text
    of operations that produce the joined target from the joined source. *)
Lemma create_tag (S T : list string) :
  List.length S = List.length T ->
  roundtrip_domain S T = true ->
  list_eqb T [""] = false ->
  exists tag,
    Edit.create S T = Ok (Edit.mk (join S) tag)
    /\ ((tag = "K" /\ join S = join T)
        \/ exists ops, tag = Tag.render ops
                       /\ Tag.produces ops (join S) (join T)
                       /\ Tag.well_formed ops = true).
Proof.
  intros Hl Hd HT. unfold Edit.create.
  destruct (list_eqb S T) eqn:E1.
  { apply list_eqb_spec in E1. subst T. exists "K". split; auto. }
  unfold roundtrip_domain in Hd.
  apply andb_true_iff in Hd as [Hd Hin]. apply andb_true_iff in Hd as [Hd Hmg].
  apply andb_true_iff in Hd as [Hd Hm]. apply andb_true_iff in Hd as [Hc Hp].
  apply negb_true_iff in Hmg, Hm. rewrite HT.
  destruct (list_eqb S [""]) eqn:E2; cbn [andb negb].
  { apply list_eqb_spec in E2. subst S. eexists. split; [reflexivity|].
    right. exists [Tag.Insert (join T)]. repeat split.
    - change (join [""]) with "".
      rewrite <- (append_nil_r (join T)) at 2. repeat constructor.
    - simpl. now rewrite plain_text_join. }
  rewrite Hmg, generate_detailed_edit_render.
  destruct (detailed_produces S T Hl Hc Hin) as (ops & E & Hprod).
  rewrite E. cbn [bind]. eexists. split; [reflexivity|].
  right. exists ops. repeat split; auto.
  now apply (detailed_ops_well_formed S T).
Qed.

(** The whole-word K given to every piece keeps every piece. *)
Lemma keep_pieces (subwords raw_subwords : list string) :
  List.length raw_subwords = List.length subwords ->
  forallb well_marked subwords = true ->
  let edits := map (fun '(subword, raw_subword) =>
                      SubwordEdit.mk subword raw_subword "K")
                   (combine subwords raw_subwords) in
  map SubwordEdit.subword edits = subwords
  /\ forallb (fun '(e, w) => SubwordEdit.is_applicable e w)
             (combine edits subwords) = true
  /\ map (fun '(e, w) => SubwordEdit.apply e w) (combine edits subwords)
     = map (fun '(w, t) => Ok (marker w ++ t))
           (combine subwords (map remove_marker subwords)).
Proof.
  revert raw_subwords; induction subwords as [|w subwords IH];
    intros [|r raw_subwords] Hl Hm; try discriminate; [repeat split|].
  cbn [forallb] in Hm. apply andb_true_iff in Hm as [Hw Hm].
  destruct (IH raw_subwords ltac:(simpl in Hl; lia) Hm) as (I1 & I2 & I3).
  cbn [combine map SubwordEdit.subword forallb].
  rewrite I1, I2, I3. repeat split.
  f_equal. change (Ok w = Ok (marker w ++ remove_marker w)).
  f_equal. now apply well_marked_spec.
Qed.

(** Encoding, projection and application in a row. *)
Lemma pipeline (S T : list string) (tok : option SubwordEdits.tokenizer)
    (raw_subwords subwords : list string) :
  List.length S = List.length T ->
  roundtrip_domain S T = true ->
  list_eqb T [""] = false ->
  char_in "S" (join T) = false ->
  SubwordEdits.pieces (join S) tok = (raw_subwords, subwords) ->
  subwords <> [] ->
  List.length raw_subwords = List.length subwords ->
  forallb well_marked subwords = true ->
  forallb (fun wp => negb (wp =? " ")) subwords = true ->
  join (map remove_marker subwords) = join S ->
  exists e r tgts,
    Edit.create S T = Ok e
    /\ SubwordEdits.create (Edit.word e) (Edit.edit e) tok = Ok r
    /\ SubwordEdits.subwords r = subwords
    /\ map SubwordEdit.subword (SubwordEdits.edits r) = subwords
    /\ forallb (fun '(e, w) => SubwordEdit.is_applicable e w)
               (combine (SubwordEdits.edits r) subwords) = true
    /\ map (fun '(e, w) => SubwordEdit.apply e w)
           (combine (SubwordEdits.edits r) subwords)
       = map (fun '(w, t) => Ok (marker w ++ t)) (combine subwords tgts)
    /\ List.length tgts = List.length subwords
    /\ join tgts = join T.
Proof.
  intros Hl Hd HT HS Hpieces Hne Hraw Hm Hsp Hjoin.
  destruct (create_tag S T Hl Hd HT) as (tag & Hc & Hcase).
  exists (Edit.mk (join S) tag). cbn [Edit.word Edit.edit].
  unfold SubwordEdits.create. rewrite Hpieces, Hraw, Nat.eqb_refl.
  cbn [assert bind].
  assert (H0 : (List.length subwords =? 0)%nat = false)
    by (destruct subwords; [congruence | reflexivity]).
  rewrite H0. cbn [andb].
  destruct (String.eqb_spec tag "K") as [-> | HK].
  - assert (Hsame : join S = join T).
    { destruct Hcase as [[_ E] | (ops & E & Hp & _)]; [exact E|].
      apply (produces_dispatch ops _ _ Hp). now rewrite <- E. }
    destruct (keep_pieces subwords raw_subwords Hraw Hm) as (K1 & K2 & K3).
    eexists. exists (map remove_marker subwords).
    split; [exact Hc|]. split; [reflexivity|].
    cbn [SubwordEdits.subwords SubwordEdits.edits].
    rewrite K1, K2, K3, length_map, Hjoin. repeat split. exact Hsame.
  - destruct Hcase as [[E _] | (ops & -> & Hp & Hwf)]; [contradiction|].
    pose proof (render_no_soft _ _ _ Hp HS) as HSo.
    rewrite <- Hjoin in Hp.
    destruct (project_apply_simple subwords raw_subwords ops (join T)
                Hwf HSo Hm Hne Hraw Hp)
      as (edits & tgts & Hproj & P1 & P2 & P3 & P4 & P5).
    rewrite Hproj. cbn [bind]. rewrite (filter_fixed _ _ Hsp).
    assert (Hlen : (List.length subwords =? List.length edits)%nat = true).
    { apply Nat.eqb_eq. rewrite <- P1 at 1. apply length_map. }
    rewrite Hlen. cbn [assert bind].
    eexists. exists tgts. split; [exact Hc|]. split; [reflexivity|].
    cbn [SubwordEdits.subwords SubwordEdits.edits]. repeat split; assumption.
Qed.

(** X22: encoding, projection and application in a row.  On the domain
    of the round trip, whole-word deletion apart, with a target without S
    and pieces that carry their marker at the head, are not a single
    space and spell the source word: [Edit.create] returns an edit,
    [SubwordEdits.create] projects it onto the pieces, every per-piece
    edit is applicable to its piece, and the per-piece results, markers
    apart, spell the joined target. *)
Theorem pipeline_roundtrip (S T : list string)
    (tok : option SubwordEdits.tokenizer)
    (raw_subwords subwords : list string) :
  List.length S = List.length T ->
  roundtrip_domain S T = true ->
  list_eqb T [""] = false ->
  char_in "S" (join T) = false ->
  SubwordEdits.pieces (join S) tok = (raw_subwords, subwords) ->
  subwords <> [] ->
  List.length raw_subwords = List.length subwords ->
  forallb well_marked subwords = true ->
  forallb (fun wp => negb (wp =? " ")) subwords = true ->
  join (map remove_marker subwords) = join S ->
  exists e r tgts,
    Edit.create S T = Ok e
    /\ SubwordEdits.create (Edit.word e) (Edit.edit e) tok = Ok r
    /\ SubwordEdits.subwords r = subwords
    /\ map SubwordEdit.subword (SubwordEdits.edits r) = subwords
    /\ forallb (fun '(e, w) => SubwordEdit.is_applicable e w)
               (combine (SubwordEdits.edits r) subwords) = true
    /\ map (fun '(e, w) => SubwordEdit.apply e w)
           (combine (SubwordEdits.edits r) subwords)
       = map (fun '(w, t) => Ok (marker w ++ t)) (combine subwords tgts)
    /\ List.length tgts = List.length subwords
    /\ join tgts = join T.
Proof. exact (pipeline S T tok raw_subwords subwords). Qed.

Lemma pipeline_roundtrip_witness :
  roundtrip_domain ["t"; "e"; "h"; ""; "xyz"] ["t"; "h"; "e"; "s"; "w"] = true
  /\ Edit.create ["t"; "e"; "h"; ""; "xyz"] ["t"; "h"; "e"; "s"; "w"]
     = Ok (Edit.mk "tehxyz" "KR_[h]R_[e]I_[s]R_[w]DD")
  /\ SubwordEdits.create "tehxyz" "KR_[h]R_[e]I_[s]R_[w]DD"
       (Some (fun _ => ([["teh"; "xyz"]], [["teh"; "##xyz"]])))
     = Ok (SubwordEdits.mk ["teh"; "##xyz"]
             [SubwordEdit.mk "teh" "teh" "KR_[h]R_[e]";
              SubwordEdit.mk "##xyz" "xyz" "I_[s]R_[w]DD"])
  /\ exists e r tgts,
       Edit.create ["t"; "e"; "h"; ""; "xyz"] ["t"; "h"; "e"; "s"; "w"] = Ok e
       /\ SubwordEdits.create (Edit.word e) (Edit.edit e)
            (Some (fun _ => ([["teh"; "xyz"]], [["teh"; "##xyz"]]))) = Ok r
       /\ SubwordEdits.subwords r = ["teh"; "##xyz"]
       /\ map SubwordEdit.subword (SubwordEdits.edits r) = ["teh"; "##xyz"]
       /\ forallb (fun '(e, w) => SubwordEdit.is_applicable e w)
                  (combine (SubwordEdits.edits r) ["teh"; "##xyz"]) = true
       /\ map (fun '(e, w) => SubwordEdit.apply e w)
              (combine (SubwordEdits.edits r) ["teh"; "##xyz"])
          = map (fun '(w, t) => Ok (marker w ++ t))
                (combine ["teh"; "##xyz"] tgts)
       /\ List.length tgts = 2
       /\ join tgts = join ["t"; "h"; "e"; "s"; "w"].
Proof.
  do 3 (split; [reflexivity|]).
  apply (pipeline_roundtrip ["t"; "e"; "h"; ""; "xyz"]
           ["t"; "h"; "e"; "s"; "w"]
           (Some (fun _ => ([["teh"; "xyz"]], [["teh"; "##xyz"]])))
           ["teh"; "xyz"] ["teh"; "##xyz"]);
    try reflexivity; discriminate.
Defined.

(** ** The projector at its bounds *)

Lemma piece_loop_short (todo done : list Tag.op) (n : nat) (se : string)
    (tags : list string) (fuel : nat) :
  forallb simple_op todo = true ->
  Tag.width todo < n ->
  SubwordEdits.turns_left (Tag.render (done ++ todo))
    (cursor_at done todo tags) < fuel ->
  SubwordEdits.piece_loop fuel (Tag.render (done ++ todo)) n se
    (cursor_at done todo tags)
  = Raise Breakpoint.
Proof.
  revert done n se fuel; induction todo as [|o todo IH];
    intros done n se fuel Hs Hn Hf.
  - destruct fuel as [|fuel]; [lia|]. cbn [SubwordEdits.piece_loop].
    destruct (Nat.eqb_spec n 0) as [-> | _]; [unfold Tag.width in Hn; simpl in Hn; lia|].
    unfold SubwordEdits.piece_step, cursor_at. cbn [SubwordEdits.idx].
    rewrite app_nil_r, Nat.leb_refl. reflexivity.
  - cbn [forallb] in Hs. apply andb_true_iff in Hs as [Ho Hs].
    rewrite width_cons in Hn.
    destruct fuel as [|fuel]; [lia|]. cbn [SubwordEdits.piece_loop].
    destruct (Nat.eqb_spec n 0) as [-> | _]; [lia|].
    pose proof (piece_step_simple done todo o n se tags Ho) as Hstep.
    rewrite Hstep. cbn [bind].
    apply piece_step_progress in Hstep as [Hturn _].
    replace (done ++ o :: todo)%list with ((done ++ [o]) ++ todo)%list in *
      by (now rewrite <- app_assoc).
    apply IH; [exact Hs | lia | lia].
Qed.

Lemma pieces_loop_short (subwords : list string) (todo done : list Tag.op)
    (tags : list string) :
  forallb simple_op todo = true ->
  Tag.width todo < list_sum (map piece_length subwords) ->
  SubwordEdits.pieces_loop (Tag.render (done ++ todo)) subwords
    (cursor_at done todo tags)
  = Raise Breakpoint.
Proof.
  revert todo done tags; induction subwords as [|w subwords IH];
    intros todo done tags Hs Hn; [simpl in Hn; lia|].
  cbn [map] in Hn.
  change (list_sum (piece_length w :: map piece_length subwords))
    with (piece_length w + list_sum (map piece_length subwords)) in Hn.
  cbn [SubwordEdits.pieces_loop]. fold (piece_length w).
  destruct (le_lt_dec (piece_length w) (Tag.width todo)) as [Hle | Hlt].
  - rewrite (piece_loop_simple todo done (piece_length w) "" tags)
      by (auto; lia).
    destruct (take_piece_spec todo (piece_length w) Hs Hle) as [E W].
    destruct (take_piece_simple todo (piece_length w) Hs Hle) as [Hl Wl].
    destruct (take_piece (piece_length w) todo) as [part left].
    cbn [fst snd bind] in *.
    change (SubwordEdits.mkCursor
              (SubwordEdits.idx (cursor_at (done ++ part) left tags))
              (SubwordEdits.subword_edits (cursor_at (done ++ part) left tags)
               ++ ["" ++ Tag.render part])
              (SubwordEdits.inserts (cursor_at (done ++ part) left tags))
              (SubwordEdits.replaces (cursor_at (done ++ part) left tags)))
      with (cursor_at (done ++ part) left (tags ++ [Tag.render part])).
    rewrite E at 1. rewrite app_assoc. apply IH; [exact Hl | lia].
  - rewrite (piece_loop_short todo done (piece_length w) "" tags)
      by (auto; lia).
    reflexivity.
Qed.

(** X23: when the pieces have, markers apart, more characters than a tag
    of keeps, deletions, insertions and replacements reads, the projector
    runs off the end of the tag and stops at the breakpoint; so it does on
    the whole-word tag D for a word of more than one character. *)
Theorem project_edit_short (subwords raw_subwords : list string)
    (ops : list Tag.op) :
  Tag.well_formed ops = true ->
  forallb simple_op ops = true ->
  Tag.width ops < list_sum (map piece_length subwords) ->
  SubwordEdits._project_edit subwords raw_subwords (Tag.render ops)
  = Raise Breakpoint.
Proof.
  intros Hwf Hs Hn.
  unfold SubwordEdits._project_edit, SubwordEdits.project_tags.
  destruct (project_queues ops Hwf Hs) as [-> ->].
  change (SubwordEdits.mkCursor 0 [] (map Tag.render_op (filter is_insert ops))
            (map Tag.render_op (filter is_replace ops)))
    with (cursor_at [] ops []).
  change (Tag.render ops) with (Tag.render ([] ++ ops)) at 1.
  now rewrite (pieces_loop_short subwords ops [] [] Hs Hn).
Qed.

Lemma project_edit_short_witness :
  Tag.well_formed [Tag.Delete] = true
  /\ forallb simple_op [Tag.Delete] = true
  /\ Tag.width [Tag.Delete] < list_sum (map piece_length ["a"; "##b"])
  /\ SubwordEdits._project_edit ["a"; "##b"] ["a"; "b"] "D" = Raise Breakpoint.
Proof.
  do 2 (split; [reflexivity|]). split; [vm_compute; lia|].
  apply (project_edit_short ["a"; "##b"] ["a"; "b"] [Tag.Delete]);
    [reflexivity | reflexivity | vm_compute; lia].
Defined.

(** X24: a word without pieces.  When the tokenizer, or [split], finds
    no piece in the word, [SubwordEdits.create] returns the compressed tag
    on an empty piece for a tag that begins with I, no edit at all for the
    tag K and for the empty tag, and stops on an index out of range for
    every other tag. *)
Theorem create_no_pieces (aligned_src_word edit : string)
    (tok : option SubwordEdits.tokenizer) :
  SubwordEdits.pieces aligned_src_word tok = ([], []) ->
  SubwordEdits.create aligned_src_word edit tok
  = if startswith "I" edit
    then Ok (SubwordEdits.mk [] [SubwordEdit.mk "" "" (compress_edit edit)])
    else if (edit =? "K") || (edit =? "") then Ok (SubwordEdits.mk [] [])
    else Raise IndexError.
Proof.
  intros Hp. unfold SubwordEdits.create. rewrite Hp.
  cbn [List.length Nat.eqb assert bind andb].
  destruct (startswith "I" edit); [reflexivity|].
  destruct (String.eqb_spec edit "K") as [-> | HK]; [reflexivity|].
  cbn [orb]. unfold SubwordEdits._project_edit, SubwordEdits.project_tags.
  cbn [SubwordEdits.pieces_loop bind SubwordEdits.idx
       SubwordEdits.subword_edits].
  destruct edit as [|c edit]; reflexivity.
Qed.

Lemma create_no_pieces_witness :
  SubwordEdits.pieces "  " None = ([], [])
  /\ Edit.create [" "; " "] [""; ""] = Ok (Edit.mk "  " "MM")
  /\ SubwordEdits.create "  " "MM" None = Raise IndexError.
Proof.
  split; [reflexivity|]. split; [reflexivity|].
  apply (create_no_pieces "  " "MM" None). reflexivity.
Defined.

(** ** Instances of the encoder's error behaviour *)

Lemma get_edits_returns_witness :
  ((exists e, get_edits "a  " "xy" = Ok e)
   <-> in_fallback "a  " "xy" = false
       \/ String.length "xy" <= nonspace_count "a  ")
  /\ (forall err, get_edits "a  " "xy" = Raise err ->
                  err = AssertionError
                  /\ in_fallback "a  " "xy" = true
                  /\ nonspace_count "a  " < String.length "xy").
Proof. apply (get_edits_returns "a  " "xy"). Defined.

Lemma replacments_raises_witness :
  ((exists e, Edit._replacments "abc" "xy" = Raise e)
   <-> String.length "xy" <> 1 /\ String.length "xy" < String.length "abc")
  /\ (forall e, Edit._replacments "abc" "xy" = Raise e -> e = IndexError).
Proof. apply (replacments_raises "abc" "xy"). Defined.

(** ** The projector on pieces separated by spaces *)

Lemma project_re_single (c : ascii) (s : string) :
  In c ["S"; "M"]%char ->
  Re.project_re (String c s) = Some (str c).
Proof.
  intros H. unfold Re.project_re, Re.alt.
  destruct H as [<- | [<- | []]];
    rewrite !bracket_op_other by reflexivity; reflexivity.
Qed.

Lemma project_tokens_single (c : ascii) (s : string) :
  In c ["S"; "M"]%char ->
  Re.findall Re.project_re (String c s)
  = str c :: Re.findall Re.project_re s.
Proof.
  intros H. change (String c s) with (str c ++ s).
  apply findall_token; [discriminate|]. now apply project_re_single.
Qed.

(** The queues of insertions and replacements, for tags that hold
    separators as well. *)
Lemma project_queues_separated (ops : list Tag.op) :
  Tag.well_formed ops = true ->
  forallb (fun o => simple_op o || is_separator o) ops = true ->
  filter (startswith "I_[") (Re.findall Re.project_re (Tag.render ops))
  = map Tag.render_op (filter is_insert ops)
  /\ filter (startswith "R_[") (Re.findall Re.project_re (Tag.render ops))
     = map Tag.render_op (filter is_replace ops).
Proof.
  induction ops as [|o ops IH]; intros H Hs; [split; reflexivity|].
  apply well_formed_cons in H as [Ho H].
  cbn [forallb] in Hs. apply andb_true_iff in Hs as [Hso Hs].
  destruct (IH H Hs) as [IHi IHr].
  pose proof (render_clean_head ops) as [Hb _].
  rewrite render_cons.
  destruct o as [| | | | | |p|p|p]; try discriminate;
    cbn [Tag.render_op filter is_insert is_replace map].
  - change ("K" ++ Tag.render ops) with (String "K" (Tag.render ops)).
    rewrite !project_filter_run by (auto; reflexivity). now split.
  - change ("D" ++ Tag.render ops) with (String "D" (Tag.render ops)).
    rewrite !project_filter_run by (auto; reflexivity). now split.
  - change ("S" ++ Tag.render ops) with (String "S" (Tag.render ops)).
    rewrite project_tokens_single by (simpl; auto).
    rewrite !filter_miss by reflexivity. now split.
  - change ("M" ++ Tag.render ops) with (String "M" (Tag.render ops)).
    rewrite project_tokens_single by (simpl; auto).
    rewrite !filter_miss by reflexivity. now split.
  - change ("I_[" ++ p ++ "]")
      with (String "I" (String "_" (String "[" (p ++ "]")))).
    rewrite project_tokens_bracket by (simpl; auto).
    rewrite filter_hit, filter_miss by reflexivity.
    split; [now f_equal | assumption].
  - change ("R_[" ++ p ++ "]")
      with (String "R" (String "_" (String "[" (p ++ "]")))).
    rewrite project_tokens_bracket by (simpl; auto).
    rewrite filter_miss, filter_hit by reflexivity.
    split; [assumption | now f_equal].
Qed.

(** A turn of the [while] loop that does not raise leaves the loop where
    it is, with the new state and the same fuel. *)
Lemma piece_loop_turn (fuel : nat) (edit : string) (n n' : nat)
    (se se' : string) (cu cu' : SubwordEdits.cursor) :
  0 < n ->
  SubwordEdits.turns_left edit cu < fuel ->
  SubwordEdits.piece_step edit n se cu = Ok (n', se', cu') ->
  SubwordEdits.piece_loop fuel edit n se cu
  = SubwordEdits.piece_loop fuel edit n' se' cu'
  /\ SubwordEdits.turns_left edit cu' < fuel.
Proof.
  intros Hn Hf Hstep. destruct fuel as [|fuel]; [lia|].
  pose proof (piece_step_progress _ _ _ _ _ _ _ Hstep) as [Hturn _].
  split; [|lia].
  change (SubwordEdits.piece_loop (S fuel) edit n se cu)
    with (if (n =? 0)%nat then Ok (se, cu)
          else '(n1, se1, cu1) <- SubwordEdits.piece_step edit n se cu ;;
               SubwordEdits.piece_loop fuel edit n1 se1 cu1).
  destruct (Nat.eqb_spec n 0) as [|_]; [lia|]. rewrite Hstep. cbn [bind].
  destruct (Nat.eq_dec n' 0) as [-> | Hn'].
  - destruct fuel; reflexivity.
  - apply piece_loop_fuel; lia.
Qed.

Lemma piece_loop_done (fuel : nat) (edit se : string)
    (cu : SubwordEdits.cursor) :
  SubwordEdits.piece_loop fuel edit 0 se cu = Ok (se, cu).
Proof. now destruct fuel. Qed.

(** The loop on simple operations followed by any others: the piece gets
    the operations up to the one that reads its last character. *)
Lemma piece_loop_prefix (body rest done : list Tag.op) (n : nat) (se : string)
    (tags : list string) (fuel : nat) :
  forallb simple_op body = true ->
  n <= Tag.width body ->
  SubwordEdits.turns_left (Tag.render (done ++ body ++ rest))
    (cursor_at done (body ++ rest) tags) < fuel ->
  SubwordEdits.piece_loop fuel (Tag.render (done ++ body ++ rest)) n se
    (cursor_at done (body ++ rest) tags)
  = Ok (se ++ Tag.render (fst (take_piece n body)),
        cursor_at (done ++ fst (take_piece n body))
                  (snd (take_piece n body) ++ rest) tags).
Proof.
  revert done n se; induction body as [|o body IH]; intros done n se Hs Hn Hf.
  - unfold Tag.width in Hn. simpl in Hn. assert (n = 0) as -> by lia.
    cbn [take_piece fst snd app]. rewrite render_nil, append_nil_r, app_nil_r.
    apply piece_loop_done.
  - cbn [take_piece]. destruct (Nat.eqb_spec n 0) as [-> | Hn0].
    { cbn [fst snd]. rewrite render_nil, append_nil_r, app_nil_r.
      apply piece_loop_done. }
    cbn [forallb] in Hs. apply andb_true_iff in Hs as [Ho Hs].
    rewrite width_cons in Hn. pose proof (simple_width o Ho) as Hw.
    cbn [app] in *.
    pose proof (piece_step_simple done (body ++ rest) o n se tags Ho) as Hstep.
    assert (Hpos : 0 < n) by lia.
    destruct (piece_loop_turn fuel _ _ _ _ _ _ _ Hpos Hf Hstep) as [-> Hf'].
    replace (done ++ o :: body ++ rest)%list
      with ((done ++ [o]) ++ body ++ rest)%list in *
      by (now rewrite <- app_assoc).
    assert (Hle : n - Tag.op_width o <= Tag.width body) by lia.
    rewrite (IH (done ++ [o])%list (n - Tag.op_width o) (se ++ Tag.render_op o)
               Hs Hle Hf').
    destruct (take_piece (n - Tag.op_width o) body) as [part left].
    cbn [fst snd app]. rewrite render_cons, append_assoc, <- app_assoc.
    reflexivity.
Qed.

Lemma append_to_last_snoc (tags : list string) (t x : string) :
  SubwordEdits.append_to_last (tags ++ [t])%list x = Ok (tags ++ [(t ++ x)%string])%list.
Proof.
  induction tags as [|a tags IH]; [reflexivity|].
  cbn [app]. destruct (tags ++ [t])%list as [|b l] eqn:E.
  { apply app_eq_nil in E as [_ E]. discriminate. }
  change (SubwordEdits.append_to_last (a :: b :: l) x)
    with (r <- SubwordEdits.append_to_last (b :: l) x ;; Ok (a :: r)).
  now rewrite IH.
Qed.

(** One turn of the projector on a separator: what the piece has
    gathered so far goes to the tag of the piece before, and the tag of
    the piece starts again, with the merge or with nothing. *)
Lemma piece_step_separator (done rest : list Tag.op) (sep : Tag.op) (n : nat)
    (se : string) (tags : list string) (t : string) :
  is_separator sep = true ->
  SubwordEdits.piece_step (Tag.render (done ++ sep :: rest)) n se
    (cursor_at done (sep :: rest) (tags ++ [t]))
  = Ok (n, Tag.render (opener sep),
        cursor_at (done ++ [sep]) rest (tags ++ [(t ++ se)%string])).
Proof.
  intros Hsep. unfold SubwordEdits.piece_step, cursor_at.
  cbn [SubwordEdits.idx SubwordEdits.subword_edits SubwordEdits.inserts
       SubwordEdits.replaces].
  rewrite cursor_after, render_app, render_cons.
  destruct sep; try discriminate;
    cbn [Tag.render_op filter is_insert is_replace map opener].
  - change ("S" ++ Tag.render rest) with (String "S" (Tag.render rest)).
    destruct (tag_at_cursor done rest "S" (Tag.render rest)) as [-> ->].
    cbn [bind]. eval_char_tests. rewrite append_to_last_snoc. reflexivity.
  - change ("M" ++ Tag.render rest) with (String "M" (Tag.render rest)).
    destruct (tag_at_cursor done rest "M" (Tag.render rest)) as [-> ->].
    cbn [bind]. eval_char_tests.
    destruct se as [|c se].
    + cbn [String.length Nat.eqb negb bind]. now rewrite append_nil_r.
    + cbn [String.length Nat.eqb negb]. rewrite append_to_last_snoc.
      reflexivity.
Qed.

Lemma insert_is_simple (o : Tag.op) :
  is_insert o = true -> simple_op o = true /\ Tag.op_width o = 0.
Proof. destruct o; try discriminate; now split. Qed.

(** The loop on the insertions left over from the piece before. *)
Lemma piece_loop_trail (trail rest done : list Tag.op) (n : nat) (se : string)
    (tags : list string) (fuel : nat) :
  forallb is_insert trail = true ->
  0 < n ->
  SubwordEdits.turns_left (Tag.render (done ++ trail ++ rest))
    (cursor_at done (trail ++ rest) tags) < fuel ->
  SubwordEdits.piece_loop fuel (Tag.render (done ++ trail ++ rest)) n se
    (cursor_at done (trail ++ rest) tags)
  = SubwordEdits.piece_loop fuel (Tag.render (done ++ trail ++ rest)) n
      (se ++ Tag.render trail) (cursor_at (done ++ trail) rest tags)
  /\ SubwordEdits.turns_left (Tag.render (done ++ trail ++ rest))
       (cursor_at (done ++ trail) rest tags) < fuel.
Proof.
  revert done se; induction trail as [|o trail IH]; intros done se Ht Hn Hf.
  - cbn [app]. now rewrite render_nil, append_nil_r, app_nil_r.
  - cbn [forallb] in Ht. apply andb_true_iff in Ht as [Ho Ht].
    destruct (insert_is_simple o Ho) as [Hs Hw]. cbn [app] in *.
    pose proof (piece_step_simple done (trail ++ rest) o n se tags Hs) as Hstep.
    rewrite Hw, Nat.sub_0_r in Hstep.
    destruct (piece_loop_turn fuel _ _ _ _ _ _ _ Hn Hf Hstep) as [-> Hf'].
    replace (done ++ o :: trail ++ rest)%list
      with ((done ++ [o]) ++ trail ++ rest)%list in *
      by (now rewrite <- app_assoc).
    destruct (IH (done ++ [o])%list (se ++ Tag.render_op o) Ht Hn Hf')
      as [-> Hf''].
    rewrite <- !app_assoc in *. cbn [app] in *.
    now rewrite render_cons, append_assoc.
Qed.

(** The loop for a piece that follows a separator. *)
Lemma piece_loop_separated (trail body rest done : list Tag.op)
    (sep : Tag.op) (n : nat) (tags : list string) (t : string) (fuel : nat) :
  forallb is_insert trail = true ->
  is_separator sep = true ->
  forallb simple_op body = true ->
  0 < n ->
  n <= Tag.width body ->
  SubwordEdits.turns_left (Tag.render (done ++ trail ++ sep :: body ++ rest))
    (cursor_at done (trail ++ sep :: body ++ rest) (tags ++ [t])) < fuel ->
  SubwordEdits.piece_loop fuel
    (Tag.render (done ++ trail ++ sep :: body ++ rest)) n ""
    (cursor_at done (trail ++ sep :: body ++ rest) (tags ++ [t]))
  = Ok (Tag.render (opener sep ++ fst (take_piece n body)),
        cursor_at (done ++ trail ++ sep :: fst (take_piece n body))
                  (snd (take_piece n body) ++ rest)
                  (tags ++ [(t ++ Tag.render trail)%string])).
Proof.
  intros Ht Hsep Hs Hn Hle Hf.
  destruct (piece_loop_trail trail (sep :: body ++ rest) done n ""
              (tags ++ [t]) fuel Ht Hn Hf) as [-> Hf1].
  cbn [append].
  replace (done ++ trail ++ sep :: body ++ rest)%list
    with ((done ++ trail) ++ sep :: body ++ rest)%list in *
    by (now rewrite <- app_assoc).
  pose proof (piece_step_separator (done ++ trail) (body ++ rest) sep n
                (Tag.render trail) tags t Hsep) as Hstep.
  destruct (piece_loop_turn fuel _ _ _ _ _ _ _ Hn Hf1 Hstep) as [-> Hf2].
  replace ((done ++ trail) ++ sep :: body ++ rest)%list
    with (((done ++ trail) ++ [sep]) ++ body ++ rest)%list in *
    by (now rewrite <- !app_assoc).
  rewrite (piece_loop_prefix body rest ((done ++ trail) ++ [sep])%list n
             (Tag.render (opener sep)) (tags ++ [(t ++ Tag.render trail)%string])
             fuel Hs Hle Hf2).
  rewrite render_app, <- !app_assoc. reflexivity.
Qed.

Lemma simple_no_width (l : list Tag.op) :
  forallb simple_op l = true -> Tag.width l = 0 ->
  forallb is_insert l = true.
Proof.
  induction l as [|o l IH]; [reflexivity|]. cbn [forallb].
  rewrite width_cons. intros Hs Hw. apply andb_true_iff in Hs as [Ho Hs].
  rewrite IH by (auto; lia). destruct o; try discriminate; simpl in Hw;
    try lia. reflexivity.
Qed.

Lemma body_fits_spec (w : string) (b : list Tag.op) :
  body_fits w b = true ->
  forallb simple_op b = true
  /\ Tag.width b = piece_length w /\ 0 < piece_length w.
Proof.
  unfold body_fits. intros H. apply andb_true_iff in H as [H H3].
  apply andb_true_iff in H as [H1 H2].
  apply Nat.eqb_eq in H2. apply Nat.ltb_lt in H3. auto.
Qed.

(** What [take_piece] leaves of a block that fits its piece is a row of
    insertions. *)
Lemma take_piece_fits (b : list Tag.op) :
  forallb simple_op b = true ->
  b = (fst (take_piece (Tag.width b) b) ++ snd (take_piece (Tag.width b) b))%list
  /\ forallb is_insert (snd (take_piece (Tag.width b) b)) = true.
Proof.
  intros Hs.
  destruct (take_piece_spec b (Tag.width b) Hs (Nat.le_refl _)) as [E W].
  destruct (take_piece_simple b (Tag.width b) Hs (Nat.le_refl _)) as [Hl Wl].
  split; [exact E|]. apply simple_no_width; [exact Hl | lia].
Qed.

(** The [for] loop of the projector over pieces that each follow a
    separator. *)
Lemma pieces_loop_separated (subwords : list string)
    (blocks : list (Tag.op * list Tag.op)) :
  List.length subwords = List.length blocks ->
  forallb (fun '(w, blk) => block_fits w blk) (combine subwords blocks) = true ->
  forall (done trail : list Tag.op) (tags : list string) (t : string),
    forallb is_insert trail = true ->
    exists done' trail' tags' t',
      SubwordEdits.pieces_loop
        (Tag.render (done ++ trail ++ flat_map (fun '(sep, b) => sep :: b) blocks))
        subwords
        (cursor_at done (trail ++ flat_map (fun '(sep, b) => sep :: b) blocks)
                   (tags ++ [t]))
      = Ok (cursor_at done' trail' (tags' ++ [t']))
      /\ forallb is_insert trail' = true
      /\ (done' ++ trail'
          = done ++ trail ++ flat_map (fun '(sep, b) => sep :: b) blocks)%list
      /\ (tags' ++ [(t' ++ Tag.render trail')%string]
          = (tags ++ [(t ++ Tag.render trail)%string])
            ++ map (fun '(sep, b) => Tag.render (opener sep ++ b)) blocks)%list.
Proof.
  revert blocks; induction subwords as [|w subwords IH];
    intros [|[sep body] blocks] Hl Hfit done trail tags t Ht;
    try discriminate.
  - exists done, trail, tags, t. cbn [flat_map map SubwordEdits.pieces_loop].
    rewrite !app_nil_r. auto.
  - cbn [combine forallb] in Hfit. apply andb_true_iff in Hfit as [Hb Hfit].
    unfold block_fits in Hb. cbn [fst snd] in Hb.
    apply andb_true_iff in Hb as [Hsep Hb].
    destruct (body_fits_spec w body Hb) as (Hs & Hw & Hpos).
    destruct (take_piece_fits body Hs) as [E Hleft].
    cbn [flat_map SubwordEdits.pieces_loop]. fold (piece_length w).
    rewrite <- app_comm_cons.
    rewrite (piece_loop_separated trail body _ done sep (piece_length w)
               tags t _ Ht Hsep Hs Hpos) by lia.
    rewrite <- Hw in *.
    destruct (take_piece (Tag.width body) body) as [part left].
    cbn [fst snd bind] in *.
    set (D := (done ++ trail ++ sep :: part)%list).
    set (rest := flat_map (fun '(sep0, b) => sep0 :: b) blocks).
    change (SubwordEdits.mkCursor
              (SubwordEdits.idx
                 (cursor_at D (left ++ rest)
                    (tags ++ [(t ++ Tag.render trail)%string])))
              (SubwordEdits.subword_edits
                 (cursor_at D (left ++ rest)
                    (tags ++ [(t ++ Tag.render trail)%string]))
               ++ [Tag.render (opener sep ++ part)])
              (SubwordEdits.inserts
                 (cursor_at D (left ++ rest)
                    (tags ++ [(t ++ Tag.render trail)%string])))
              (SubwordEdits.replaces
                 (cursor_at D (left ++ rest)
                    (tags ++ [(t ++ Tag.render trail)%string]))))
      with (cursor_at D (left ++ rest)
              ((tags ++ [(t ++ Tag.render trail)%string])
               ++ [Tag.render (opener sep ++ part)])).
    assert (Eall : (done ++ trail ++ sep :: body ++ rest
                    = D ++ left ++ rest)%list).
    { unfold D. rewrite E at 1. rewrite <- !app_assoc. cbn [app].
      rewrite <- ?app_assoc. reflexivity. }
    rewrite Eall.
    destruct (IH blocks ltac:(simpl in Hl; lia) Hfit D left
                (tags ++ [(t ++ Tag.render trail)%string])%list
                (Tag.render (opener sep ++ part)) Hleft)
      as (done' & trail' & tags' & t' & Hloop & Ht' & Hd & Htags).
    exists done', trail', tags', t'. fold rest in Hloop, Hd.
    split; [exact Hloop|]. split; [exact Ht'|]. split; [exact Hd|].
    rewrite Htags. cbn [map]. rewrite <- render_app, <- !app_assoc.
    cbn [app]. now rewrite <- E.
Qed.

Lemma fits_projectable (subwords : list string)
    (blocks : list (Tag.op * list Tag.op)) :
  forallb (fun '(w, blk) => block_fits w blk) (combine subwords blocks) = true ->
  List.length subwords = List.length blocks ->
  forallb (fun o => simple_op o || is_separator o)
          (flat_map (fun '(sep, b) => sep :: b) blocks) = true.
Proof.
  revert blocks; induction subwords as [|w subwords IH];
    intros [|[sep body] blocks] Hfit Hl; try discriminate; [reflexivity|].
  cbn [combine forallb] in Hfit. apply andb_true_iff in Hfit as [Hb Hfit].
  unfold block_fits in Hb. cbn [fst snd] in Hb.
  apply andb_true_iff in Hb as [Hsep Hb].
  destruct (body_fits_spec w body Hb) as (Hs & _ & _).
  cbn [flat_map]. rewrite <- app_comm_cons. cbn [forallb].
  rewrite Hsep, orb_true_r. cbn [andb].
  rewrite forallb_app, IH by (auto; simpl in Hl; lia).
  rewrite andb_true_r. apply forallb_forall. intros o Ho.
  rewrite forallb_forall in Hs. now rewrite Hs.
Qed.

(** The per-piece tags of the projector for pieces separated by spaces:
    the operations of each piece, behind the merge that precedes them if
    there is one; every soft keep is dropped. *)
Lemma project_tags_separated (w1 : string) (subwords : list string)
    (body1 : list Tag.op) (blocks : list (Tag.op * list Tag.op)) :
  Tag.well_formed (separated body1 blocks) = true ->
  body_fits w1 body1 = true ->
  List.length subwords = List.length blocks ->
  forallb (fun '(w, blk) => block_fits w blk) (combine subwords blocks) = true ->
  SubwordEdits.project_tags (w1 :: subwords) (Tag.render (separated body1 blocks))
  = Ok (map Tag.render (separated_tags body1 blocks)).
Proof.
  intros Hwf Hb1 Hl Hfit.
  destruct (body_fits_spec w1 body1 Hb1) as (Hs1 & Hw1 & Hpos1).
  pose proof (fits_projectable subwords blocks Hfit Hl) as Hproj.
  assert (Hall : forallb (fun o => simple_op o || is_separator o)
                         (separated body1 blocks) = true).
  { unfold separated. rewrite forallb_app, Hproj, andb_true_r.
    apply forallb_forall. intros o Ho. rewrite forallb_forall in Hs1.
    now rewrite Hs1. }
  unfold SubwordEdits.project_tags.
  destruct (project_queues_separated _ Hwf Hall) as [-> ->].
  change (SubwordEdits.mkCursor 0 []
            (map Tag.render_op (filter is_insert (separated body1 blocks)))
            (map Tag.render_op (filter is_replace (separated body1 blocks))))
    with (cursor_at [] (separated body1 blocks) []).
  unfold separated.
  set (rest := flat_map (fun '(sep, b) => sep :: b) blocks).
  cbn [SubwordEdits.pieces_loop]. fold (piece_length w1).
  change (Tag.render (body1 ++ rest)) with (Tag.render ([] ++ body1 ++ rest)).
  rewrite (piece_loop_prefix body1 rest [] (piece_length w1) "" [])
    by (auto; lia).
  destruct (take_piece_fits body1 Hs1) as [E Hleft]. rewrite Hw1 in E, Hleft.
  destruct (take_piece (piece_length w1) body1) as [part left].
  cbn [fst snd bind app append] in *.
  change (SubwordEdits.mkCursor
            (SubwordEdits.idx (cursor_at part (left ++ rest) []))
            (SubwordEdits.subword_edits (cursor_at part (left ++ rest) [])
             ++ [Tag.render part])
            (SubwordEdits.inserts (cursor_at part (left ++ rest) []))
            (SubwordEdits.replaces (cursor_at part (left ++ rest) [])))
    with (cursor_at part (left ++ rest) ([] ++ [Tag.render part])).
  assert (Eall : (body1 ++ rest = part ++ left ++ rest)%list)
    by (rewrite E at 1; now rewrite <- app_assoc).
  rewrite Eall.
  destruct (pieces_loop_separated subwords blocks Hl Hfit part left []
              (Tag.render part) Hleft)
    as (done' & trail' & tags' & t' & Hloop & Ht' & Hd & Htags).
  fold rest in Hloop, Hd. rewrite Hloop. cbn [bind].
  unfold cursor_at. cbn [SubwordEdits.idx SubwordEdits.subword_edits].
  rewrite <- Hd, render_app, length_append, drop_app_length.
  assert (Hexp : (tags' ++ [(t' ++ Tag.render trail')%string])%list
                 = map Tag.render (separated_tags body1 blocks)).
  { rewrite Htags. unfold separated_tags. cbn [app map].
    rewrite map_map, <- render_app, <- E. f_equal.
    apply map_ext. now intros [sep b]. }
  rewrite <- Hexp.
  destruct trail' as [|o trail'].
  - rewrite render_nil. cbn [String.length]. rewrite Nat.add_0_r, Nat.ltb_irrefl.
    now rewrite append_nil_r.
  - assert (Hlt : (String.length (Tag.render done')
                   <? String.length (Tag.render done')
                      + String.length (Tag.render (o :: trail')))%nat = true).
    { apply Nat.ltb_lt. rewrite render_cons, length_append.
      pose proof (render_op_nonempty o) as Ho.
      destruct (Tag.render_op o); [congruence | simpl; lia]. }
    rewrite Hlt. apply append_to_last_snoc.
Qed.

(** A text without S, up to and with a character other than S, passes
    the removal of the soft keeps unchanged. *)
Lemma soft_keep_text (p : string) (c : ascii) (rest : string)
    (prev : option ascii) :
  char_in "S" p = false ->
  Ascii.eqb c "S" = false ->
  Re.sub_soft_keep_from prev (p ++ String c rest)
  = p ++ String c (Re.sub_soft_keep_from (Some c) rest).
Proof.
  revert prev; induction p as [|a p IH]; intros prev Hp Hc.
  - cbn [append Re.sub_soft_keep_from]. now rewrite Hc.
  - cbn [char_in] in Hp. apply orb_false_iff in Hp as [Ha Hp].
    cbn [append Re.sub_soft_keep_from]. rewrite Ascii.eqb_sym, Ha.
    cbn [andb]. now rewrite IH.
Qed.

(** The removal of the soft keeps from the text of simple operations and
    separators drops the soft keeps and nothing else. *)
Lemma soft_keep_render (ops : list Tag.op) (prev : option ascii) :
  forallb (fun o => simple_op o || is_separator o) ops = true ->
  forallb soft_free ops = true ->
  Re.is_char "[" prev = false ->
  Re.sub_soft_keep_from prev (Tag.render ops)
  = Tag.render (filter (fun o => match o with
                                 | Tag.SoftKeep => false
                                 | _ => true
                                 end) ops).
Proof.
  revert prev; induction ops as [|o ops IH]; intros prev Hs Hf Hprev;
    [reflexivity|].
  cbn [forallb] in Hs, Hf.
  apply andb_true_iff in Hs as [Ho Hs]. apply andb_true_iff in Hf as [Hfo Hf].
  pose proof (render_clean_head ops) as [Hb _].
  rewrite render_cons.
  destruct o as [| | | | | |p|p|p]; try discriminate;
    cbn [filter Tag.render_op]; rewrite ?render_cons; cbn [Tag.render_op].
  - change ("K" ++ Tag.render ops) with ("" ++ String "K" (Tag.render ops)).
    rewrite soft_keep_text by reflexivity. rewrite IH by auto. reflexivity.
  - change ("D" ++ Tag.render ops) with ("" ++ String "D" (Tag.render ops)).
    rewrite soft_keep_text by reflexivity. rewrite IH by auto. reflexivity.
  - change ("S" ++ Tag.render ops) with (String "S" (Tag.render ops)).
    cbn [Re.sub_soft_keep_from]. rewrite Hprev.
    unfold Tag.starts_with_char in Hb. rewrite Hb.
    change (Ascii.eqb "S" "S") with true. cbn [andb negb].
    now apply IH.
  - change ("M" ++ Tag.render ops) with ("" ++ String "M" (Tag.render ops)).
    rewrite soft_keep_text by reflexivity. rewrite IH by auto. reflexivity.
  - cbn [soft_free] in Hfo. apply negb_true_iff in Hfo.
    change (("I_[" ++ p ++ "]") ++ Tag.render ops)
      with ("I_[" ++ (p ++ "]") ++ Tag.render ops).
    rewrite append_assoc.
    change ("I_[" ++ p ++ "]" ++ Tag.render ops)
      with (("I_[" ++ p) ++ String "]" (Tag.render ops)).
    rewrite soft_keep_text; [| cbn [append char_in]; now rewrite Hfo
                             | reflexivity].
    rewrite IH by auto.
    cbn [append]. now rewrite !append_assoc.
  - cbn [soft_free] in Hfo. apply negb_true_iff in Hfo.
    change (("R_[" ++ p ++ "]") ++ Tag.render ops)
      with ("R_[" ++ (p ++ "]") ++ Tag.render ops).
    rewrite append_assoc.
    change ("R_[" ++ p ++ "]" ++ Tag.render ops)
      with (("R_[" ++ p) ++ String "]" (Tag.render ops)).
    rewrite soft_keep_text; [| cbn [append char_in]; now rewrite Hfo
                             | reflexivity].
    rewrite IH by auto.
    cbn [append]. now rewrite !append_assoc.
Qed.

Lemma simple_not_soft (body : list Tag.op) :
  forallb simple_op body = true ->
  filter (fun o => match o with
                   | Tag.SoftKeep => false
                   | _ => true
                   end) body = body.
Proof.
  intros H. apply filter_fixed. apply forallb_forall. intros o Ho.
  rewrite forallb_forall in H. specialize (H o Ho). now destruct o.
Qed.

Lemma separated_without_soft (subwords : list string) (body1 : list Tag.op)
    (blocks : list (Tag.op * list Tag.op)) :
  forallb simple_op body1 = true ->
  List.length subwords = List.length blocks ->
  forallb (fun '(w, blk) => block_fits w blk) (combine subwords blocks) = true ->
  filter (fun o => match o with
                   | Tag.SoftKeep => false
                   | _ => true
                   end) (separated body1 blocks)
  = List.concat (separated_tags body1 blocks).
Proof.
  intros Hs1 Hl Hfit. unfold separated, separated_tags.
  rewrite filter_app, (simple_not_soft body1 Hs1). cbn [List.concat].
  f_equal. revert blocks Hl Hfit.
  induction subwords as [|w subwords IH];
    intros [|[sep body] blocks] Hl Hfit; try discriminate; [reflexivity|].
  cbn [combine forallb] in Hfit. apply andb_true_iff in Hfit as [Hb Hfit].
  unfold block_fits in Hb. cbn [fst snd] in Hb.
  apply andb_true_iff in Hb as [Hsep Hb].
  destruct (body_fits_spec w body Hb) as (Hs & _ & _).
  cbn [flat_map map List.concat]. rewrite <- app_comm_cons.
  rewrite <- (IH blocks) by (auto; simpl in Hl; lia).
  destruct sep; try discriminate; cbn [filter opener app];
    rewrite filter_app, (simple_not_soft body Hs); reflexivity.
Qed.

(** X25: the projector on pieces separated by spaces.  For a tag made of
    the operations of a first piece and then, for each further piece, a
    merge or a soft keep followed by the operations of the piece, where
    the operations of each piece are keeps, deletions, insertions and
    replacements that read as many characters as the piece has, and no
    text holds S: the projector gives each piece the compressed text of
    its operations, behind the merge that precedes them if there is one,
    and drops every soft keep. *)
Theorem project_edit_separated (w1 : string)
    (subwords raw_subwords : list string)
    (body1 : list Tag.op) (blocks : list (Tag.op * list Tag.op)) :
  Tag.well_formed (separated body1 blocks) = true ->
  forallb soft_free (separated body1 blocks) = true ->
  body_fits w1 body1 = true ->
  List.length subwords = List.length blocks ->
  forallb (fun '(w, blk) => block_fits w blk) (combine subwords blocks) = true ->
  List.length raw_subwords = S (List.length subwords) ->
  SubwordEdits._project_edit (w1 :: subwords) raw_subwords
    (Tag.render (separated body1 blocks))
  = Ok (map (fun '(subword, raw_subword, tag) =>
               SubwordEdit.mk subword raw_subword (compress_edit tag))
            (SubwordEdits.zip3 (w1 :: subwords) raw_subwords
               (map Tag.render (separated_tags body1 blocks)))).
Proof.
  intros Hwf Hsoft Hb1 Hl Hfit Hraw.
  destruct (body_fits_spec w1 body1 Hb1) as (Hs1 & _ & _).
  unfold SubwordEdits._project_edit.
  rewrite (project_tags_separated w1 subwords body1 blocks Hwf Hb1 Hl Hfit).
  cbn [bind]. rewrite render_concat.
  rewrite <- (separated_without_soft subwords body1 blocks Hs1 Hl Hfit).
  unfold Re.sub_soft_keep. rewrite soft_keep_render; auto.
  - rewrite String.eqb_refl. cbn [assert bind].
    unfold separated_tags. rewrite length_map. cbn [List.length].
    rewrite length_map, <- Hl, Hraw, !Nat.eqb_refl. reflexivity.
  - unfold separated. rewrite forallb_app.
    rewrite (fits_projectable subwords blocks Hfit Hl), andb_true_r.
    apply forallb_forall. intros o Ho. rewrite forallb_forall in Hs1.
    now rewrite Hs1.
Qed.

Lemma project_edit_separated_witness :
  Tag.well_formed
    (separated [Tag.Keep; Tag.Replace "b"; Tag.Insert "c"]
       [(Tag.Merge, [Tag.Insert "d"; Tag.Keep; Tag.Delete]);
        (Tag.SoftKeep, [Tag.Keep; Tag.Insert "x"])]) = true
  /\ body_fits "ab" [Tag.Keep; Tag.Replace "b"; Tag.Insert "c"] = true
  /\ forallb (fun '(w, blk) => block_fits w blk)
       (combine ["cd"; "e"]
          [(Tag.Merge, [Tag.Insert "d"; Tag.Keep; Tag.Delete]);
           (Tag.SoftKeep, [Tag.Keep; Tag.Insert "x"])]) = true
  /\ SubwordEdits._project_edit ["ab"; "cd"; "e"] ["ab"; "cd"; "e"]
       "KR_[b]I_[c]MI_[d]KDSKI_[x]"
     = Ok [SubwordEdit.mk "ab" "ab" "KR_[b]I_[c]";
           SubwordEdit.mk "cd" "cd" "MI_[d]KD";
           SubwordEdit.mk "e" "e" "KI_[x]"].
Proof.
  do 3 (split; [reflexivity|]).
  apply (project_edit_separated "ab" ["cd"; "e"] ["ab"; "cd"; "e"]
           [Tag.Keep; Tag.Replace "b"; Tag.Insert "c"]
           [(Tag.Merge, [Tag.Insert "d"; Tag.Keep; Tag.Delete]);
            (Tag.SoftKeep, [Tag.Keep; Tag.Insert "x"])]);
    reflexivity.
Defined.

(** ** The validator in closed form *)

Lemma reads_one_not_run (e : string) : reads_one e = true -> is_run e = false.
Proof.
  unfold reads_one, is_run, SubwordEdit.is_one_of.
  destruct e as [|c e]; [discriminate|]. cbn [startswith existsb String.eqb].
  destruct (Ascii.eqb_spec "R" c) as [<- | _]; [reflexivity|].
  cbn [orb andb]. rewrite !orb_false_r.
  destruct (Ascii.eqb c "K"), (Ascii.eqb c "D"), e; try discriminate;
    reflexivity.
Qed.

Lemma reads_le_length (l : list string) : reads l <= List.length l.
Proof. unfold reads. apply filter_length_le. Qed.

Lemma reads_full (l : list string) :
  (List.length l <=? reads l)%nat = forallb reads_one l.
Proof.
  induction l as [|e l IH]; [reflexivity|].
  rewrite reads_cons. cbn [List.length forallb].
  pose proof (reads_le_length l) as Hle.
  destruct (reads_one e); cbn [andb Nat.add].
  - exact IH.
  - apply Nat.leb_gt. lia.
Qed.

(** The loop of [is_applicable] when the piece has a character for every
    token counted: after the last run operator the cursor stands as many
    characters before the end as tokens follow, and moves by one for each
    K, D and R among them. *)
Lemma applicable_loop_spec (_subword : string) (n : nat) (toks : list string)
    (k idx : nat) :
  k + List.length toks = n ->
  idx + List.length toks <= String.length _subword ->
  SubwordEdit.applicable_loop _subword n
    (combine (seq k (List.length toks)) toks) idx
  = match after_last_run toks with
    | Some post => String.length _subword - List.length post + reads post
    | None => idx + reads toks
    end.
Proof.
  revert k idx; induction toks as [|e rest IH]; intros k idx Hk Hidx.
  - unfold reads. simpl. lia.
  - cbn [List.length] in Hk, Hidx.
    cbn [List.length seq combine SubwordEdit.applicable_loop after_last_run].
    rewrite reads_cons. fold (reads_one e). fold (is_run e).
    destruct (reads_one e) eqn:Er.
    + rewrite (reads_one_not_run e Er).
      rewrite (IH (S k) (idx + 1)) by lia.
      destruct (after_last_run rest); lia.
    + destruct (is_run e) eqn:Erun.
      * destruct rest as [|e' rest'].
        { assert (Hlast : (k =? n - 1)%nat = true)
            by (apply Nat.eqb_eq; simpl in Hk; lia).
          rewrite Hlast, length_drop. cbn [after_last_run List.length].
          unfold reads. cbn [filter List.length]. simpl in Hidx. lia. }
        assert (Hnot : (k =? n - 1)%nat = false)
          by (apply Nat.eqb_neq; simpl in Hk; lia).
        rewrite Hnot.
        assert (Hn : n - (k + 1) = List.length (e' :: rest')) by lia.
        rewrite Hn.
        assert (Hcut : String.length
                         (drop_last (List.length (e' :: rest')) _subword)
                       = String.length _subword - List.length (e' :: rest')).
        { cbn [List.length drop_last]. apply take_length. lia. }
        rewrite Hcut.
        rewrite (IH (S k) (String.length _subword - List.length (e' :: rest')))
          by lia.
        destruct (after_last_run (e' :: rest')); [reflexivity|]. lia.
      * rewrite (IH (S k) idx) by lia.
        destruct (after_last_run rest); lia.
Qed.

(** X26: the validator in closed form, for every tag and piece.
    [is_applicable] accepts the piece exactly when the tag is K or begins
    with KA, or else the piece, marker apart, has at least as many
    characters as the tag has tokens other than appends, merges and
    insertions, and then: with a run operator among them, every such
    token after the last K* or D* is K, D or a replacement; without one,
    the tokens K, D and replacements are as many as the piece has
    characters. *)
Theorem is_applicable_closed_form (self : SubwordEdit.t) (piece : string) :
  let counted :=
    filter (fun e => negb (SubwordEdit.consumes_nothing e))
           (Re.findall Re.char_edit_re (SubwordEdit.edit self)) in
  let len := String.length (remove_marker piece) in
  SubwordEdit.is_applicable self piece
  = (SubwordEdit.edit self =? "K") || startswith "KA" (SubwordEdit.edit self)
    || ((List.length counted <=? len)%nat
        && match after_last_run counted with
           | Some post => forallb reads_one post
           | None => (len <=? reads counted)%nat
           end).
Proof.
  intros counted len.
  unfold SubwordEdit.is_applicable, SubwordEdit.applicable_tokens.
  fold counted. fold len.
  destruct ((SubwordEdit.edit self =? "K")
            || startswith "KA" (SubwordEdit.edit self)); [reflexivity|].
  cbn [orb].
  destruct (Nat.ltb_spec len (List.length counted)) as [Hlt | Hle].
  { assert (E : (List.length counted <=? len)%nat = false)
      by (apply Nat.leb_gt; lia).
    now rewrite E. }
  assert (E : (List.length counted <=? len)%nat = true)
    by (apply Nat.leb_le; lia).
  rewrite E. cbn [andb]. unfold enumerate.
  rewrite (applicable_loop_spec (remove_marker piece) (List.length counted)
             counted 0 0) by (fold len; lia).
  fold len.
  destruct (after_last_run counted) as [post|] eqn:Ea.
  - rewrite <- reads_full.
    assert (Hpost : List.length post <= List.length counted).
    { clear - Ea. revert post Ea.
      induction counted as [|e l IH]; intros post Ea; [discriminate|].
      cbn [after_last_run] in Ea.
      destruct (after_last_run l) as [p|].
      - injection Ea as <-. specialize (IH p eq_refl). simpl. lia.
      - destruct (is_run e); [|discriminate]. injection Ea as <-. simpl. lia. }
    pose proof (reads_le_length post) as Hr.
    destruct (Nat.ltb_spec (len - List.length post + reads post) len);
      destruct (Nat.leb_spec (List.length post) (reads post));
      try reflexivity; lia.
  - cbn [Nat.add].
    destruct (Nat.ltb_spec (reads counted) len);
      destruct (Nat.leb_spec len (reads counted)); try reflexivity; lia.
Qed.

(** ** The pieces of the result *)

Lemma project_edit_length (subwords raw_subwords : list string) (edit : string)
    (edits : list SubwordEdit.t) :
  SubwordEdits._project_edit subwords raw_subwords edit = Ok edits ->
  List.length edits = List.length subwords.
Proof.
  unfold SubwordEdits._project_edit.
  destruct (SubwordEdits.project_tags subwords edit) as [tags|] eqn:Et;
    [|discriminate].
  cbn [bind]. destruct (_ =? _); [|discriminate]. cbn [assert bind].
  pose proof (project_tags_length _ _ _ Et) as Hn. rewrite Hn, Nat.eqb_refl.
  cbn [andb].
  destruct (Nat.eqb_spec (List.length subwords) (List.length raw_subwords))
    as [Hl|]; [|discriminate].
  cbn [assert bind]. intros [= <-].
  rewrite <- (length_map SubwordEdit.edit), zip3_edits, length_map; auto.
Qed.

(** X27: the pieces of the result are the pieces of the tokenizer.
    Whenever [SubwordEdits.create] returns, the pieces it returns are
    those the tokenizer, or [split], gave, none removed; and, unless the
    tag is K, none of them is a single space: the removal of such pieces
    before the last assertion never removes anything in a run that
    returns. *)
Theorem create_keeps_pieces (aligned_src_word edit : string)
    (tok : option SubwordEdits.tokenizer) (r : SubwordEdits.t) :
  SubwordEdits.create aligned_src_word edit tok = Ok r ->
  SubwordEdits.subwords r = snd (SubwordEdits.pieces aligned_src_word tok)
  /\ ((edit =? "K") = false ->
      forallb (fun wp => negb (wp =? " "))
              (snd (SubwordEdits.pieces aligned_src_word tok)) = true).
Proof.
  unfold SubwordEdits.create.
  destruct (SubwordEdits.pieces aligned_src_word tok) as [raw_subwords subwords].
  cbn [snd].
  destruct (_ =? _)%nat; [|discriminate]. cbn [assert bind].
  destruct ((List.length subwords =? 0)%nat && startswith "I" edit) eqn:E0.
  { intros [= <-]. split; [reflexivity|]. intros _.
    apply andb_true_iff in E0 as [E0 _]. apply Nat.eqb_eq in E0.
    now destruct subwords. }
  destruct (edit =? "K").
  { intros [= <-]. split; [reflexivity | discriminate]. }
  destruct (SubwordEdits._project_edit subwords raw_subwords edit)
    as [edits|] eqn:Ep; [|discriminate].
  cbn [bind].
  destruct (Nat.eqb_spec
              (List.length (filter (fun wp => negb (wp =? " ")) subwords))
              (List.length edits)) as [Hl|]; [|discriminate].
  cbn [assert bind]. intros [= <-]. cbn [SubwordEdits.subwords].
  rewrite (project_edit_length _ _ _ _ Ep) in Hl.
  apply filter_length_forallb in Hl.
  split; [now apply filter_fixed | now intros _].
Qed.

Lemma create_keeps_pieces_witness :
  SubwordEdits.create "a b" "R_[x]SK" None
  = Ok (SubwordEdits.mk ["a"; "b"]
          [SubwordEdit.mk "a" "a" "R_[x]"; SubwordEdit.mk "b" "b" "K"])
  /\ SubwordEdits.create "a b" "KDK" (Some (fun _ => ([["a"; " "; "b"]],
                                                      [["a"; " "; "b"]])))
     = Raise AssertionError
  /\ (["a"; "b"] = snd (SubwordEdits.pieces "a b" None)
      /\ (("R_[x]SK" =? "K") = false ->
          forallb (fun wp => negb (wp =? " "))
                  (snd (SubwordEdits.pieces "a b" None)) = true)).
Proof.
  do 2 (split; [reflexivity|]).
  apply (create_keeps_pieces "a b" "R_[x]SK" None
           (SubwordEdits.mk ["a"; "b"]
              [SubwordEdit.mk "a" "a" "R_[x]"; SubwordEdit.mk "b" "b" "K"])).
  reflexivity.
Defined.

(** ** Merges at application time *)

Lemma op_step_no_run (subword : string) (first : bool) (o : Tag.op)
    (r1 r2 : list Tag.op) (st : string * nat) :
  is_run_op o = false ->
  Tag.op_step subword first o r1 st = Tag.op_step subword first o r2 st.
Proof. destruct st, o; intros H; try discriminate; reflexivity. Qed.

(** Only an append reads whether it is the first operation. *)
Lemma run_ops_first (subword : string) (ops : list Tag.op)
    (st : string * nat) :
  merge_leads_append [] ops = false ->
  Tag.run_ops subword true ops st = Tag.run_ops subword false ops st.
Proof.
  destruct st as [edited idx].
  destruct ops as [|o ops]; [reflexivity|].
  destruct o; intros H; try discriminate; reflexivity.
Qed.

(** The applier on operations with a merge among them, none of the
    operations before it a run operator: the merge can be taken out. *)
Lemma run_ops_merge (subword : string) (pre post : list Tag.op) :
  forallb (fun o => negb (is_run_op o)) pre = true ->
  forall first st,
    first = false \/ merge_leads_append pre post = false ->
    Tag.run_ops subword first (pre ++ Tag.Merge :: post) st
    = Tag.run_ops subword first (pre ++ post) st.
Proof.
  induction pre as [|o pre IH]; intros Hpre first st Hfirst.
  - cbn [app Tag.run_ops Tag.op_step bind]. destruct st as [edited idx].
    cbn [bind]. destruct Hfirst as [-> | Hfirst]; [reflexivity|].
    destruct first; [|reflexivity]. symmetry. now apply run_ops_first.
  - cbn [forallb] in Hpre. apply andb_true_iff in Hpre as [Ho Hpre].
    apply negb_true_iff in Ho.
    cbn [app Tag.run_ops].
    rewrite (op_step_no_run subword first o _ (pre ++ post)%list st Ho).
    destruct (Tag.op_step subword first o (pre ++ post)%list st) as [st'|e];
      [|reflexivity].
    cbn [bind]. apply IH; auto.
Qed.

Lemma whole_piece_head (o1 o2 : Tag.op) (l1 l2 : list Tag.op) :
  whole_piece_tag (Tag.render (o1 :: o2 :: l1))
  = whole_piece_tag (Tag.render (o1 :: o2 :: l2)).
Proof.
  unfold whole_piece_tag. rewrite !render_cons.
  destruct o1, o2; reflexivity.
Qed.

(** A tag with a merge in it is read token by token when the tag without
    the merge is. *)
Lemma merge_dispatch (pre post : list Tag.op) :
  whole_piece_tag (Tag.render (pre ++ post)) = false ->
  whole_piece_tag (Tag.render (pre ++ Tag.Merge :: post)) = false.
Proof.
  destruct pre as [|o1 [|o2 pre]]; cbn [app].
  - intros _. unfold whole_piece_tag. rewrite render_cons. reflexivity.
  - intros H. unfold whole_piece_tag in *. rewrite !render_cons in *.
    destruct o1; try reflexivity; discriminate H.
  - intros H. rewrite <- H. apply whole_piece_head.
Qed.

Lemma whole_piece_applicable (tag : string) :
  whole_piece_tag tag = false -> (tag =? "K") || startswith "KA" tag = false.
Proof.
  unfold whole_piece_tag. intros H. now apply orb_false_iff in H as [H _].
Qed.

Lemma whole_piece_apply (self : SubwordEdit.t) (piece : string) :
  whole_piece_tag (SubwordEdit.edit self) = false ->
  SubwordEdit.apply self piece
  = (edited_subword <-
       SubwordEdit._apply_char_edits (remove_marker piece)
         (Re.findall Re.char_edit_re (SubwordEdit.edit self)) ;;
     Ok (if contains "##" piece then "##" ++ edited_subword
         else edited_subword)).
Proof.
  unfold whole_piece_tag, SubwordEdit.apply. intros H.
  apply orb_false_iff in H as [H ->]. apply orb_false_iff in H as [-> ->].
  reflexivity.
Qed.

(** C9, as amended: for every piece and every tag made of operations
    whose texts hold no closing bracket and no line break, with a bare M
    among them, such that the tag without this M is not K and does not
    begin with KA or DA: [is_applicable] answers the same for the tag with
    and without the M; and, when no K* or D* stands before the M and the M
    is not the first operation with an append right after it, [apply]
    gives the same with and without the M, the same text or the same
    fault: the M writes no character and reads none. *)
Theorem merge_consumes_nothing (pre post : list Tag.op)
    (subword raw_subword piece : string) :
  Tag.well_formed (pre ++ post) = true ->
  whole_piece_tag (Tag.render (pre ++ post)) = false ->
  SubwordEdit.is_applicable
    (SubwordEdit.mk subword raw_subword (Tag.render (pre ++ Tag.Merge :: post)))
    piece
  = SubwordEdit.is_applicable
      (SubwordEdit.mk subword raw_subword (Tag.render (pre ++ post))) piece
  /\ (forallb (fun o => negb (is_run_op o)) pre = true ->
      merge_leads_append pre post = false ->
      SubwordEdit.apply
        (SubwordEdit.mk subword raw_subword
           (Tag.render (pre ++ Tag.Merge :: post))) piece
      = SubwordEdit.apply
          (SubwordEdit.mk subword raw_subword (Tag.render (pre ++ post)))
          piece).
Proof.
  intros Hwf Hw. pose proof (merge_dispatch pre post Hw) as HwM.
  assert (HwfM : Tag.well_formed (pre ++ Tag.Merge :: post) = true).
  { rewrite well_formed_app in *. apply andb_true_iff in Hwf as [H1 H2].
    cbn [Tag.well_formed forallb Tag.plain_op] in *.
    unfold Tag.well_formed in *. now rewrite H1, H2. }
  split.
  - unfold SubwordEdit.is_applicable, SubwordEdit.applicable_tokens.
    cbn [SubwordEdit.edit].
    rewrite (whole_piece_applicable _ Hw), (whole_piece_applicable _ HwM).
    rewrite !findall_char_edits by assumption.
    rewrite !map_app. cbn [map Tag.render_op].
    now rewrite filter_drops_merge.
  - intros Hpre Hlead. rewrite !whole_piece_apply by assumption.
    cbn [SubwordEdit.edit].
    rewrite !findall_char_edits, !apply_char_edits_ops by assumption.
    rewrite (run_ops_merge (remove_marker piece) pre post Hpre true ("", 0));
      auto.
Qed.

Lemma merge_consumes_nothing_witness :
  Tag.well_formed ([Tag.Keep; Tag.Insert "x"] ++ [Tag.KeepRun; Tag.Replace "y"])
  = true
  /\ whole_piece_tag
       (Tag.render ([Tag.Keep; Tag.Insert "x"] ++ [Tag.KeepRun; Tag.Replace "y"]))
     = false
  /\ forallb (fun o => negb (is_run_op o)) [Tag.Keep; Tag.Insert "x"] = true
  /\ merge_leads_append [Tag.Keep; Tag.Insert "x"]
       [Tag.KeepRun; Tag.Replace "y"] = false
  /\ SubwordEdit.is_applicable
       (SubwordEdit.mk "##abcd" "abcd" "KI_[x]MK*R_[y]") "##abcd"
     = SubwordEdit.is_applicable
         (SubwordEdit.mk "##abcd" "abcd" "KI_[x]K*R_[y]") "##abcd"
  /\ SubwordEdit.apply (SubwordEdit.mk "##abcd" "abcd" "KI_[x]MK*R_[y]")
       "##abcd"
     = SubwordEdit.apply (SubwordEdit.mk "##abcd" "abcd" "KI_[x]K*R_[y]")
         "##abcd"
  /\ SubwordEdit.apply (SubwordEdit.mk "##abcd" "abcd" "KI_[x]MK*R_[y]")
       "##abcd" = Ok "##axbcy".
Proof.
  do 4 (split; [reflexivity|]).
  destruct (merge_consumes_nothing [Tag.Keep; Tag.Insert "x"]
              [Tag.KeepRun; Tag.Replace "y"] "##abcd" "abcd" "##abcd"
              eq_refl eq_refl) as [Ha Hb].
  split; [exact Ha|]. split; [exact (Hb eq_refl eq_refl) | reflexivity].
Defined.

(** C9 as stated fails: a bare M after K* is counted among the
    operations that shorten the run, so it costs the piece a character:
    ["K*M"] keeps [ab] of [abc] where ["K*"] keeps [abc], and
    ["K*MR_[z]"] gives [az] where ["K*R_[z]"] gives [abz];
    [is_applicable] accepts ["K*M"] on [abc] all the same.  The other two
    conditions are needed as well: ["KM"] keeps one character where the
    whole-piece tag ["K"] keeps the piece, and an append is written
    differently behind a leading M. *)
Lemma merge_consumes_nothing_counterexample :
  apply_tag "K*M" "abc" = Ok "ab"
  /\ apply_tag "K*" "abc" = Ok "abc"
  /\ apply_tag "K*MR_[z]" "abc" = Ok "az"
  /\ apply_tag "K*R_[z]" "abc" = Ok "abz"
  /\ SubwordEdit.is_applicable (SubwordEdit.mk "abc" "abc" "K*M") "abc" = true
  /\ apply_tag "KM" "ab" = Ok "a"
  /\ apply_tag "K" "ab" = Ok "ab"
  /\ apply_tag "MA_[x]" "ab" = Ok " x"
  /\ apply_tag "A_[x]" "ab" = Ok "x ".
Proof. repeat split. Qed.
